(** * icrochet: image to stitch-pattern pipeline

    A shallow embedding of [backend/src/image_to_pattern_vectorised.py],
    of the per-pixel classifier of [backend/src/main.py] and of the
    dimension handling of [backend/app.py], followed by the properties of
    the resampler, the edge detector, the colour and stitch classifiers,
    the palette loader and the grid assembler.

    Conventions.  A numpy array of shape (R, C) is a list of R rows of
    length C; an RGB image is such an array of [pixel]s.  Python and numpy
    exceptions are values of [exn], and a function that can raise returns a
    [result].  float64 values are the kernel's binary64 numbers
    ([PrimFloat.float]), so every arithmetic operation rounds exactly as
    it does in numpy. *)

From Stdlib Require Import ZArith List Bool Arith Lia.
From Stdlib Require Import Ascii String.
From Stdlib Require Import Uint63 Floats.
From Stdlib Require Import Reals Lra.
Import ListNotations.

(* ================================================================== *)
(** * Exceptions and results *)
(* ================================================================== *)

(** The exception classes the modelled code can raise, and the three error
    kinds that only the specification names ([ConfigError],
    [InvalidDimension], [LookupMiss]): no class of these names is defined
    or raised anywhere in the sources. *)
Inductive exn : Set :=
  | ZeroDivisionError
  | IndexError
  | ValueError
  | KeyError
  | TypeError
  | AttributeError
  | OverflowError
  | FileNotFoundError
  | YAMLError
  | ConfigError
  | InvalidDimension
  | LookupMiss.

Inductive result (A : Type) : Type :=
  | Ok (a : A)
  | Raise (e : exn).

Arguments Ok {A} a.
Arguments Raise {A} e.

Definition bind {A B : Type} (c : result A) (k : A -> result B) : result B :=
  match c with
  | Ok a => k a
  | Raise e => Raise e
  end.

Declare Scope py_scope.
Delimit Scope py_scope with py.
Notation "x <- c ;; k" := (bind c (fun x => k))
  (at level 61, c at next level, right associativity) : py_scope.
Notation "' p <- c ;; k" := (bind c (fun x => let p := x in k))
  (at level 61, p pattern, c at next level, right associativity) : py_scope.
Open Scope py_scope.

(** A comprehension whose body can raise: elements are evaluated left to
    right and the first exception aborts the whole comprehension. *)
Fixpoint mapM {A B : Type} (f : A -> result B) (l : list A) : result (list B) :=
  match l with
  | [] => Ok []
  | x :: t => y <- f x ;; ys <- mapM f t ;; Ok (y :: ys)
  end.

(** [seq[i]] on a Python list or one numpy axis, for an index already known
    to be non-negative. *)
Definition getitem {A : Type} (l : list A) (i : nat) : result A :=
  match nth_error l i with
  | Some x => Ok x
  | None => Raise IndexError
  end.

(* ================================================================== *)
(** * Python strings *)
(* ================================================================== *)

(** A Python [str] is modelled by a [string] of its characters, one
    [ascii] per character; this is exact for text of ASCII characters
    ([ascii_text]: the characters 1 to 127), on which [lower], [strip],
    slicing and [int] below are those of Python.  Text with other
    characters (where [str.lower], [str.strip] and [int] follow the
    Unicode tables, and the null character, which a numpy string array
    drops at the end of an element) is outside the model: the statements
    about these operations are made for [ascii_text] strings. *)
Definition ascii_in (lo hi : nat) (c : ascii) : bool :=
  (lo <=? nat_of_ascii c)%nat && (nat_of_ascii c <=? hi)%nat.

Definition is_ascii (c : ascii) : bool := ascii_in 1 127 c.

Definition ascii_text (s : string) : bool :=
  forallb is_ascii (list_ascii_of_string s).

(** [str.lower] on an ASCII character: the letters A-Z are lowered. *)
Definition lower_ascii (c : ascii) : ascii :=
  if ascii_in 65 90 c then ascii_of_nat (nat_of_ascii c + 32) else c.

Fixpoint lower (s : string) : string :=
  match s with
  | EmptyString => EmptyString
  | String c t => String (lower_ascii c) (lower t)
  end.

(** [s.lstrip('#')]: every leading ['#'] is removed. *)
Fixpoint lstrip_hash (s : string) : string :=
  match s with
  | String c t => if Ascii.eqb c "#" then lstrip_hash t else s
  | EmptyString => EmptyString
  end.

(** [s[i:i+2]]: slicing never raises, it truncates at the end of [s]. *)
Definition slice2 (s : string) (i : nat) : string := substring i 2 s.

(** White space for [str.strip] among the ASCII characters: the
    characters 9-13 and 28-32 ([str.isspace]). *)
Definition is_space (c : ascii) : bool :=
  ascii_in 9 13 c || ascii_in 28 32 c.

Fixpoint lstrip_space (l : list ascii) : list ascii :=
  match l with
  | c :: t => if is_space c then lstrip_space t else l
  | [] => []
  end.

Definition strip_space (l : list ascii) : list ascii :=
  rev (lstrip_space (rev (lstrip_space l))).

(** White space for [int]: the blank and the characters 9-13 only (the
    separators 28-31 are white space for [str.strip], not for [int]). *)
Definition is_int_space (c : ascii) : bool :=
  ascii_in 9 13 c || Ascii.eqb c " ".

Fixpoint lstrip_int_space (l : list ascii) : list ascii :=
  match l with
  | c :: t => if is_int_space c then lstrip_int_space t else l
  | [] => []
  end.

Definition strip_int_space (l : list ascii) : list ascii :=
  rev (lstrip_int_space (rev (lstrip_int_space l))).

Definition hex_digit (c : ascii) : option Z :=
  let n := Z.of_nat (nat_of_ascii c) in
  if ascii_in 48 57 c then Some (n - 48)%Z
  else if ascii_in 97 102 c then Some (n - 87)%Z
  else if ascii_in 65 70 c then Some (n - 55)%Z
  else None.

(** Digits of a base-16 literal; single underscores may separate digits.
    [prev] records that the previous character was a digit. *)
Fixpoint hex_digits (l : list ascii) (acc : Z) (prev : bool) : option Z :=
  match l with
  | [] => if prev then Some acc else None
  | c :: t =>
      if Ascii.eqb c "_" then (if prev then hex_digits t acc false else None)
      else match hex_digit c with
           | Some d => hex_digits t (16 * acc + d)%Z true
           | None => None
           end
  end.

Definition hex_literal (l : list ascii) : option Z :=
  match l with
  | z :: x :: t =>
      if Ascii.eqb z "0" && (Ascii.eqb x "x" || Ascii.eqb x "X") then
        match t with
        | u :: t' => if Ascii.eqb u "_" then hex_digits t' 0 false
                     else hex_digits t 0 false
        | [] => None
        end
      else hex_digits l 0 false
  | _ => hex_digits l 0 false
  end.

(** [int(s, 16)] on a string of ASCII characters: surrounding white space,
    an optional sign, an optional [0x] prefix, then hexadecimal digits. *)
Definition py_int16 (s : string) : result Z :=
  let body := strip_int_space (list_ascii_of_string s) in
  let '(neg, digits) :=
    match body with
    | c :: t => if Ascii.eqb c "-" then (true, t)
                else if Ascii.eqb c "+" then (false, t)
                else (false, body)
    | [] => (false, body)
    end in
  match hex_literal digits with
  | Some v => Ok (if neg then (- v)%Z else v)
  | None => Raise ValueError
  end.

(* ================================================================== *)
(** * YAML documents and the palette resource *)
(* ================================================================== *)

(** What [yaml.safe_load] can return. *)
#[warnings="-register-all"]
Inductive yaml : Type :=
  | YNull
  | YBool (b : bool)
  | YInt (z : Z)
  | YStr (s : string)
  | YSeq (items : list yaml)
  | YMap (entries : list (yaml * yaml)).

(** The state of the file behind [yaml_file]: absent, present but not
    parseable as YAML, or holding a document. *)
Inductive resource : Type :=
  | Missing
  | Unparseable
  | Document (d : yaml).

(** [with open(yaml_file) as f: data = yaml.safe_load(f)]. *)
Definition safe_load_file (r : resource) : result yaml :=
  match r with
  | Missing => Raise FileNotFoundError
  | Unparseable => Raise YAMLError
  | Document d => Ok d
  end.

Definition is_key (k : string) (y : yaml) : bool :=
  match y with
  | YStr s => String.eqb s k
  | _ => false
  end.

(** [data[key]] for a string key. *)
Definition yaml_getitem (data : yaml) (key : string) : result yaml :=
  match data with
  | YMap entries =>
      match find (fun kv => is_key key (fst kv)) entries with
      | Some kv => Ok (snd kv)
      | None => Raise KeyError
      end
  | _ => Raise TypeError
  end.

(** [d.items()]. *)
Definition yaml_items (d : yaml) : result (list (yaml * yaml)) :=
  match d with
  | YMap entries => Ok entries
  | _ => Raise AttributeError
  end.

(** [name.lower()]: only [str] has the method. *)
Definition yaml_lower (name : yaml) : result string :=
  match name with
  | YStr s => Ok (lower s)
  | _ => Raise AttributeError
  end.

(** A Python [dict] with string keys, in insertion order. *)
Definition dict (V : Type) : Type := list (string * V).

(** [d[k] = v]: an existing key keeps its position and takes the new
    value, a new key goes to the end. *)
Fixpoint dict_set {V : Type} (d : dict V) (k : string) (v : V) : dict V :=
  match d with
  | [] => [(k, v)]
  | (k', v') :: t =>
      if String.eqb k' k then (k', v) :: t else (k', v') :: dict_set t k v
  end.

(** The palette as the loader returns it: names to the YAML values found
    in the resource (nothing forces them to be strings). *)
Definition palette : Type := dict yaml.

(** [d.get(k)]: the value stored under [k], if any. *)
Fixpoint dict_get {V : Type} (d : dict V) (k : string) : option V :=
  match d with
  | [] => None
  | (k', v) :: t => if String.eqb k' k then Some v else dict_get t k
  end.

(** [s.strip()]: white space removed at both ends. *)
Definition strip (s : string) : string :=
  string_of_list_ascii (strip_space (list_ascii_of_string s)).

(* ================================================================== *)
(** * Numbers: Python [int], [uint8], [int64] and [float64] *)
(* ================================================================== *)

(** An RGB pixel: three [uint8] channels. *)
Definition pixel : Type := (Z * Z * Z)%type.

Definition image : Type := list (list pixel).

(** [a.shape[0]] and [a.shape[1]]; an array without rows reads as having
    no columns. *)
Definition nrows {A : Type} (a : list (list A)) : nat := List.length a.
Definition ncols {A : Type} (a : list (list A)) : nat := List.length (hd [] a).

(** [a] has shape (R, C). *)
Definition has_shape {A : Type} (R C : nat) (a : list (list A)) : Prop :=
  List.length a = R /\ Forall (fun row => List.length row = C) a.

(** An integer converted to float64, rounded to nearest with ties to
    even (exact below 2^53 in magnitude): the machine conversion for what
    fits in 63 bits, the rounding of the standard for larger magnitudes
    (from 2^1024 on, where Python raises OverflowError and which no numpy
    integer reaches, the value reads as an infinity). *)
Definition float_of_int (z : Z) : float :=
  if (Z.abs z <? 2 ^ 63)%Z then
    if (z <? 0)%Z then (- of_uint63 (Uint63.of_Z (- z)))%float
    else of_uint63 (Uint63.of_Z z)
  else SF2Prim (binary_normalize prec emax z 0 false).

(** The integer part of a finite float64, rounded towards zero. *)
Definition sf_trunc (x : spec_float) : option Z :=
  match x with
  | S754_zero _ => Some 0%Z
  | S754_finite s m e =>
      let a := match e with
               | Zneg k => (Zpos m / 2 ^ Zpos k)%Z
               | _ => (Zpos m * 2 ^ e)%Z
               end in
      Some (if s then (- a)%Z else a)
  | _ => None
  end.

(** [x.astype(int)]: the C conversion to [int64]; what does not fit (NaN,
    the infinities, magnitudes from 2^63) gives the minimal [int64]. *)
Definition astype_int (x : float) : Z :=
  match sf_trunc (Prim2SF x) with
  | Some z => if ((- 2 ^ 63 <=? z) && (z <? 2 ^ 63))%Z then z else (- 2 ^ 63)%Z
  | None => (- 2 ^ 63)%Z
  end.

(** Python's [int(x)] for a float [x]. *)
Definition py_int_of_float (x : float) : result Z :=
  match Prim2SF x with
  | S754_nan => Raise ValueError
  | S754_infinity _ => Raise OverflowError
  | sf => match sf_trunc sf with Some z => Ok z | None => Raise ValueError end
  end.

(** Python's [a / b] on integers (both exactly representable, as array
    extents are): the correctly rounded quotient. *)
Definition py_truediv (a b : Z) : result float :=
  if (b =? 0)%Z then Raise ZeroDivisionError
  else Ok (float_of_int a / float_of_int b)%float.

(* ================================================================== *)
(** * numpy arrays *)
(* ================================================================== *)

(** [np.arange(n)]: empty when [n <= 0]. *)
Definition arange (n : Z) : list Z := map Z.of_nat (seq 0 (Z.to_nat n)).

(** One integer index on one axis: negative indices count from the end,
    anything outside [-n, n) raises. *)
Definition take_index {A : Type} (l : list A) (i : Z) : result A :=
  let n := Z.of_nat (List.length l) in
  if ((0 <=? i) && (i <? n))%Z then getitem l (Z.to_nat i)
  else if ((- n <=? i) && (i <? 0))%Z then getitem l (Z.to_nat (i + n))
  else Raise IndexError.

(** [a[row_idx[:, None], col_idx]]: the two index arrays broadcast to a
    grid; only the cells of that grid are read, so an empty index array
    reads nothing. *)
Definition fancy_index {A : Type} (a : list (list A)) (row_idx col_idx : list Z)
  : result (list (list A)) :=
  mapM (fun r => mapM (fun c => row <- take_index a r ;; take_index row c) col_idx)
       row_idx.

(** [np.pad(v, (1, 1), mode='edge')] on one axis. *)
Definition pad_edge1 {A : Type} (l : list A) : list A :=
  match l with
  | [] => []
  | x :: _ => x :: l ++ [last l x]
  end.

(** [np.pad(a, ((1,1),(1,1)), mode='edge')]: an empty axis cannot be
    extended in this mode. *)
Definition pad_edge {A : Type} (a : list (list A)) : result (list (list A)) :=
  if ((nrows a =? 0) || (ncols a =? 0))%nat then Raise ValueError
  else Ok (pad_edge1 (map pad_edge1 a)).

(** The three slices taken on each axis of the padded map:
    [[:-2]], [[1:-1]] and [[2:]]. *)
Inductive window : Set := Lo | Mid | Hi.

Definition slice {A : Type} (w : window) (l : list A) : list A :=
  match w with
  | Lo => firstn (List.length l - 2) l
  | Mid => skipn 1 (firstn (List.length l - 1) l)
  | Hi => skipn 2 l
  end.

(** Where a slice starts. *)
Definition slice_start (w : window) : nat :=
  match w with
  | Lo => 0
  | Mid => 1
  | Hi => 2
  end.

Definition slice2d {A : Type} (wr wc : window) (a : list (list A)) : list (list A) :=
  map (slice wc) (slice wr a).

(** Elementwise binary operation on arrays of one shape. *)
Fixpoint zip_with {A B C : Type} (f : A -> B -> C) (l : list A) (l' : list B) : list C :=
  match l, l' with
  | x :: t, y :: t' => f x y :: zip_with f t t'
  | _, _ => []
  end.

Definition arr_add (a b : list (list float)) : list (list float) :=
  zip_with (zip_with PrimFloat.add) a b.

(** [k * a] for a float64 scalar [k]. *)
Definition arr_scale (k : float) (a : list (list float)) : list (list float) :=
  map (map (PrimFloat.mul k)) a.

(** [a ** 2] (numpy squares by multiplying). *)
Definition arr_square (a : list (list float)) : list (list float) :=
  map (map (fun x => (x * x)%float)) a.

Definition arr_sqrt (a : list (list float)) : list (list float) :=
  map (map PrimFloat.sqrt) a.

(** [a.reshape(rows, cols)] of a flat array. *)
Fixpoint chunks {A : Type} (rows cols : nat) (flat : list A) : list (list A) :=
  match rows with
  | O => []
  | S r => firstn cols flat :: chunks r cols (skipn cols flat)
  end.

Definition reshape {A : Type} (rows cols : nat) (flat : list A) : result (list (list A)) :=
  if (List.length flat =? rows * cols)%nat then Ok (chunks rows cols flat)
  else Raise ValueError.

(** [np.argmin] along a non-empty axis: the first index of the minimum. *)
Fixpoint argmin_from (l : list Z) (i best_i : nat) (best : Z) : nat :=
  match l with
  | [] => best_i
  | x :: t => if (x <? best)%Z then argmin_from t (S i) i x
              else argmin_from t (S i) best_i best
  end.

Definition argmin (l : list Z) : nat :=
  match l with
  | [] => 0%nat
  | x :: t => argmin_from t 1 0 x
  end.

(** [a[mask] = v] with a boolean mask: the mask must have the shape of
    the array. *)
Fixpoint mask_assign1 {A : Type} (v : A) (row : list A) (mask : list bool)
  : result (list A) :=
  match row, mask with
  | [], [] => Ok []
  | x :: t, m :: mt => r <- mask_assign1 v t mt ;; Ok ((if m then v else x) :: r)
  | _, _ => Raise IndexError
  end.

Fixpoint mask_assign {A : Type} (v : A) (a : list (list A)) (mask : list (list bool))
  : result (list (list A)) :=
  match a, mask with
  | [], [] => Ok []
  | row :: t, m :: mt =>
      r <- mask_assign1 v row m ;; rest <- mask_assign v t mt ;; Ok (r :: rest)
  | _, _ => Raise IndexError
  end.

(** The squared Euclidean distance of two RGB triples (in [int64]; the
    largest value, 3 * 255^2, is far from overflow). *)
Definition sqdist (p q : pixel) : Z :=
  let '(r, g, b) := p in
  let '(yr, yg, yb) := q in
  ((r - yr) ^ 2 + (g - yg) ^ 2 + (b - yb) ^ 2)%Z.

(** [[int(hex_code.lstrip('#')[i:i+2], 16) for i in (0, 2, 4)]]. *)
Definition hex_channels (hex_code : yaml) : result pixel :=
  match hex_code with
  | YStr s =>
      let h := lstrip_hash s in
      r <- py_int16 (slice2 h 0) ;;
      g <- py_int16 (slice2 h 2) ;;
      b <- py_int16 (slice2 h 4) ;;
      Ok (r, g, b)
  | _ => Raise AttributeError
  end.

(** [0.299*r + 0.587*g + 0.114*b] on [uint8] channels, in float64. *)
#[warnings="-inexact-float"]
Definition luma (p : pixel) : float :=
  let '(r, g, b) := p in
  (0.299 * float_of_int r + 0.587 * float_of_int g + 0.114 * float_of_int b)%float.

(* ================================================================== *)
(** * [src/image_to_pattern_vectorised.py] *)
(* ================================================================== *)

Module Vectorised.

(** [load_yarn_palette]: the names of the [colours] mapping in lower case,
    each with the value found next to it. *)
Definition load_yarn_palette (yaml_file : resource) : result palette :=
  data <- safe_load_file yaml_file ;;
  colours <- yaml_getitem data "colours" ;;
  items <- yaml_items colours ;;
  names <- mapM (fun kv => yaml_lower (fst kv)) items ;;
  Ok (fold_left (fun d nv => dict_set d (fst nv) (snd nv))
                (combine names (map snd items)) []).

(** [resize_image]. *)
Definition resize_image (img_array : image) (new_rows new_cols : Z) : result image :=
  let old_rows := Z.of_nat (nrows img_array) in
  let old_cols := Z.of_nat (ncols img_array) in
  row_scale <- py_truediv old_rows new_rows ;;
  let row_idx :=
    map (fun i => astype_int (float_of_int i * row_scale)) (arange new_rows) in
  col_scale <- py_truediv old_cols new_cols ;;
  let col_idx :=
    map (fun j => astype_int (float_of_int j * col_scale)) (arange new_cols) in
  fancy_index img_array row_idx col_idx.

Definition kernel : Type := list (list float).

Definition Kx : kernel :=
  [[-1; 0; 1]; [-2; 0; 2]; [-1; 0; 1]]%float.

Definition Ky : kernel :=
  [[1; 2; 1]; [0; 0; 0]; [-1; -2; -1]]%float.

(** [K[a, b]]. *)
Definition kget (K : kernel) (a b : nat) : float :=
  nth b (nth a K []) 0%float.

(** The nine-term sum of the source, term by term and in its order. *)
Definition correlate3 (K : kernel) (gray_padded : list (list float))
  : list (list float) :=
  let term a b wr wc := arr_scale (kget K a b) (slice2d wr wc gray_padded) in
  arr_add (arr_add (arr_add (arr_add (arr_add (arr_add (arr_add (arr_add
    (term 0 0 Lo Lo)%nat (term 0 1 Lo Mid)%nat) (term 0 2 Lo Hi)%nat)
    (term 1 0 Mid Lo)%nat) (term 1 1 Mid Mid)%nat) (term 1 2 Mid Hi)%nat)
    (term 2 0 Hi Lo)%nat) (term 2 1 Hi Mid)%nat) (term 2 2 Hi Hi)%nat.

(** [compute_edges]. *)
Definition compute_edges (img_array : image) : result (list (list float)) :=
  let gray := map (map luma) img_array in
  gray_padded <- pad_edge gray ;;
  let gx := correlate3 Kx gray_padded in
  let gy := correlate3 Ky gray_padded in
  Ok (arr_sqrt (arr_add (arr_square gx) (arr_square gy))).

(** [nearest_colour_vectorised]. *)
Definition nearest_colour_vectorised (img_array : image) (yarn_palette : palette)
  : result (list (list string)) :=
  let palette_names := map fst yarn_palette in
  palette_rgb <- mapM hex_channels (map snd yarn_palette) ;;
  let flat_img := List.concat img_array in
  match palette_rgb with
  | [] => Raise IndexError     (* [palette_rgb[None,:,:]] on a 1-d array *)
  | _ :: _ =>
      let dist := map (fun px => map (sqdist px) palette_rgb) flat_img in
      let idx := map argmin dist in
      nearest_names <- mapM (getitem palette_names) idx ;;
      reshape (nrows img_array) (ncols img_array) nearest_names
  end.

(** [edge_brightness_to_stitch_vectorised]. *)
Definition edge_brightness_to_stitch_vectorised
  (img_array : image) (edge_array : list (list float)) : result (list (list ascii)) :=
  let brightness := map (map luma) img_array in
  let stitches := map (map (fun _ => "o"%char)) brightness in
  stitches <- mask_assign "+"%char stitches
                (map (map (fun b => (b <? 100)%float)) brightness) ;;
  mask_assign "x"%char stitches (map (map (fun e => (150 <? e)%float)) edge_array).

(** One row of the data frame: [(row, col, stitch, colour)]. *)
Record cell : Type := mk_cell {
  row : nat;
  col : nat;
  stitch : ascii;
  colour : string
}.

(** [a[r, c]]. *)
Definition getitem2 {A : Type} (a : list (list A)) (r c : nat) : result A :=
  line <- getitem a r ;; getitem line c.

(** [image_to_stitch_grid]; the data frame is the list of its rows. *)
Definition image_to_stitch_grid
  (img_array : image) (edge_array : list (list float)) (yarn_palette : palette)
  : result (list cell) :=
  colour_array <- nearest_colour_vectorised img_array yarn_palette ;;
  stitch_array <- edge_brightness_to_stitch_vectorised img_array edge_array ;;
  let rows := nrows img_array in
  let cols := ncols img_array in
  mapM (fun rc =>
          s <- getitem2 stitch_array (fst rc) (snd rc) ;;
          k <- getitem2 colour_array (fst rc) (snd rc) ;;
          Ok (mk_cell (fst rc) (snd rc) s k))
       (flat_map (fun r => map (fun c => (r, c)) (seq 0 cols)) (seq 0 rows)).

(** The command-line entry point up to the grid: [rows] follows from
    [cols] and the aspect ratio of the image. *)
Definition main (img : image) (cols : Z) (yarn_palette : palette) : result (list cell) :=
  aspect_ratio <- py_truediv (Z.of_nat (nrows img)) (Z.of_nat (ncols img)) ;;
  rows <- py_int_of_float (float_of_int cols * aspect_ratio) ;;
  resized_img <- resize_image img rows cols ;;
  edges <- compute_edges resized_img ;;
  image_to_stitch_grid resized_img edges yarn_palette.

(** The colour a cell is drawn in by [visualise_stitch_grid]:
    [yarn_palette.get(str(colour_name).strip().lower(), "#000000")]. *)
Definition text_colour (yarn_palette : palette) (colour_name : string) : yaml :=
  match dict_get yarn_palette (lower (strip colour_name)) with
  | Some hex_code => hex_code
  | None => YStr "#000000"
  end.

(** [df.sort("col")]: ascending by column, as an insertion sort (rows
    with equal columns keep their order). *)
Fixpoint insert_by_col (x : cell) (l : list cell) : list cell :=
  match l with
  | [] => [x]
  | y :: t => if (col x <=? col y)%nat then x :: y :: t
              else y :: insert_by_col x t
  end.

Definition sort_by_col (l : list cell) : list cell :=
  fold_right insert_by_col [] l.

(** [stitch_df.filter(pl.col("row") == r).sort("col")]. *)
Definition row_data (stitch_df : list cell) (r : nat) : list cell :=
  sort_by_col (filter (fun s => (row s =? r)%nat) stitch_df).

(** [f"{s[2]}({s[3]})"]. *)
Definition token (s : cell) : string :=
  String (stitch s) ("(" ++ colour s ++ ")").

(** The text dump of the command line: one line per [r] in
    [range(rows)], the tokens of that row joined by a blank. *)
Definition text_dump (stitch_df : list cell) (rows : Z) : list string :=
  map (fun r => String.concat " " (map token (row_data stitch_df (Z.to_nat r))))
      (arange rows).

End Vectorised.

(* ================================================================== *)
(** * [src/main.py] *)
(* ================================================================== *)

Module Main.

(** The loop of [nearest_colour]; [min_dist = None] stands for
    [float("inf")], [closest = None] for Python's [None]. *)
Fixpoint nearest_colour_loop (rgb : pixel) (items : palette)
  (min_dist : option Z) (closest : option string) : result (option string) :=
  match items with
  | [] => Ok closest
  | (name, hex_code) :: rest =>
      y <- hex_channels hex_code ;;
      let dist := sqdist rgb y in
      let smaller := match min_dist with
                     | None => true
                     | Some m => (dist <? m)%Z
                     end in
      if smaller then nearest_colour_loop rgb rest (Some dist) (Some name)
      else nearest_colour_loop rgb rest min_dist closest
  end.

(** [nearest_colour]. *)
Definition nearest_colour (rgb : pixel) (yarn_palette : palette)
  : result (option string) :=
  nearest_colour_loop rgb yarn_palette None None.

(** [edge_brightness_to_stitch]; the edge strength it is called with is a
    [uint8] value of the edge map. *)
Definition edge_brightness_to_stitch (pixel_rgb : pixel) (edge_strength : Z) : ascii :=
  let brightness := luma pixel_rgb in
  if (150 <? edge_strength)%Z then "x"%char
  else if (brightness <? 100)%float then "+"%char
  else "o"%char.

(** [image_to_stitch_preview].  [grid] and [edges] are the arrays that
    [image_to_grid] and [compute_edge_strength] obtain from the imaging
    libraries (a resize by PIL, an edge map by OpenCV); the loops are
    those of the source. *)
Definition image_to_stitch_preview (grid : image) (edges : list (list Z))
  (yarn_palette : palette) (rows cols : Z)
  : result (list (list (ascii * option string))) :=
  mapM (fun r =>
    mapM (fun c =>
      pixel_rgb <- Vectorised.getitem2 grid (Z.to_nat r) (Z.to_nat c) ;;
      colour_name <- nearest_colour pixel_rgb yarn_palette ;;
      edge <- Vectorised.getitem2 edges (Z.to_nat r) (Z.to_nat c) ;;
      Ok (edge_brightness_to_stitch pixel_rgb edge, colour_name))
    (arange cols))
  (arange rows).

(** [yarn_palette[colour_name]] of [visualize_stitch_preview]; the name
    may be [None]. *)
Definition palette_getitem (yarn_palette : palette) (colour_name : option string)
  : result yaml :=
  match colour_name with
  | Some name =>
      match dict_get yarn_palette name with
      | Some hex_code => Ok hex_code
      | None => Raise KeyError
      end
  | None => Raise KeyError
  end.

End Main.

(* ================================================================== *)
(** * [app.py] *)
(* ================================================================== *)

Module App.

(** [upload_image] from the decoded upload to the grid. *)
Definition upload_image (src : image) (cols : Z) (yarn_palette : palette)
  : result (list Vectorised.cell) :=
  img <- Vectorised.resize_image src cols cols ;;
  aspect_ratio <- py_truediv (Z.of_nat (nrows img)) (Z.of_nat (ncols img)) ;;
  rows <- py_int_of_float (float_of_int cols * aspect_ratio) ;;
  resized_img <- Vectorised.resize_image src rows cols ;;
  edges <- Vectorised.compute_edges resized_img ;;
  Vectorised.image_to_stitch_grid resized_img edges yarn_palette.

End App.

(* ================================================================== *)
(** * The statements of the design, in its own words *)
(* ================================================================== *)

(** [k] is the first position of the minimum of [ds]. *)
Definition first_min (ds : list Z) (k : nat) : Prop :=
  (k < List.length ds)%nat /\
  (forall j, (j < List.length ds)%nat -> (nth k ds 0 <= nth j ds 0)%Z) /\
  (forall j, (j < k)%nat -> (nth k ds 0 < nth j ds 0)%Z).

(** The squared Euclidean distance of two RGB triples: the sum over the
    three channels of the squared differences. *)
Definition channels (p : pixel) : list Z :=
  [fst (fst p); snd (fst p); snd p].

Definition squared_distance (p q : pixel) : Z :=
  fold_right Z.add 0%Z
    (map (fun d => (d * d)%Z) (zip_with Z.sub (channels p) (channels q))).

(** The brightness of the design, 0.299 R + 0.587 G + 0.114 B, computed
    in float64 from left to right. *)
#[warnings="-inexact-float"]
Definition weighted_brightness (p : pixel) : float :=
  let '(r, g, b) := p in
  (0.299 * float_of_int r + 0.587 * float_of_int g + 0.114 * float_of_int b)%float.

(** A thousand times the same brightness in exact arithmetic:
    299 R + 587 G + 114 B. *)
Definition brightness_thousandths (p : pixel) : Z :=
  let '(r, g, b) := p in (299 * r + 587 * g + 114 * b)%Z.

(** The stitch of a cell by precedence: the edge test first, then the
    brightness test with a strict comparison. *)
Definition stitch_rule (p : pixel) (edge_strength : float) : ascii :=
  if (150 <? edge_strength)%float then "x"%char
  else if (weighted_brightness p <? 100)%float then "+"%char
  else "o"%char.

(** The same rule with the brightness taken in exact arithmetic. *)
Definition stitch_rule_exact (p : pixel) (edge_strength : float) : ascii :=
  if (150 <? edge_strength)%float then "x"%char
  else if (brightness_thousandths p <? 100 * 1000)%Z then "+"%char
  else "o"%char.

(** The kernels of the design, entry by entry:
    Kx = [[-1,0,1],[-2,0,2],[-1,0,1]] and Ky = [[1,2,1],[0,0,0],[-1,-2,-1]]. *)
Definition kernel_x (a b : nat) : float :=
  match a, b with
  | 0%nat, 0%nat => -1 | 0%nat, 1%nat => 0 | 0%nat, 2%nat => 1
  | 1%nat, 0%nat => -2 | 1%nat, 1%nat => 0 | 1%nat, 2%nat => 2
  | 2%nat, 0%nat => -1 | 2%nat, 1%nat => 0 | 2%nat, 2%nat => 1
  | _, _ => 0
  end%float.

Definition kernel_y (a b : nat) : float :=
  match a, b with
  | 0%nat, 0%nat => 1 | 0%nat, 1%nat => 2 | 0%nat, 2%nat => 1
  | 1%nat, 0%nat => 0 | 1%nat, 1%nat => 0 | 1%nat, 2%nat => 0
  | 2%nat, 0%nat => -1 | 2%nat, 1%nat => -2 | 2%nat, 2%nat => -1
  | _, _ => 0
  end%float.

(** The grayscale value of source cell [(a, b)]. *)
Definition gray_at (img : image) (a b : nat) : float :=
  weighted_brightness (nth b (nth a img []) (0, 0, 0)%Z).

(** Replicate padding by one cell: cell [k] of an axis of extent [n]
    padded on both sides reads source cell [k - 1], held inside
    [0 .. n - 1]. *)
Definition clamp (n k : nat) : nat := Nat.min (k - 1) (n - 1).

Definition padded_at (img : image) (a b : nat) : float :=
  gray_at img (clamp (nrows img) a) (clamp (ncols img) b).

(** The 3x3 kernel [K] applied at cell [(i, j)] of the padded map: the
    sum of the products of the kernel entries with the cells of the 3x3
    window, taken over the window row by row from its top-left cell. *)
Definition conv_at (K : nat -> nat -> float) (img : image) (i j : nat) : float :=
  let t (ab : nat * nat) : float :=
    (K (fst ab) (snd ab) * padded_at img (i + fst ab) (j + snd ab))%float in
  fold_left (fun acc ab => (acc + t ab)%float)
    [(0, 1); (0, 2); (1, 0); (1, 1); (1, 2); (2, 0); (2, 1); (2, 2)]%nat
    (t (0, 0)%nat).

(** [sqrt(gx^2 + gy^2)] at cell [(i, j)]. *)
Definition edge_strength (img : image) (i j : nat) : float :=
  let gx := conv_at kernel_x img i j in
  let gy := conv_at kernel_y img i j in
  PrimFloat.sqrt (gx * gx + gy * gy)%float.

(** A palette value of the documented form: six hexadecimal digits after
    an optional leading [#]. *)
Definition is_hex_digit (c : ascii) : bool :=
  match hex_digit c with
  | Some _ => true
  | None => false
  end.

Definition six_hex_digits (s : string) : bool :=
  (String.length s =? 6)%nat && forallb is_hex_digit (list_ascii_of_string s).

(** A palette value inside the model of strings: ASCII text, or no string
    at all. *)
Definition ascii_value (v : yaml) : bool :=
  match v with
  | YStr s => ascii_text s
  | _ => true
  end.

(** No letter of [s] is an upper-case letter A-Z. *)
Definition no_upper_case (s : string) : bool :=
  forallb (fun c => negb (ascii_in 65 90 c)) (list_ascii_of_string s).

(** The cells of an R x C grid in row-major order. *)
Definition row_major (R C : nat) : list (nat * nat) :=
  flat_map (fun r => map (fun c => (r, c)) (seq 0 C)) (seq 0 R).

(** The real number a finite positive binary64 value [m * 2^e] stands for. *)
Definition F2R (m : positive) (e : Z) : R := (IZR (Zpos m) * powerRZ 2 e)%R.

(** The outcome of rounding to 53 bits: a mantissa [m1] in [2^52, 2^53] at
    exponent [e0], renormalised when the mantissa reached 2^53. *)
Definition round_result (s : bool) (m1 e0 : Z) : spec_float :=
  if (m1 =? 2 ^ 53)%Z then S754_finite s (2 ^ 52)%positive (e0 + 1)
  else S754_finite s (Z.to_pos m1) e0.

(** A positive integer below 2^53 as a binary64 value: its mantissa
    shifted to 53 bits and the exponent that undoes the shift. *)
Definition norm_exp (n : Z) : Z := (Zdigits2 n - 53)%Z.
Definition norm_mant (n : Z) : Z := (n * 2 ^ (53 - Zdigits2 n))%Z.

(* ================================================================== *)
(** * Results, comprehensions and cell access *)
(* ================================================================== *)

Lemma mapM_total {A B : Type} (f : A -> result B) (g : A -> B) (l : list A) :
  (forall x, In x l -> f x = Ok (g x)) -> mapM f l = Ok (map g l).
Proof.
  induction l as [|x t IH]; intros H; simpl; [reflexivity|].
  rewrite (H x (or_introl eq_refl)). simpl.
  rewrite IH by (intros y Hy; apply H; now right). reflexivity.
Qed.

Lemma mapM_raise {A B : Type} (f : A -> result B) (l : list A) (e : exn) :
  mapM f l = Raise e -> exists x, In x l /\ f x = Raise e.
Proof.
  induction l as [|x t IH]; simpl; [discriminate|].
  destruct (f x) as [y|e'] eqn:Hx; simpl.
  - destruct (mapM f t) as [ys|e''] eqn:Ht; simpl; [discriminate|].
    intros [= ->]. destruct (IH eq_refl) as [z [Hz Hfz]].
    exists z. split; [now right | assumption].
  - intros [= ->]. exists x. split; [now left | assumption].
Qed.

Lemma mapM_Ok_map {A B : Type} (f : A -> result B) (l : list A) (ys : list B) :
  mapM f l = Ok ys -> Forall2 (fun x y => f x = Ok y) l ys.
Proof.
  revert ys. induction l as [|x t IH]; simpl; intros ys.
  - intros [= <-]. constructor.
  - destruct (f x) as [y|] eqn:Hx; simpl; [|discriminate].
    destruct (mapM f t) as [yt|] eqn:Ht; simpl; [|discriminate].
    intros [= <-]. constructor; auto.
Qed.

Lemma getitem_Ok {A : Type} (l : list A) (i : nat) (x : A) :
  getitem l i = Ok x <-> nth_error l i = Some x.
Proof.
  unfold getitem. destruct (nth_error l i); split; congruence.
Qed.

Lemma getitem_lt {A : Type} (l : list A) (i : nat) :
  (i < List.length l)%nat -> exists x, getitem l i = Ok x.
Proof.
  intros H. unfold getitem.
  destruct (nth_error l i) eqn:E; [eauto|].
  apply nth_error_None in E. lia.
Qed.

Lemma getitem2_Ok {A : Type} (a : list (list A)) (r c : nat) (x : A) :
  Vectorised.getitem2 a r c = Ok x <->
  exists line, nth_error a r = Some line /\ nth_error line c = Some x.
Proof.
  unfold Vectorised.getitem2, getitem.
  destruct (nth_error a r) as [line|]; simpl.
  - destruct (nth_error line c) eqn:E; split.
    + intros [= ->]. eauto.
    + intros [l' [[= <-] H]]. congruence.
    + discriminate.
    + intros [l' [[= <-] H]]. congruence.
  - split; [discriminate | intros [l' [H _]]; discriminate].
Qed.

Lemma has_shape_row {A : Type} (R C : nat) (a : list (list A)) r line :
  has_shape R C a -> nth_error a r = Some line -> List.length line = C.
Proof.
  intros [_ H] Hr. rewrite Forall_forall in H.
  apply H. eapply nth_error_In; eauto.
Qed.

Lemma has_shape_cell {A : Type} (R C : nat) (a : list (list A)) r c :
  has_shape R C a -> (r < R)%nat -> (c < C)%nat ->
  exists x, Vectorised.getitem2 a r c = Ok x.
Proof.
  intros Hs Hr Hc. pose proof Hs as [Hl _].
  destruct (nth_error a r) as [line|] eqn:E.
  - pose proof (has_shape_row R C a r line Hs E) as Hlen.
    destruct (nth_error line c) as [x|] eqn:E'.
    + exists x. apply getitem2_Ok. eauto.
    + apply nth_error_None in E'. lia.
  - apply nth_error_None in E. lia.
Qed.

Lemma getitem2_bounds {A : Type} (R C : nat) (a : list (list A)) r c x :
  has_shape R C a -> Vectorised.getitem2 a r c = Ok x -> (r < R)%nat /\ (c < C)%nat.
Proof.
  intros Hs H. apply getitem2_Ok in H. destruct H as [line [Hr Hc]].
  pose proof (has_shape_row R C a r line Hs Hr) as Hlen. destruct Hs as [Hl _].
  split.
  - rewrite <- Hl. apply nth_error_Some. congruence.
  - rewrite <- Hlen. apply nth_error_Some. congruence.
Qed.

Lemma has_shape_ncols {A : Type} (R C : nat) (a : list (list A)) :
  has_shape R C a -> (1 <= R)%nat -> ncols a = C.
Proof.
  intros [Hl H] HR. unfold ncols. destruct a as [|x t]; simpl in *; [lia|].
  now inversion H.
Qed.

Lemma has_shape_map {A B : Type} (f : A -> B) (R C : nat) (a : list (list A)) :
  has_shape R C a -> has_shape R C (map (map f) a).
Proof.
  intros [Hl H]. split; [now rewrite length_map|].
  apply Forall_map. eapply Forall_impl; [|exact H].
  intros row Hrow. now rewrite length_map.
Qed.

Lemma getitem2_map {A B : Type} (f : A -> B) (a : list (list A)) r c x :
  Vectorised.getitem2 a r c = Ok x ->
  Vectorised.getitem2 (map (map f) a) r c = Ok (f x).
Proof.
  rewrite !getitem2_Ok. intros [line [Hr Hc]].
  exists (map f line). split.
  - rewrite nth_error_map, Hr. reflexivity.
  - rewrite nth_error_map, Hc. reflexivity.
Qed.

Lemma nth_error_zip_with {A B C : Type} (f : A -> B -> C) l l' i x y :
  nth_error l i = Some x -> nth_error l' i = Some y ->
  nth_error (zip_with f l l') i = Some (f x y).
Proof.
  revert l' i. induction l as [|a t IH]; intros [|b t'] [|i]; simpl;
    try discriminate.
  - intros [= ->] [= ->]. reflexivity.
  - apply IH.
Qed.

Lemma length_zip_with {A B C : Type} (f : A -> B -> C) l l' :
  List.length (zip_with f l l') = Nat.min (List.length l) (List.length l').
Proof.
  revert l'. induction l as [|a t IH]; intros [|b t']; simpl; auto.
Qed.

Lemma getitem2_zip_with {A B C : Type} (f : A -> B -> C) a b r c x y :
  Vectorised.getitem2 a r c = Ok x -> Vectorised.getitem2 b r c = Ok y ->
  Vectorised.getitem2 (zip_with (zip_with f) a b) r c = Ok (f x y).
Proof.
  rewrite !getitem2_Ok. intros [la [Hra Hca]] [lb [Hrb Hcb]].
  exists (zip_with f la lb). split.
  - now apply nth_error_zip_with.
  - now apply nth_error_zip_with.
Qed.

Lemma has_shape_zip_with {A B C : Type} (f : A -> B -> C) (R Cn : nat) a b :
  has_shape R Cn a -> has_shape R Cn b ->
  has_shape R Cn (zip_with (zip_with f) a b).
Proof.
  intros [Hla Ha] [Hlb Hb]. split.
  - rewrite length_zip_with. lia.
  - clear Hla Hlb R. revert b Hb.
    induction a as [|ra ta IH]; intros [|rb tb] Hb; simpl; constructor.
    + inversion Ha; inversion Hb; subst. rewrite length_zip_with. lia.
    + inversion Ha; inversion Hb; subst. now apply IH.
Qed.

Lemma NoDup_map_injective {A B : Type} (f : A -> B) (l : list A) :
  (forall x y, f x = f y -> x = y) -> NoDup l -> NoDup (map f l).
Proof.
  intros Hinj. induction 1 as [|x t Hx _ IH]; simpl; constructor; [|assumption].
  intros Hin. apply in_map_iff in Hin. destruct Hin as [y [Hy Hin]].
  apply Hinj in Hy. now subst.
Qed.

(** The brightness the code computes is the float64 brightness of the
    design, and its distance the squared Euclidean distance. *)
Lemma luma_weighted_brightness (p : pixel) : luma p = weighted_brightness p.
Proof. destruct p as [[r g] b]. reflexivity. Qed.

Lemma sqdist_squared_distance (p q : pixel) : sqdist p q = squared_distance p q.
Proof.
  destruct p as [[r g] b], q as [[yr yg] yb].
  unfold sqdist, squared_distance, channels. simpl. lia.
Qed.


(* ================================================================== *)
(** * Palette Loader *)
(* ================================================================== *)

Lemma yaml_lower_raise (name : yaml) (e : exn) :
  yaml_lower name = Raise e -> e = AttributeError.
Proof.
  destruct name; simpl; congruence.
Qed.

Lemma load_fold (entries : list (string * yaml)) (d : dict yaml) :
  fold_left (fun d nv => dict_set d (fst nv) (snd nv))
    (combine (map (fun nv => lower (fst nv)) entries)
             (map snd (map (fun nv => (YStr (fst nv), snd nv)) entries))) d
  = fold_left (fun d nv => dict_set d (lower (fst nv)) (snd nv)) entries d.
Proof.
  revert d. induction entries as [|[n v] t IH]; intros d; simpl; [reflexivity|].
  apply IH.
Qed.

Lemma dict_set_entry_in {V : Type} (d : dict V) (k k' : string) (v v' : V) :
  In (k', v') (dict_set d k v) -> (k' = k /\ v' = v) \/ In (k', v') d.
Proof.
  induction d as [|[k0 v0] t IH]; simpl.
  - intros [[= <- <-]|[]]. now left.
  - destruct (String.eqb_spec k0 k) as [->|Hne]; simpl.
    + intros [[= <- <-]|H]; [now left | right; now right].
    + intros [H|H]; [right; now left|].
      destruct (IH H) as [H'|H']; [now left | right; now right].
Qed.

(** The keys and the values the comprehension of the loader leaves. *)
Lemma load_fold_keys (entries : list (string * yaml)) (d : dict yaml) (k : string) :
  In k (map fst (fold_left (fun d nv => dict_set d (lower (fst nv)) (snd nv))
                           entries d)) ->
  In k (map fst d) \/ exists nv, In nv entries /\ k = lower (fst nv).
Proof.
  revert d. induction entries as [|[n v] t IH]; intros d; simpl; [now left|].
  intros H. destruct (IH _ H) as [H'|[nv [Hnv ->]]].
  - apply in_map_iff in H'. destruct H' as [[k' v'] [Hk Hin]]. simpl in Hk. subst k'.
    apply dict_set_entry_in in Hin. destruct Hin as [[-> _]|Hin].
    + right. exists (n, v). split; [now left | reflexivity].
    + left. apply in_map_iff. exists (k, v'). auto.
  - right. exists nv. split; [now right | reflexivity].
Qed.

Lemma load_fold_values (entries : list (string * yaml)) (d : dict yaml)
  (k : string) (v : yaml) :
  In (k, v) (fold_left (fun d nv => dict_set d (lower (fst nv)) (snd nv))
                       entries d) ->
  In (k, v) d \/ In v (map snd entries).
Proof.
  revert d. induction entries as [|[n v0] t IH]; intros d; simpl; [now left|].
  intros H. destruct (IH _ H) as [H'|H']; [|right; now right].
  apply dict_set_entry_in in H'. destruct H' as [[_ ->]|H']; [|now left].
  right. now left.
Qed.

(** C6, as stated, fails: a palette resource whose only hex value has five
    digits is loaded without any error, so no ConfigError is raised; the
    resource is returned as it is, with its name in lower case, and the
    classifiers later read the five digits as the channels 0x12, 0x34
    and 0x5. *)
Lemma load_yarn_palette_accepts_five_digits :
  Vectorised.load_yarn_palette
    (Document (YMap [(YStr "colours", YMap [(YStr "Red", YStr "#12345")])]))
  = Ok [("red"%string, YStr "#12345")]
  /\ Vectorised.load_yarn_palette
       (Document (YMap [(YStr "colours", YMap [(YStr "Red", YStr "#12345")])]))
     <> Raise ConfigError
  /\ hex_channels (YStr "#12345") = Ok (18, 52, 5)%Z.
Proof.
  split; [reflexivity|]. split; [discriminate | reflexivity].
Qed.

(** Lowering leaves no upper-case letter. *)
Lemma lower_no_upper_case (s : string) : no_upper_case (lower s) = true.
Proof.
  unfold no_upper_case. induction s as [|c s IH]; simpl; [reflexivity|].
  rewrite IH, Bool.andb_true_r.
  destruct c as [[] [] [] [] [] [] [] []]; reflexivity.
Qed.

(** C6, amended: the Palette Loader never fails with a ConfigError and
    checks no hex value.  A missing resource fails with the error of
    opening it, an unparseable one with the parser's error, and every
    [colours] mapping whose names are strings of ASCII characters is
    loaded whatever its values are: the result holds each name in lower
    case (no letter A-Z is left in a key) with the value found next to
    it. *)
Theorem load_yarn_palette_unvalidated :
  (forall r, Vectorised.load_yarn_palette r <> Raise ConfigError)
  /\ Vectorised.load_yarn_palette Missing = Raise FileNotFoundError
  /\ Vectorised.load_yarn_palette Unparseable = Raise YAMLError
  /\ (forall entries : list (string * yaml),
        Forall (fun nv => ascii_text (fst nv) = true) entries ->
        exists pal,
          Vectorised.load_yarn_palette
            (Document (YMap [(YStr "colours",
                              YMap (map (fun nv => (YStr (fst nv), snd nv)) entries))]))
          = Ok pal /\
          pal = fold_left (fun d nv => dict_set d (lower (fst nv)) (snd nv))
                          entries [] /\
          (forall k, In k (map fst pal) -> no_upper_case k = true) /\
          (forall k v, In (k, v) pal -> In v (map snd entries))).
Proof.
  repeat split.
  - intros r. unfold Vectorised.load_yarn_palette.
    destruct r as [| |d]; simpl; try discriminate.
    destruct (yaml_getitem d "colours") as [colours|e] eqn:Hget; simpl.
    + destruct (yaml_items colours) as [items|e] eqn:Hit; simpl.
      * destruct (mapM (fun kv => yaml_lower (fst kv)) items) as [names|e] eqn:Hn;
          simpl; [discriminate|].
        apply mapM_raise in Hn. destruct Hn as [kv [_ Hkv]].
        apply yaml_lower_raise in Hkv. subst e. discriminate.
      * destruct colours; simpl in Hit; inversion Hit; discriminate.
    + destruct d; simpl in Hget; try (inversion Hget; discriminate).
      destruct (find _ entries); inversion Hget; discriminate.
  - intros entries _. eexists. split; [|split; [reflexivity|split]].
    + unfold Vectorised.load_yarn_palette. simpl.
      rewrite (mapM_total _ (fun kv => match fst kv with
                                         | YStr s => lower s
                                         | _ => EmptyString
                                         end)).
      * simpl. rewrite map_map. simpl. f_equal. apply load_fold.
      * intros kv Hin. apply in_map_iff in Hin.
        destruct Hin as [nv [<- _]]. reflexivity.
    + intros k Hk.
      destruct (load_fold_keys entries [] k Hk) as [[]|[nv [_ ->]]].
      apply lower_no_upper_case.
    + intros k v Hin.
      destruct (load_fold_values entries [] k v Hin) as [[]|H]. exact H.
Qed.

Lemma load_yarn_palette_unvalidated_witness :
  Forall (fun nv => ascii_text (fst nv) = true)
         [("Dark Red"%string, YStr "#8B0000"); ("NAVY"%string, YInt 5)]
  /\ Vectorised.load_yarn_palette
       (Document (YMap [(YStr "colours",
                         YMap [(YStr "Dark Red", YStr "#8B0000");
                               (YStr "NAVY", YInt 5)])]))
     = Ok [("dark red"%string, YStr "#8B0000"); ("navy"%string, YInt 5)].
Proof.
  assert (H : Forall (fun nv => ascii_text (fst nv) = true)
                     [("Dark Red"%string, YStr "#8B0000"); ("NAVY"%string, YInt 5)])
    by (repeat constructor).
  split; [exact H|].
  destruct (proj2 (proj2 (proj2 load_yarn_palette_unvalidated)) _ H)
    as [pal [Hload [Hpal _]]].
  simpl in Hload. rewrite Hload, Hpal. reflexivity.
Defined.

(* ================================================================== *)
(** * Color Classifier *)
(* ================================================================== *)

Lemma argmin_from_first_min (l pre : list Z) (best_i : nat) (best : Z) :
  nth best_i pre 0%Z = best ->
  first_min pre best_i ->
  first_min (pre ++ l) (argmin_from l (List.length pre) best_i best).
Proof.
  revert pre best_i best.
  induction l as [|x t IH]; intros pre best_i best Hb Hfm; simpl.
  - now rewrite app_nil_r.
  - destruct Hfm as [Hlt [Hmin Hfirst]].
    assert (Hsplit : pre ++ x :: t = (pre ++ [x]) ++ t)
      by (now rewrite <- app_assoc).
    assert (Hlen : List.length (pre ++ [x]) = S (List.length pre))
      by (rewrite length_app; simpl; lia).
    destruct (Z.ltb_spec x best) as [Hx|Hx].
    + rewrite Hsplit, <- Hlen. apply IH.
      * rewrite app_nth2, Nat.sub_diag by lia. reflexivity.
      * assert (Hn : nth (List.length pre) (pre ++ [x]) 0%Z = x)
          by (rewrite app_nth2, Nat.sub_diag by lia; reflexivity).
        repeat split.
        -- lia.
        -- intros j Hj. rewrite Hn.
           destruct (Nat.eq_dec j (List.length pre)) as [->|Hne].
           ++ rewrite Hn. lia.
           ++ rewrite app_nth1 by lia.
              specialize (Hmin j ltac:(lia)). lia.
        -- intros j Hj. rewrite Hn, app_nth1 by lia.
           specialize (Hmin j ltac:(lia)). lia.
    + rewrite Hsplit, <- Hlen. apply IH.
      * rewrite app_nth1 by lia. assumption.
      * repeat split.
        -- lia.
        -- intros j Hj. rewrite (app_nth1 pre [x]) by lia.
           destruct (Nat.eq_dec j (List.length pre)) as [->|Hne].
           ++ rewrite app_nth2, Nat.sub_diag by lia. simpl. lia.
           ++ rewrite app_nth1 by lia. apply Hmin. lia.
        -- intros j Hj. rewrite !app_nth1 by lia. now apply Hfirst.
Qed.

Lemma argmin_first_min (l : list Z) : l <> [] -> first_min l (argmin l).
Proof.
  destruct l as [|x t]; [congruence|]; intros _.
  change (x :: t) with ([x] ++ t). unfold argmin.
  change 1%nat with (List.length [x]).
  apply argmin_from_first_min; [reflexivity|].
  repeat split; simpl.
  - lia.
  - intros [|j] Hj; [lia|simpl in Hj; lia].
  - intros j Hj. lia.
Qed.

Lemma first_min_unique (ds : list Z) (k k' : nat) :
  first_min ds k -> first_min ds k' -> k = k'.
Proof.
  intros [Hk [Hmin Hfirst]] [Hk' [Hmin' Hfirst']].
  destruct (Nat.lt_trichotomy k k') as [H|[H|H]]; [|assumption|].
  - specialize (Hfirst' k H). specialize (Hmin k' Hk'). lia.
  - specialize (Hfirst k' H). specialize (Hmin' k Hk). lia.
Qed.

Lemma sqdist_zero (p q : pixel) : sqdist p q = 0%Z <-> p = q.
Proof.
  destruct p as [[r g] b], q as [[yr yg] yb]. unfold sqdist. split.
  - intros H.
    assert (r - yr = 0 /\ g - yg = 0 /\ b - yb = 0)%Z as [H1 [H2 H3]] by nia.
    f_equal; [f_equal|]; lia.
  - intros [= -> -> ->]. rewrite !Z.sub_diag. reflexivity.
Qed.

Lemma sqdist_nonneg (p q : pixel) : (0 <= sqdist p q)%Z.
Proof.
  destruct p as [[r g] b], q as [[yr yg] yb]. unfold sqdist. nia.
Qed.

Lemma mapM_length {A B : Type} (f : A -> result B) (l : list A) (ys : list B) :
  mapM f l = Ok ys -> List.length ys = List.length l.
Proof.
  intros H. apply mapM_Ok_map in H.
  induction H; simpl; congruence.
Qed.

Lemma mapM_map {A B C : Type} (f : B -> result C) (g : A -> B) (l : list A) :
  mapM f (map g l) = mapM (fun x => f (g x)) l.
Proof.
  induction l as [|x t IH]; simpl; [reflexivity|]. now rewrite IH.
Qed.

(** The loop of [Main.nearest_colour] keeps the running first minimum:
    [seen] are the names already visited, [closest] the one at [best_i]. *)
Lemma nearest_colour_loop_argmin (rgb : pixel) (items : palette) :
  forall (rgbs : list pixel) (seen : list string) (best_i : nat) (best : Z)
         (closest : string),
    mapM hex_channels (map snd items) = Ok rgbs ->
    nth_error seen best_i = Some closest ->
    Main.nearest_colour_loop rgb items (Some best) (Some closest)
    = Ok (nth_error (seen ++ map fst items)
            (argmin_from (map (sqdist rgb) rgbs) (List.length seen) best_i best)).
Proof.
  induction items as [|[name hex] rest IH];
    intros rgbs seen best_i best closest Hp Hc.
  - simpl in Hp. injection Hp as <-. simpl.
    rewrite app_nil_r. now rewrite Hc.
  - simpl in Hp.
    destruct (hex_channels hex) as [y|] eqn:Hy; simpl in Hp; [|discriminate].
    destruct (mapM hex_channels (map snd rest)) as [ys|] eqn:Hr; simpl in Hp;
      [|discriminate].
    injection Hp as <-. simpl. rewrite Hy. simpl.
    assert (Hs : seen ++ name :: map fst rest = (seen ++ [name]) ++ map fst rest)
      by (now rewrite <- app_assoc).
    assert (Hl : List.length (seen ++ [name]) = S (List.length seen))
      by (rewrite length_app; simpl; lia).
    rewrite Hs, <- Hl.
    destruct (sqdist rgb y <? best)%Z.
    + apply (IH ys (seen ++ [name]) (List.length seen) (sqdist rgb y) name eq_refl).
      rewrite nth_error_app2, Nat.sub_diag by lia. reflexivity.
    + apply (IH ys (seen ++ [name]) best_i best closest eq_refl).
      rewrite nth_error_app1; [assumption|].
      apply nth_error_Some. congruence.
Qed.

Lemma main_nearest_colour_argmin (rgb : pixel) (pal : palette) (rgbs : list pixel) :
  pal <> [] ->
  mapM hex_channels (map snd pal) = Ok rgbs ->
  Main.nearest_colour rgb pal
  = Ok (nth_error (map fst pal) (argmin (map (sqdist rgb) rgbs))).
Proof.
  destruct pal as [|[name hex] rest]; [congruence|]; intros _ Hp.
  unfold Main.nearest_colour. simpl in *.
  destruct (hex_channels hex) as [y|] eqn:Hy; simpl in Hp; [|discriminate].
  destruct (mapM hex_channels (map snd rest)) as [ys|] eqn:Hr; simpl in Hp;
    [|discriminate].
  injection Hp as <-. simpl.
  apply (nearest_colour_loop_argmin rgb rest ys [name] 0 (sqdist rgb y) name Hr).
  reflexivity.
Qed.

(** The name the classifiers return for a pixel. *)
Lemma chosen_entry (pal : palette) (rgbs : list pixel) (px : pixel) :
  pal <> [] ->
  mapM hex_channels (map snd pal) = Ok rgbs ->
  exists k name,
    first_min (map (sqdist px) rgbs) k /\
    nth_error (map fst pal) k = Some name /\
    argmin (map (sqdist px) rgbs) = k.
Proof.
  intros Hne Hp.
  pose proof (mapM_length _ _ _ Hp) as Hlen. rewrite length_map in Hlen.
  assert (Hds : map (sqdist px) rgbs <> []).
  { destruct rgbs; [|discriminate]. destruct pal; simpl in *; congruence. }
  pose proof (argmin_first_min _ Hds) as Hfm.
  set (k := argmin (map (sqdist px) rgbs)) in *.
  destruct (nth_error (map fst pal) k) as [name|] eqn:E.
  - exists k, name. auto.
  - apply nth_error_None in E. destruct Hfm as [Hk _].
    rewrite !length_map in *. lia.
Qed.

Lemma length_concat_shape {A : Type} (R C : nat) (a : list (list A)) :
  has_shape R C a -> List.length (List.concat a) = (R * C)%nat.
Proof.
  intros [Hl H]. subst R.
  induction H as [|row t Hrow _ IH]; simpl; [reflexivity|].
  rewrite length_app, IH, Hrow. reflexivity.
Qed.

Lemma chunks_concat {A : Type} (C : nat) (a : list (list A)) :
  Forall (fun row => List.length row = C) a ->
  chunks (List.length a) C (List.concat a) = a.
Proof.
  induction 1 as [|row t Hrow _ IH]; simpl; [reflexivity|].
  subst C.
  rewrite firstn_app, skipn_app, firstn_all, skipn_all, Nat.sub_diag.
  simpl. now rewrite app_nil_r, IH.
Qed.

(** Reshaping the flattened image back gives the image, cell by cell. *)
Lemma reshape_map_concat {A B : Type} (f : A -> B) (R C : nat) (a : list (list A)) :
  has_shape R C a ->
  reshape (nrows a) (ncols a) (map f (List.concat a)) = Ok (map (map f) a).
Proof.
  intros Hs. destruct a as [|row t]; [reflexivity|].
  assert (HR : (1 <= R)%nat) by (destruct Hs as [<- _]; simpl; lia).
  rewrite (has_shape_ncols R C _ Hs HR).
  pose proof (has_shape_map f R C _ Hs) as Hs'.
  unfold reshape, nrows.
  rewrite concat_map, (length_concat_shape R C _ Hs').
  destruct Hs as [Hl _]. rewrite Hl, Nat.eqb_refl.
  destruct Hs' as [Hl' H']. rewrite <- Hl'.
  now rewrite chunks_concat.
Qed.

Lemma nearest_colour_vectorised_argmin
  (img : image) (pal : palette) (rgbs : list pixel) (R C : nat) :
  pal <> [] ->
  mapM hex_channels (map snd pal) = Ok rgbs ->
  has_shape R C img ->
  Vectorised.nearest_colour_vectorised img pal
  = Ok (map (map (fun px => nth (argmin (map (sqdist px) rgbs))
                                (map fst pal) EmptyString)) img).
Proof.
  intros Hne Hp Hs. unfold Vectorised.nearest_colour_vectorised.
  rewrite Hp. simpl.
  destruct rgbs as [|y ys] eqn:Ergbs.
  { apply mapM_length in Hp. rewrite length_map in Hp.
    destruct pal; simpl in Hp; [congruence | discriminate]. }
  rewrite <- Ergbs in *. clear Ergbs y ys.
  rewrite !map_map, mapM_map.
  rewrite (mapM_total _ (fun px => nth (argmin (map (sqdist px) rgbs))
                                       (map fst pal) EmptyString)).
  - simpl. now apply (reshape_map_concat _ R C).
  - intros px _.
    destruct (chosen_entry pal rgbs px Hne Hp) as [k [name [_ [Hn Hk]]]].
    rewrite Hk. unfold getitem. rewrite Hn.
    now rewrite (nth_error_nth _ _ _ Hn).
Qed.

(** Both classifiers return the entry at the first minimum. *)
Lemma classifiers_choose_first_min
  (pal : palette) (rgbs : list pixel) (img : image) (R C : nat) :
  pal <> [] ->
  mapM hex_channels (map snd pal) = Ok rgbs ->
  has_shape R C img ->
  (exists names,
      Vectorised.nearest_colour_vectorised img pal = Ok names /\
      has_shape R C names /\
      forall r c px,
        Vectorised.getitem2 img r c = Ok px ->
        exists k name,
          first_min (map (sqdist px) rgbs) k /\
          nth_error (map fst pal) k = Some name /\
          Vectorised.getitem2 names r c = Ok name)
  /\ (forall px,
        exists k name,
          first_min (map (sqdist px) rgbs) k /\
          nth_error (map fst pal) k = Some name /\
          Main.nearest_colour px pal = Ok (Some name)).
Proof.
  intros Hne Hp Hs. split.
  - exists (map (map (fun px => nth (argmin (map (sqdist px) rgbs))
                                    (map fst pal) EmptyString)) img).
    split; [now apply (nearest_colour_vectorised_argmin img pal rgbs R C)|].
    split; [now apply has_shape_map|].
    intros r c px Hpx.
    destruct (chosen_entry pal rgbs px Hne Hp) as [k [name [Hfm [Hn Hk]]]].
    exists k, name. split; [assumption|]. split; [assumption|].
    erewrite getitem2_map by eassumption.
    cbv beta. rewrite Hk. f_equal. now apply nth_error_nth.
  - intros px.
    destruct (chosen_entry pal rgbs px Hne Hp) as [k [name [Hfm [Hn Hk]]]].
    exists k, name. split; [assumption|]. split; [assumption|].
    rewrite (main_nearest_colour_argmin px pal rgbs Hne Hp), Hk, Hn. reflexivity.
Qed.

(** C2: for a non-empty palette whose hex values read as RGB triples
    [rgbs], both classifiers (the array one on every cell of an R x C
    image, the per-pixel one on every pixel) return the name of the
    palette entry at the first position, in the palette's order, of the
    minimum squared Euclidean distance to the pixel: the sum over the
    three channels of the squared differences ([squared_distance], stated
    apart from the code).  Hence a pixel equal to the RGB triple of some
    entry gets an entry with exactly that triple, and a palette of one
    entry gives that entry's name for every pixel. *)
Theorem nearest_colour_first_minimum
  (pal : palette) (rgbs : list pixel) (img : image) (R C : nat) :
  pal <> [] ->
  mapM hex_channels (map snd pal) = Ok rgbs ->
  has_shape R C img ->
  (exists names,
      Vectorised.nearest_colour_vectorised img pal = Ok names /\
      has_shape R C names /\
      forall r c px,
        Vectorised.getitem2 img r c = Ok px ->
        exists k name,
          first_min (map (squared_distance px) rgbs) k /\
          nth_error (map fst pal) k = Some name /\
          Vectorised.getitem2 names r c = Ok name)
  /\ (forall px,
        exists k name,
          first_min (map (squared_distance px) rgbs) k /\
          nth_error (map fst pal) k = Some name /\
          Main.nearest_colour px pal = Ok (Some name))
  /\ (forall px k,
        first_min (map (squared_distance px) rgbs) k ->
        In px rgbs -> nth_error rgbs k = Some px)
  /\ (forall px k name hex,
        first_min (map (squared_distance px) rgbs) k ->
        pal = [(name, hex)] -> nth_error (map fst pal) k = Some name).
Proof.
  intros Hne Hp Hs.
  assert (Hd : forall px, map (squared_distance px) rgbs = map (sqdist px) rgbs).
  { intros px. apply map_ext. intros q. symmetry. apply sqdist_squared_distance. }
  destruct (classifiers_choose_first_min pal rgbs img R C Hne Hp Hs) as [Hv Hm].
  split; [|split; [|split]].
  - destruct Hv as [names [Hn [Hsh Hcell]]].
    exists names. split; [exact Hn|]. split; [exact Hsh|].
    intros r c px Hpx. rewrite Hd. now apply Hcell.
  - intros px. rewrite Hd. apply Hm.
  - intros px k Hfm Hin. rewrite Hd in Hfm. destruct Hfm as [Hk [Hmin _]].
    apply In_nth_error in Hin. destruct Hin as [j Hj].
    assert (Hjl : (j < List.length rgbs)%nat)
      by (apply nth_error_Some; congruence).
    rewrite length_map in Hk, Hmin.
    specialize (Hmin j Hjl).
    rewrite !(nth_indep _ 0%Z (sqdist px px)) in Hmin
      by (rewrite length_map; assumption).
    rewrite !map_nth in Hmin.
    rewrite (nth_error_nth _ _ px Hj) in Hmin.
    assert (H0 : sqdist px px = 0%Z) by (now apply sqdist_zero).
    pose proof (sqdist_nonneg px (nth k rgbs px)) as Hnn.
    assert (Hz : sqdist px (nth k rgbs px) = 0%Z) by lia.
    apply sqdist_zero in Hz.
    rewrite (nth_error_nth' rgbs px Hk). now rewrite <- Hz.
  - intros px k name hex Hfm ->. rewrite Hd in Hfm. destruct Hfm as [Hk _].
    apply mapM_length in Hp. rewrite length_map in Hk, Hp. simpl in Hp.
    rewrite Hp in Hk. replace k with 0%nat by lia. reflexivity.
Qed.

Lemma nearest_colour_first_minimum_witness :
  ([("black"%string, YStr "#000000"); ("white"%string, YStr "#FFFFFF")] <> []
   /\ mapM hex_channels
        (map snd [("black"%string, YStr "#000000"); ("white"%string, YStr "#FFFFFF")])
      = Ok [(0, 0, 0)%Z; (255, 255, 255)%Z]
   /\ has_shape 1 2 [[(10, 20, 30)%Z; (200, 210, 220)%Z]])
  /\ map (squared_distance (200, 210, 220)%Z) [(0, 0, 0)%Z; (255, 255, 255)%Z]
     = [132500; 6275]%Z
  /\ exists names,
       Vectorised.nearest_colour_vectorised
         [[(10, 20, 30)%Z; (200, 210, 220)%Z]]
         [("black"%string, YStr "#000000"); ("white"%string, YStr "#FFFFFF")]
       = Ok names
       /\ Vectorised.getitem2 names 0 0 = Ok "black"%string
       /\ Vectorised.getitem2 names 0 1 = Ok "white"%string
       /\ Main.nearest_colour (200, 210, 220)%Z
            [("black"%string, YStr "#000000"); ("white"%string, YStr "#FFFFFF")]
          = Ok (Some "white"%string).
Proof.
  assert (H1 : [("black"%string, YStr "#000000"); ("white"%string, YStr "#FFFFFF")]
               <> []) by discriminate.
  assert (H2 : mapM hex_channels
                 (map snd [("black"%string, YStr "#000000");
                           ("white"%string, YStr "#FFFFFF")])
               = Ok [(0, 0, 0)%Z; (255, 255, 255)%Z]) by reflexivity.
  assert (H3 : has_shape 1 2 [[(10, 20, 30)%Z; (200, 210, 220)%Z]])
    by (split; [reflexivity | repeat constructor]).
  split; [auto|]. split; [reflexivity|].
  destruct (nearest_colour_first_minimum _ _ _ 1 2 H1 H2 H3)
    as [[names [Hn [Hsh Hcell]]] [Hm _]].
  exists names. split; [exact Hn|].
  assert (Hpick : forall (px : pixel) k name want,
             first_min (map (squared_distance px)
                            [(0, 0, 0)%Z; (255, 255, 255)%Z]) k ->
             nth_error ["black"%string; "white"%string] k = Some name ->
             nth_error ["black"%string; "white"%string]
               (argmin (map (squared_distance px)
                            [(0, 0, 0)%Z; (255, 255, 255)%Z])) = Some want ->
             name = want).
  { intros px k name want Hk Hname Hwant.
    assert (Hk' : first_min (map (squared_distance px)
                               [(0, 0, 0)%Z; (255, 255, 255)%Z])
                            (argmin (map (squared_distance px)
                                       [(0, 0, 0)%Z; (255, 255, 255)%Z])))
      by (apply argmin_first_min; discriminate).
    rewrite (first_min_unique _ _ _ Hk Hk') in Hname. congruence. }
  split; [|split].
  - destruct (Hcell 0 0 _ eq_refl)%nat as [k [name [Hk [Hname Hget]]]].
    rewrite Hget. f_equal. exact (Hpick _ k name _ Hk Hname eq_refl).
  - destruct (Hcell 0 1 _ eq_refl)%nat as [k [name [Hk [Hname Hget]]]].
    rewrite Hget. f_equal. exact (Hpick _ k name _ Hk Hname eq_refl).
  - destruct (Hm (200, 210, 220)%Z) as [k [name [Hk [Hname Hget]]]].
    rewrite Hget. do 2 f_equal. exact (Hpick _ k name _ Hk Hname eq_refl).
Defined.

(** C8, as stated, fails: with an empty palette the per-pixel classifier
    returns [None] without raising anything, and the array classifier
    fails with an IndexError; neither raises a LookupMiss. *)
Lemma empty_palette_no_lookup_miss :
  Main.nearest_colour (0, 0, 0)%Z [] = Ok None
  /\ Vectorised.nearest_colour_vectorised [[(0, 0, 0)%Z]] [] = Raise IndexError
  /\ Main.nearest_colour (0, 0, 0)%Z [] <> Raise LookupMiss
  /\ Vectorised.nearest_colour_vectorised [[(0, 0, 0)%Z]] [] <> Raise LookupMiss.
Proof.
  repeat split; discriminate.
Qed.

(** C8, amended: no LookupMiss exists.  With an empty palette the
    per-pixel classifier returns [None] and the array classifier fails
    with an IndexError.  With a non-empty palette whose hex values read as
    RGB triples every pixel gets the name of some palette entry, from
    either classifier. *)
Theorem palette_lookup_behaviour
  (pal : palette) (rgbs : list pixel) (img : image) (R C : nat) (px : pixel) :
  mapM hex_channels (map snd pal) = Ok rgbs ->
  has_shape R C img ->
  (pal = [] ->
     Main.nearest_colour px pal = Ok None /\
     Vectorised.nearest_colour_vectorised img pal = Raise IndexError)
  /\ (pal <> [] ->
        (exists name,
            In name (map fst pal) /\
            Main.nearest_colour px pal = Ok (Some name))
        /\ exists names,
             Vectorised.nearest_colour_vectorised img pal = Ok names /\
             has_shape R C names /\
             forall r c, (r < R)%nat -> (c < C)%nat ->
               exists name,
                 In name (map fst pal) /\
                 Vectorised.getitem2 names r c = Ok name)
  /\ Main.nearest_colour px pal <> Raise LookupMiss
  /\ Vectorised.nearest_colour_vectorised img pal <> Raise LookupMiss.
Proof.
  intros Hp Hs.
  assert (Hnonempty : pal <> [] ->
     (exists name, In name (map fst pal) /\
                   Main.nearest_colour px pal = Ok (Some name))
     /\ exists names,
          Vectorised.nearest_colour_vectorised img pal = Ok names /\
          has_shape R C names /\
          forall r c, (r < R)%nat -> (c < C)%nat ->
            exists name, In name (map fst pal) /\
                         Vectorised.getitem2 names r c = Ok name).
  { intros Hne.
    destruct (classifiers_choose_first_min pal rgbs img R C Hne Hp Hs)
      as [[names [Hv [Hsh Hcell]]] Hmain].
    split.
    - destruct (Hmain px) as [k [name [_ [Hn Hm]]]].
      exists name. split; [eapply nth_error_In; eauto | assumption].
    - exists names. split; [assumption|]. split; [assumption|].
      intros r c Hr Hc.
      destruct (has_shape_cell R C img r c Hs Hr Hc) as [q Hq].
      destruct (Hcell r c q Hq) as [k [name [_ [Hn Hg]]]].
      exists name. split; [eapply nth_error_In; eauto | assumption]. }
  split; [|split; [exact Hnonempty|]].
  - intros ->. split; reflexivity.
  - destruct pal as [|e t] eqn:E.
    + split; discriminate.
    + rewrite <- E in *.
      assert (Hne : pal <> []) by (rewrite E; discriminate).
      destruct (Hnonempty Hne) as [[name [_ Hm]] [names [Hv _]]].
      rewrite Hm, Hv. split; discriminate.
Qed.

Lemma palette_lookup_behaviour_witness :
  (mapM hex_channels (map snd [("red"%string, YStr "#ff0000")])
   = Ok [(255, 0, 0)%Z]
   /\ has_shape 1 1 [[(1, 2, 3)%Z]])
  /\ Main.nearest_colour (1, 2, 3)%Z [("red"%string, YStr "#ff0000")]
     <> Raise LookupMiss.
Proof.
  assert (H1 : mapM hex_channels (map snd [("red"%string, YStr "#ff0000")])
               = Ok [(255, 0, 0)%Z]) by reflexivity.
  assert (H2 : has_shape 1 1 [[(1, 2, 3)%Z]])
    by (split; [reflexivity | repeat constructor]).
  split; [auto|].
  exact (proj1 (proj2 (proj2
    (palette_lookup_behaviour _ _ _ 1 1 (1, 2, 3)%Z H1 H2)))).
Defined.

(* ================================================================== *)
(** * Stitch Classifier *)
(* ================================================================== *)

Lemma mask_assign1_zip {A : Type} (v : A) (row : list A) (mask : list bool) :
  List.length row = List.length mask ->
  mask_assign1 v row mask
  = Ok (zip_with (fun x (m : bool) => if m then v else x) row mask).
Proof.
  revert mask. induction row as [|x t IH]; intros [|m mt] Hl; simpl in *;
    try discriminate; [reflexivity|].
  rewrite IH by lia. reflexivity.
Qed.

Lemma mask_assign_zip {A : Type} (v : A) (R C : nat)
  (a : list (list A)) (mask : list (list bool)) :
  has_shape R C a -> has_shape R C mask ->
  mask_assign v a mask
  = Ok (zip_with (zip_with (fun x (m : bool) => if m then v else x)) a mask).
Proof.
  intros [Hla Ha] [Hlm Hm]. subst R. revert mask Hlm Hm.
  induction Ha as [|row t Hrow _ IH]; intros [|m mt] Hlm Hm; simpl in *;
    try discriminate; [reflexivity|].
  inversion Hm as [|? ? Hmrow Hmt]; subst.
  rewrite mask_assign1_zip by congruence. simpl.
  rewrite IH by (auto; lia). reflexivity.
Qed.

(** Comparisons of binary64 values: [x <= y] excludes [y < x]. *)
Lemma SFcompare_antisym (x y : spec_float) (c : comparison) :
  SFcompare x y = Some c -> SFcompare y x = Some (CompOpp c).
Proof.
  destruct x as [sx|sx| |sx mx ex], y as [sy|sy| |sy my ey]; simpl;
    try discriminate;
    try (destruct sx; intros [= <-]; reflexivity);
    try (destruct sy; intros [= <-]; reflexivity);
    try (destruct sx, sy; intros [= <-]; reflexivity);
    try (intros [= <-]; reflexivity).
  rewrite (Z.compare_antisym ex ey).
  destruct sx, sy; intros [= <-]; try reflexivity;
    destruct (ex ?= ey)%Z; simpl; try reflexivity;
    change Eq with (CompOpp Eq) at 1;
    rewrite <- (Pos.compare_cont_antisym mx my Eq);
    now rewrite ?CompOpp_involutive.
Qed.

Lemma float_leb_not_ltb (x y : float) :
  (x <=? y)%float = true -> (y <? x)%float = false.
Proof.
  rewrite leb_spec, ltb_spec. unfold SFleb, SFltb.
  destruct (SFcompare (Prim2SF x) (Prim2SF y)) as [c|] eqn:E; [|discriminate].
  rewrite (SFcompare_antisym _ _ _ E).
  destruct c; simpl; congruence.
Qed.

(** C3, as stated, fails: the pixel (10, 154, 58) has the brightness
    0.299 * 10 + 0.587 * 154 + 0.114 * 58 = 100 exactly, so with an edge
    strength of 0 the claim gives it 'o'; the code computes the brightness
    in float64, where the sum is 99.99999999999999, and answers '+' (in
    both pipelines). *)
Lemma stitch_of_exact_brightness_100 :
  brightness_thousandths (10, 154, 58)%Z = (100 * 1000)%Z
  /\ stitch_rule_exact (10, 154, 58)%Z 0%float = "o"%char
  /\ (weighted_brightness (10, 154, 58)%Z <? 100)%float = true
  /\ Vectorised.edge_brightness_to_stitch_vectorised
       [[(10, 154, 58)%Z]] [[0%float]] = Ok [["+"%char]]
  /\ Main.edge_brightness_to_stitch (10, 154, 58)%Z 0 = "+"%char.
Proof.
  repeat split; vm_compute; reflexivity.
Qed.

(** C3, amended: on an R x C image with an R x C edge map the Stitch
    Classifier returns an R x C array whose every cell is the symbol of
    the precedence rule taken in float64: 'x' when the edge strength
    exceeds 150, whatever the brightness; otherwise '+' when the
    brightness 0.299 R + 0.587 G + 0.114 B, computed in float64 from left
    to right, is strictly below 100; otherwise 'o'.  It is always one of
    the three symbols; a float64 brightness of exactly 100 with an edge
    strength of at most 150 gives 'o', and an edge strength of exactly
    150 never gives 'x'.  The weights and thresholds are those of the
    design ([weighted_brightness], [stitch_rule]), stated apart from the
    code. *)
Theorem stitch_precedence
  (img : image) (edge_array : list (list float)) (R C : nat) :
  has_shape R C img ->
  has_shape R C edge_array ->
  exists stitches,
    Vectorised.edge_brightness_to_stitch_vectorised img edge_array = Ok stitches /\
    has_shape R C stitches /\
    forall r c px e,
      Vectorised.getitem2 img r c = Ok px ->
      Vectorised.getitem2 edge_array r c = Ok e ->
      Vectorised.getitem2 stitches r c = Ok (stitch_rule px e) /\
      (stitch_rule px e = "x"%char \/ stitch_rule px e = "+"%char \/
       stitch_rule px e = "o"%char) /\
      ((150 <? e)%float = true -> stitch_rule px e = "x"%char) /\
      ((150 <? e)%float = false -> (weighted_brightness px <? 100)%float = true ->
       stitch_rule px e = "+"%char) /\
      ((150 <? e)%float = false -> (weighted_brightness px <? 100)%float = false ->
       stitch_rule px e = "o"%char) /\
      (weighted_brightness px = 100%float -> (e <=? 150)%float = true ->
       stitch_rule px e = "o"%char) /\
      (e = 150%float -> stitch_rule px e <> "x"%char).
Proof.
  intros Hi He.
  set (brightness := map (map luma) img).
  set (blank := map (map (fun _ : float => "o"%char)) brightness).
  set (dark := map (map (fun b => (b <? 100)%float)) brightness).
  set (sharp := map (map (fun e => (150 <? e)%float)) edge_array).
  set (paint := fun v : ascii => fun x (m : bool) => if m then v else x).
  assert (Hb : has_shape R C brightness) by now apply has_shape_map.
  assert (Hblank : has_shape R C blank) by now apply has_shape_map.
  assert (Hdark : has_shape R C dark) by now apply has_shape_map.
  assert (Hsharp : has_shape R C sharp) by now apply has_shape_map.
  set (first := zip_with (zip_with (paint "+"%char)) blank dark).
  assert (Hfirst : has_shape R C first) by now apply has_shape_zip_with.
  exists (zip_with (zip_with (paint "x"%char)) first sharp).
  split.
  { unfold Vectorised.edge_brightness_to_stitch_vectorised.
    fold brightness. fold blank. fold dark.
    rewrite (mask_assign_zip "+"%char R C blank dark Hblank Hdark). simpl.
    fold sharp. apply (mask_assign_zip "x"%char R C); assumption. }
  split; [now apply has_shape_zip_with|].
  intros r c px e Hpx Hedge.
  assert (Hcell : Vectorised.getitem2
                    (zip_with (zip_with (paint "x"%char)) first sharp) r c
                  = Ok (stitch_rule px e)).
  { pose proof (getitem2_map luma _ _ _ _ Hpx) as Hlum.
    fold brightness in Hlum.
    pose proof (getitem2_map (fun _ : float => "o"%char) _ _ _ _ Hlum) as Ho.
    pose proof (getitem2_map (fun b => (b <? 100)%float) _ _ _ _ Hlum) as Hd.
    pose proof (getitem2_map (fun e => (150 <? e)%float) _ _ _ _ Hedge) as Hs.
    pose proof (getitem2_zip_with (paint "+"%char) _ _ _ _ _ _ Ho Hd) as H1.
    pose proof (getitem2_zip_with (paint "x"%char) _ _ _ _ _ _ H1 Hs) as H2.
    rewrite luma_weighted_brightness in H2.
    exact H2. }
  split; [exact Hcell|].
  unfold stitch_rule.
  split; [destruct (150 <? e)%float, (weighted_brightness px <? 100)%float; auto|].
  split; [intros ->; reflexivity|].
  split; [intros -> ->; reflexivity|].
  split; [intros -> ->; reflexivity|].
  split.
  - intros Hl Hle. rewrite (float_leb_not_ltb _ _ Hle), Hl. reflexivity.
  - intros ->.
    assert (H150 : (150 <? 150)%float = false) by reflexivity.
    rewrite H150. destruct (weighted_brightness px <? 100)%float; discriminate.
Qed.

Lemma stitch_precedence_witness :
  (has_shape 1 4 [[(100, 100, 100)%Z; (0, 0, 0)%Z; (10, 154, 58)%Z; (99, 99, 99)%Z]]
   /\ has_shape 1 4 [[150%float; 151%float; 0%float; 150%float]])
  /\ exists stitches,
       Vectorised.edge_brightness_to_stitch_vectorised
         [[(100, 100, 100)%Z; (0, 0, 0)%Z; (10, 154, 58)%Z; (99, 99, 99)%Z]]
         [[150%float; 151%float; 0%float; 150%float]]
       = Ok stitches
       /\ Vectorised.getitem2 stitches 0 0 = Ok "o"%char
       /\ Vectorised.getitem2 stitches 0 1 = Ok "x"%char
       /\ Vectorised.getitem2 stitches 0 2 = Ok "+"%char
       /\ Vectorised.getitem2 stitches 0 3 = Ok "+"%char.
Proof.
  assert (H1 : has_shape 1 4 [[(100, 100, 100)%Z; (0, 0, 0)%Z;
                               (10, 154, 58)%Z; (99, 99, 99)%Z]])
    by (split; [reflexivity | repeat constructor]).
  assert (H2 : has_shape 1 4 [[150%float; 151%float; 0%float; 150%float]])
    by (split; [reflexivity | repeat constructor]).
  split; [auto|].
  destruct (stitch_precedence _ _ 1 4 H1 H2) as [stitches [Hs [_ Hcell]]].
  exists stitches. split; [exact Hs|].
  split; [|split; [|split]].
  - exact (proj1 (Hcell 0 0 _ _ eq_refl eq_refl))%nat.
  - exact (proj1 (Hcell 0 1 _ _ eq_refl eq_refl))%nat.
  - exact (proj1 (Hcell 0 2 _ _ eq_refl eq_refl))%nat.
  - exact (proj1 (Hcell 0 3 _ _ eq_refl eq_refl))%nat.
Defined.

(* ================================================================== *)
(** * Grid Assembler *)
(* ================================================================== *)

Lemma in_row_major (R C r c : nat) :
  In (r, c) (row_major R C) <-> (r < R)%nat /\ (c < C)%nat.
Proof.
  unfold row_major. rewrite in_flat_map. split.
  - intros [x [Hx Hin]]. apply in_map_iff in Hin.
    destruct Hin as [y [[= <- <-] Hy]].
    apply in_seq in Hx. apply in_seq in Hy. lia.
  - intros [Hr Hc]. exists r. split; [apply in_seq; lia|].
    apply in_map_iff. exists c. split; [reflexivity | apply in_seq; lia].
Qed.

Lemma row_major_from (C s n : nat) :
  List.length (flat_map (fun r => map (fun c => (r, c)) (seq 0 C)) (seq s n))
  = (n * C)%nat
  /\ NoDup (flat_map (fun r => map (fun c => (r, c)) (seq 0 C)) (seq s n))
  /\ forall r c, (s <= r < s + n)%nat -> (c < C)%nat ->
       nth_error (flat_map (fun r => map (fun c => (r, c)) (seq 0 C)) (seq s n))
                 ((r - s) * C + c) = Some (r, c).
Proof.
  revert s. induction n as [|n IH]; intros s; simpl.
  - split; [reflexivity|]. split; [constructor|]. intros r c Hr. lia.
  - destruct (IH (S s)) as [Hlen [Hnd Hnth]].
    assert (Hl : List.length (map (fun c => (s, c)) (seq 0 C)) = C)
      by (now rewrite length_map, length_seq).
    split; [rewrite length_app, Hlen, Hl; reflexivity|]. split.
    + apply NoDup_app.
      * apply NoDup_map_injective; [|apply seq_NoDup].
        intros x y [= ->]. reflexivity.
      * exact Hnd.
      * intros [r c] H1 H2. apply in_map_iff in H1.
        destruct H1 as [y [[= <- <-] _]].
        apply in_flat_map in H2. destruct H2 as [x [Hx Hin]].
        apply in_map_iff in Hin. destruct Hin as [z [[= <- <-] _]].
        apply in_seq in Hx. lia.
    + intros r c Hr Hc. destruct (Nat.eq_dec r s) as [->|Hne].
      * rewrite Nat.sub_diag. simpl.
        rewrite nth_error_app1 by lia.
        rewrite nth_error_map, nth_error_seq.
        destruct (Nat.ltb_spec c C); [reflexivity | lia].
      * replace (r - s)%nat with (S (r - S s)) by lia.
        replace (S (r - S s) * C + c)%nat with (C + ((r - S s) * C + c))%nat
          by (simpl; lia).
        rewrite nth_error_app2 by (rewrite Hl; apply Nat.le_add_r).
        rewrite Hl, <- (Hnth r c) by lia. f_equal.
        rewrite Nat.add_comm. apply Nat.add_sub.
Qed.

Lemma getitem2_nth {A : Type} (R C : nat) (a : list (list A)) (r c : nat) (d : A) :
  has_shape R C a -> (r < R)%nat -> (c < C)%nat ->
  Vectorised.getitem2 a r c = Ok (nth c (nth r a []) d).
Proof.
  intros Hs Hr Hc.
  destruct (has_shape_cell R C a r c Hs Hr Hc) as [x Hx].
  rewrite Hx. apply getitem2_Ok in Hx. destruct Hx as [line [Hl Hx]].
  rewrite (nth_error_nth _ _ [] Hl). now rewrite (nth_error_nth _ _ d Hx).
Qed.

(** The frame [image_to_stitch_grid] builds: one row per cell, in the
    order of the comprehension. *)
Lemma image_to_stitch_grid_cells
  (img : image) (edge_array : list (list float)) (pal : palette)
  (rgbs : list pixel) (R C : nat) :
  has_shape R C img ->
  has_shape R C edge_array ->
  pal <> [] ->
  mapM hex_channels (map snd pal) = Ok rgbs ->
  exists (stitch_array : list (list ascii)) (colour_array : list (list string)),
    Vectorised.edge_brightness_to_stitch_vectorised img edge_array = Ok stitch_array /\
    Vectorised.nearest_colour_vectorised img pal = Ok colour_array /\
    Vectorised.image_to_stitch_grid img edge_array pal
    = Ok (map (fun rc => Vectorised.mk_cell (fst rc) (snd rc)
                           (nth (snd rc) (nth (fst rc) stitch_array []) "o"%char)
                           (nth (snd rc) (nth (fst rc) colour_array []) EmptyString))
              (row_major R C)).
Proof.
  intros Hi He Hne Hp.
  destruct (classifiers_choose_first_min pal rgbs img R C Hne Hp Hi)
    as [[colour_array [Hcol [Hcs _]]] _].
  set (brightness := map (map luma) img).
  assert (Hst : exists stitch_array,
             Vectorised.edge_brightness_to_stitch_vectorised img edge_array
             = Ok stitch_array /\ has_shape R C stitch_array).
  { unfold Vectorised.edge_brightness_to_stitch_vectorised. fold brightness.
    assert (Hb : has_shape R C brightness) by now apply has_shape_map.
    rewrite (mask_assign_zip "+"%char R C)
      by (apply has_shape_map; assumption).
    simpl. eexists. split.
    - apply (mask_assign_zip "x"%char R C).
      + apply has_shape_zip_with; apply has_shape_map; assumption.
      + apply has_shape_map; assumption.
    - apply has_shape_zip_with; [apply has_shape_zip_with|];
        apply has_shape_map; assumption. }
  destruct Hst as [stitch_array [Hst Hss]].
  exists stitch_array, colour_array.
  split; [assumption|]. split; [assumption|].
  unfold Vectorised.image_to_stitch_grid. rewrite Hcol, Hst. simpl.
  assert (Hrm : flat_map (fun r => map (fun c => (r, c)) (seq 0 (ncols img)))
                         (seq 0 (nrows img)) = row_major R C).
  { destruct Hi as [Hl Hrows]. unfold nrows. rewrite Hl.
    destruct R as [|R']; [reflexivity|].
    rewrite (has_shape_ncols (S R') C img (conj Hl Hrows)) by lia.
    reflexivity. }
  rewrite Hrm. apply mapM_total.
  intros [r c] Hin. apply in_row_major in Hin. destruct Hin as [Hr Hc]. simpl.
  rewrite (getitem2_nth R C stitch_array r c "o"%char Hss Hr Hc). simpl.
  rewrite (getitem2_nth R C colour_array r c EmptyString Hcs Hr Hc). reflexivity.
Qed.

(** C9: for an R x C image, an R x C edge map and a usable palette
    (non-empty, hex values that read as RGB triples) the Grid Assembler
    returns a grid of exactly R * C cells whose (row, col) pairs are, in
    order, the pairs of [0,R) x [0,C) in row-major order: each pair occurs
    once, every pair of the range occurs, and cell (r, c) stands at
    position r * C + c. *)
Theorem stitch_grid_row_major
  (img : image) (edge_array : list (list float)) (pal : palette)
  (rgbs : list pixel) (R C : nat) :
  has_shape R C img ->
  has_shape R C edge_array ->
  pal <> [] ->
  mapM hex_channels (map snd pal) = Ok rgbs ->
  exists df,
    Vectorised.image_to_stitch_grid img edge_array pal = Ok df /\
    List.length df = (R * C)%nat /\
    map (fun x => (Vectorised.row x, Vectorised.col x)) df = row_major R C /\
    NoDup (map (fun x => (Vectorised.row x, Vectorised.col x)) df) /\
    (forall r c, (r < R)%nat -> (c < C)%nat ->
       In (r, c) (map (fun x => (Vectorised.row x, Vectorised.col x)) df)) /\
    (forall x, In x df -> (Vectorised.row x < R)%nat /\ (Vectorised.col x < C)%nat) /\
    (forall r c, (r < R)%nat -> (c < C)%nat ->
       exists x, nth_error df (r * C + c) = Some x /\
                 Vectorised.row x = r /\ Vectorised.col x = c).
Proof.
  intros Hi He Hne Hp.
  destruct (image_to_stitch_grid_cells img edge_array pal rgbs R C Hi He Hne Hp)
    as [st [co [_ [_ Hdf]]]].
  destruct (row_major_from C 0 R) as [Hlen [Hnd Hnth]].
  fold (row_major R C) in Hlen, Hnd, Hnth.
  eexists. split; [exact Hdf|].
  set (g := fun rc : nat * nat => _).
  assert (Hrc : map (fun x => (Vectorised.row x, Vectorised.col x))
                    (map g (row_major R C)) = row_major R C).
  { rewrite map_map. rewrite <- (map_id (row_major R C)) at 2.
    apply map_ext. intros [r c]. reflexivity. }
  split; [now rewrite length_map|].
  split; [exact Hrc|].
  split; [rewrite Hrc; exact Hnd|].
  split; [intros r c Hr Hc; rewrite Hrc; now apply in_row_major|].
  split.
  - intros x Hx. apply in_map_iff in Hx. destruct Hx as [[r c] [<- Hin]].
    simpl. now apply in_row_major.
  - intros r c Hr Hc. exists (g (r, c)).
    split; [|split; reflexivity].
    rewrite nth_error_map.
    specialize (Hnth r c ltac:(lia) Hc). rewrite Nat.sub_0_r in Hnth.
    now rewrite Hnth.
Qed.

Lemma stitch_grid_row_major_witness :
  (has_shape 1 2 [[(0, 0, 0)%Z; (250, 250, 250)%Z]]
   /\ has_shape 1 2 [[0%float; 200%float]]
   /\ [("black"%string, YStr "#000000"); ("white"%string, YStr "#FFFFFF")] <> []
   /\ mapM hex_channels
        (map snd [("black"%string, YStr "#000000"); ("white"%string, YStr "#FFFFFF")])
      = Ok [(0, 0, 0)%Z; (255, 255, 255)%Z])
  /\ exists df,
       Vectorised.image_to_stitch_grid
         [[(0, 0, 0)%Z; (250, 250, 250)%Z]] [[0%float; 200%float]]
         [("black"%string, YStr "#000000"); ("white"%string, YStr "#FFFFFF")]
       = Ok df /\ List.length df = 2%nat.
Proof.
  assert (H1 : has_shape 1 2 [[(0, 0, 0)%Z; (250, 250, 250)%Z]])
    by (split; [reflexivity | repeat constructor]).
  assert (H2 : has_shape 1 2 [[0%float; 200%float]])
    by (split; [reflexivity | repeat constructor]).
  assert (H3 : [("black"%string, YStr "#000000"); ("white"%string, YStr "#FFFFFF")]
               <> []) by discriminate.
  assert (H4 : mapM hex_channels
                 (map snd [("black"%string, YStr "#000000");
                           ("white"%string, YStr "#FFFFFF")])
               = Ok [(0, 0, 0)%Z; (255, 255, 255)%Z]) by reflexivity.
  split; [auto|].
  destruct (stitch_grid_row_major _ _ _ _ 1 2 H1 H2 H3 H4) as [df [Hdf [Hl _]]].
  exists df. auto.
Defined.

(* ================================================================== *)
(** * Edge Detector *)
(* ================================================================== *)

Lemma length_pad_edge1 {A : Type} (l : list A) :
  l <> [] -> List.length (pad_edge1 l) = (List.length l + 2)%nat.
Proof.
  destruct l as [|x t]; [congruence|]; intros _.
  unfold pad_edge1. simpl. rewrite length_app. simpl. lia.
Qed.

Lemma last_nth_error {A : Type} (l : list A) (d : A) :
  l <> [] -> nth_error l (List.length l - 1) = Some (last l d).
Proof.
  induction l as [|x t IH]; [congruence|]; intros _.
  destruct t as [|y t']; [reflexivity|].
  change (last (x :: y :: t') d) with (last (y :: t') d).
  rewrite <- IH by discriminate. simpl. now rewrite Nat.sub_0_r.
Qed.

Lemma nth_error_pad_edge1 {A : Type} (l : list A) (k : nat) :
  l <> [] -> (k < List.length l + 2)%nat ->
  nth_error (pad_edge1 l) k = nth_error l (clamp (List.length l) k).
Proof.
  intros Hne Hk. destruct l as [|x t]; [congruence|].
  change (pad_edge1 (x :: t)) with (x :: (x :: t) ++ [last (x :: t) x]).
  set (l := x :: t) in *.
  assert (H0 : nth_error l 0 = Some x) by reflexivity.
  clearbody l.
  unfold clamp. destruct k as [|k].
  - change (0 - 1)%nat with 0%nat. rewrite Nat.min_0_l, H0. reflexivity.
  - simpl. rewrite Nat.sub_0_r.
    destruct (Nat.lt_ge_cases k (List.length l)) as [Hlt|Hge].
    + rewrite nth_error_app1 by assumption. f_equal. lia.
    + assert (k = List.length l) as -> by lia.
      rewrite nth_error_app2, Nat.sub_diag by lia. simpl.
      rewrite Nat.min_r by lia. symmetry. now apply last_nth_error.
Qed.

Lemma length_slice {A : Type} (w : window) (l : list A) (n : nat) :
  List.length l = (n + 2)%nat -> List.length (slice w l) = n.
Proof.
  intros Hl. destruct w; unfold slice;
    rewrite ?length_skipn, ?length_firstn; lia.
Qed.

Lemma nth_error_slice {A : Type} (w : window) (l : list A) (n i : nat) :
  List.length l = (n + 2)%nat -> (i < n)%nat ->
  nth_error (slice w l) i = nth_error l (i + slice_start w).
Proof.
  intros Hl Hi. destruct w; unfold slice, slice_start.
  - rewrite nth_error_firstn.
    destruct (Nat.ltb_spec i (List.length l - 2)); [|lia].
    f_equal. lia.
  - rewrite nth_error_skipn, nth_error_firstn.
    destruct (Nat.ltb_spec (1 + i) (List.length l - 1)); [|lia].
    f_equal. lia.
  - rewrite nth_error_skipn. f_equal. lia.
Qed.

Lemma getitem2_slice2d {A : Type} (wr wc : window) (P : list (list A))
  (R C i j : nat) :
  has_shape (R + 2) (C + 2) P -> (i < R)%nat -> (j < C)%nat ->
  Vectorised.getitem2 (slice2d wr wc P) i j
  = Vectorised.getitem2 P (i + slice_start wr) (j + slice_start wc).
Proof.
  intros Hs Hi Hj. pose proof Hs as [Hl _].
  unfold Vectorised.getitem2, getitem, slice2d.
  rewrite nth_error_map, (nth_error_slice wr P R i Hl Hi).
  destruct (nth_error P (i + slice_start wr)) as [line|] eqn:E; simpl;
    [|reflexivity].
  pose proof (has_shape_row _ _ _ _ _ Hs E) as Hlen.
  now rewrite (nth_error_slice wc line C j Hlen Hj).
Qed.

Lemma in_slice {A : Type} (w : window) (l : list A) (x : A) :
  In x (slice w l) -> In x l.
Proof.
  assert (Hf : forall n (k : list A), In x (firstn n k) -> In x k).
  { intros n k H. rewrite <- (firstn_skipn n k). apply in_or_app. now left. }
  assert (Hk : forall n (k : list A), In x (skipn n k) -> In x k).
  { intros n k H. rewrite <- (firstn_skipn n k). apply in_or_app. now right. }
  destruct w; unfold slice; intros H.
  - eapply Hf; eauto.
  - eapply Hf, Hk; eauto.
  - eapply Hk; eauto.
Qed.

Lemma has_shape_slice2d {A : Type} (wr wc : window) (P : list (list A)) (R C : nat) :
  has_shape (R + 2) (C + 2) P -> has_shape R C (slice2d wr wc P).
Proof.
  intros [Hl H]. unfold slice2d. split.
  - rewrite length_map. now apply length_slice.
  - apply Forall_map. rewrite Forall_forall in *.
    intros line Hin. apply length_slice, H.
    eapply in_slice; eauto.
Qed.

Lemma has_shape_padded {A : Type} (g : list (list A)) (R C : nat) :
  has_shape R C g -> (1 <= R)%nat -> (1 <= C)%nat ->
  has_shape (R + 2) (C + 2) (pad_edge1 (map pad_edge1 g)).
Proof.
  intros [Hl H] HR HC.
  assert (Hne : map (@pad_edge1 A) g <> [])
    by (destruct g; simpl in *; [lia | discriminate]).
  assert (Hrows : Forall (fun row => List.length row = (C + 2)%nat)
                         (map (@pad_edge1 A) g)).
  { apply Forall_map. eapply Forall_impl; [|exact H].
    intros row Hrow. cbv beta in Hrow. rewrite length_pad_edge1; [lia|].
    destruct row; simpl in *; [lia | discriminate]. }
  split.
  - rewrite length_pad_edge1, length_map by assumption. lia.
  - rewrite Forall_forall in *. intros row Hin.
    apply In_nth_error in Hin. destruct Hin as [k Hk].
    assert (Hk' : (k < List.length (map (@pad_edge1 A) g) + 2)%nat).
    { rewrite <- length_pad_edge1 by assumption.
      apply nth_error_Some. congruence. }
    rewrite nth_error_pad_edge1 in Hk by assumption.
    apply Hrows. eapply nth_error_In; eauto.
Qed.

Lemma clamp_lt (n k : nat) : (1 <= n)%nat -> (clamp n k < n)%nat.
Proof. unfold clamp. lia. Qed.

Lemma getitem2_padded {A : Type} (g : list (list A)) (R C a b : nat) :
  has_shape R C g -> (1 <= R)%nat -> (1 <= C)%nat ->
  (a < R + 2)%nat -> (b < C + 2)%nat ->
  Vectorised.getitem2 (pad_edge1 (map pad_edge1 g)) a b
  = Vectorised.getitem2 g (clamp R a) (clamp C b).
Proof.
  intros Hs HR HC Ha Hb. pose proof Hs as [Hl _].
  assert (Hne : map (@pad_edge1 A) g <> [])
    by (destruct g; simpl in *; [lia | discriminate]).
  unfold Vectorised.getitem2, getitem.
  rewrite nth_error_pad_edge1 by (rewrite ?length_map; auto; lia).
  rewrite length_map, Hl, nth_error_map.
  destruct (nth_error g (clamp R a)) as [line|] eqn:E; simpl; [|reflexivity].
  pose proof (has_shape_row _ _ _ _ _ Hs E) as Hlen.
  rewrite nth_error_pad_edge1, Hlen.
  - reflexivity.
  - destruct line; simpl in *; [lia | discriminate].
  - lia.
Qed.

(** The kernels of the code hold the entries of the design. *)
Lemma kget_Kx (a b : nat) :
  (a < 3)%nat -> (b < 3)%nat -> Vectorised.kget Vectorised.Kx a b = kernel_x a b.
Proof.
  intros Ha Hb.
  destruct a as [|[|[|a]]]; try lia; destruct b as [|[|[|b]]]; try lia; reflexivity.
Qed.

Lemma kget_Ky (a b : nat) :
  (a < 3)%nat -> (b < 3)%nat -> Vectorised.kget Vectorised.Ky a b = kernel_y a b.
Proof.
  intros Ha Hb.
  destruct a as [|[|[|a]]]; try lia; destruct b as [|[|[|b]]]; try lia; reflexivity.
Qed.

(** The padded grayscale map, cell by cell. *)
Lemma padded_cell (img : image) (R C a b : nat) :
  has_shape R C img -> (1 <= R)%nat -> (1 <= C)%nat ->
  (a < R + 2)%nat -> (b < C + 2)%nat ->
  Vectorised.getitem2 (pad_edge1 (map pad_edge1 (map (map luma) img))) a b
  = Ok (padded_at img a b).
Proof.
  intros Hs HR HC Ha Hb.
  rewrite (getitem2_padded _ R C) by (auto using has_shape_map).
  unfold padded_at, gray_at, nrows.
  destruct Hs as [Hl Hrows].
  rewrite (has_shape_ncols R C img (conj Hl Hrows) HR), Hl.
  rewrite <- luma_weighted_brightness.
  apply getitem2_map.
  apply (getitem2_nth R C); [split; assumption| |]; now apply clamp_lt.
Qed.

Lemma correlate3_term (K : Vectorised.kernel) (img : image) (R C i j : nat)
  (ka kb : nat) (wr wc : window) :
  has_shape R C img -> (1 <= R)%nat -> (1 <= C)%nat ->
  (i < R)%nat -> (j < C)%nat ->
  Vectorised.getitem2
    (arr_scale (Vectorised.kget K ka kb)
       (slice2d wr wc (pad_edge1 (map pad_edge1 (map (map luma) img))))) i j
  = Ok (Vectorised.kget K ka kb
        * padded_at img (i + slice_start wr) (j + slice_start wc))%float.
Proof.
  intros Hs HR HC Hi Hj. unfold arr_scale.
  apply getitem2_map.
  rewrite (getitem2_slice2d wr wc _ R C)
    by (auto using has_shape_padded, has_shape_map).
  apply (padded_cell img R C); auto; destruct wr, wc; simpl; lia.
Qed.

Lemma correlate3_cell (K : Vectorised.kernel) (img : image) (R C i j : nat) :
  has_shape R C img -> (1 <= R)%nat -> (1 <= C)%nat ->
  (i < R)%nat -> (j < C)%nat ->
  Vectorised.getitem2
    (Vectorised.correlate3 K (pad_edge1 (map pad_edge1 (map (map luma) img)))) i j
  = Ok (conv_at (Vectorised.kget K) img i j).
Proof.
  intros Hs HR HC Hi Hj.
  unfold Vectorised.correlate3, conv_at, arr_add. cbn [fold_left fst snd].
  repeat apply getitem2_zip_with;
    apply (correlate3_term K img R C i j); assumption.
Qed.

(** The convolution depends on the nine entries of the kernel only. *)
Lemma conv_at_ext (K K' : nat -> nat -> float) (img : image) (i j : nat) :
  (forall a b, (a < 3)%nat -> (b < 3)%nat -> K a b = K' a b) ->
  conv_at K img i j = conv_at K' img i j.
Proof.
  intros H. unfold conv_at. cbn [fold_left fst snd].
  rewrite !H by lia. reflexivity.
Qed.

Lemma has_shape_correlate3 (K : Vectorised.kernel) (img : image) (R C : nat) :
  has_shape R C img -> (1 <= R)%nat -> (1 <= C)%nat ->
  has_shape R C
    (Vectorised.correlate3 K (pad_edge1 (map pad_edge1 (map (map luma) img)))).
Proof.
  intros Hs HR HC.
  unfold Vectorised.correlate3, arr_add, arr_scale.
  repeat apply has_shape_zip_with;
    apply has_shape_map, has_shape_slice2d, has_shape_padded;
    auto using has_shape_map.
Qed.

(** C1: on every R x C image (R, C >= 1, as the Resampler delivers it)
    the Edge Detector returns an R x C map whose cell (i, j) is
    sqrt(gx^2 + gy^2), where gx and gy are the sums of the products of the
    kernels Kx = [[-1,0,1],[-2,0,2],[-1,0,1]] and
    Ky = [[1,2,1],[0,0,0],[-1,-2,-1]] with the 3 x 3 neighbourhood of the
    cell in the grayscale map 0.299 R + 0.587 G + 0.114 B, padded by one
    replicated cell on each border.  The kernels, the weights and the
    padding are those of the design ([kernel_x], [kernel_y],
    [weighted_brightness], [clamp]), stated apart from the code; the
    arithmetic is float64, the nine products summed row by row. *)
Theorem compute_edges_formula (img : image) (R C : nat) :
  has_shape R C img -> (1 <= R)%nat -> (1 <= C)%nat ->
  exists edges,
    Vectorised.compute_edges img = Ok edges /\
    has_shape R C edges /\
    forall i j, (i < R)%nat -> (j < C)%nat ->
      Vectorised.getitem2 edges i j = Ok (edge_strength img i j).
Proof.
  intros Hs HR HC.
  unfold Vectorised.compute_edges, pad_edge.
  assert (Hnr : nrows (map (map luma) img) = R)
    by (unfold nrows; rewrite length_map; apply Hs).
  assert (Hnc : ncols (map (map luma) img) = C)
    by (apply (has_shape_ncols R C); auto using has_shape_map).
  rewrite Hnr, Hnc.
  destruct (Nat.eqb_spec R 0) as [->|_]; [lia|].
  destruct (Nat.eqb_spec C 0) as [->|_]; [lia|].
  simpl. eexists. split; [reflexivity|]. split.
  - unfold arr_sqrt, arr_add, arr_square.
    apply has_shape_map, has_shape_zip_with;
      apply has_shape_map, has_shape_correlate3; assumption.
  - intros i j Hi Hj. unfold arr_sqrt, arr_add, arr_square, edge_strength.
    rewrite <- (conv_at_ext _ _ img i j kget_Kx).
    rewrite <- (conv_at_ext _ _ img i j kget_Ky).
    apply (getitem2_map PrimFloat.sqrt).
    apply (getitem2_zip_with PrimFloat.add);
      apply (getitem2_map (fun x => (x * x)%float));
      apply (correlate3_cell _ img R C); assumption.
Qed.

Lemma compute_edges_formula_witness :
  (has_shape 1 2 [[(0, 0, 0)%Z; (255, 255, 255)%Z]]
   /\ (1 <= 1)%nat /\ (1 <= 2)%nat)
  /\ exists edges,
       Vectorised.compute_edges [[(0, 0, 0)%Z; (255, 255, 255)%Z]] = Ok edges /\
       Vectorised.getitem2 edges 0 0 = Ok 1020%float /\
       Vectorised.getitem2 edges 0 1 = Ok 1020%float.
Proof.
  assert (H1 : has_shape 1 2 [[(0, 0, 0)%Z; (255, 255, 255)%Z]])
    by (split; [reflexivity | repeat constructor]).
  assert (H2 : (1 <= 1)%nat) by lia.
  assert (H3 : (1 <= 2)%nat) by lia.
  split; [auto|].
  destruct (compute_edges_formula _ 1 2 H1 H2 H3) as [edges [He [_ Hc]]].
  exists edges. split; [exact He|].
  rewrite (Hc 0 0)%nat, (Hc 0 1)%nat by lia.
  split; vm_compute; reflexivity.
Defined.

(* ================================================================== *)
(** * Resampler: degenerate extents and the index formula *)
(* ================================================================== *)

Lemma resize_image_zero (img : image) (R C : Z) :
  (R = 0 \/ C = 0)%Z -> Vectorised.resize_image img R C = Raise ZeroDivisionError.
Proof.
  intros H. unfold Vectorised.resize_image, py_truediv.
  destruct (Z.eqb_spec R 0) as [HR|HR]; [reflexivity|].
  simpl. destruct (Z.eqb_spec C 0) as [HC|HC]; [reflexivity|].
  lia.
Qed.

(** C7, as stated, fails: a target of zero rows is not rejected with an
    InvalidDimension error; the division by the zero extent raises
    Python's ZeroDivisionError. *)
Lemma resize_zero_rows_not_invalid_dimension :
  Vectorised.resize_image [[(0, 0, 0)%Z]] 0 1 = Raise ZeroDivisionError
  /\ Vectorised.resize_image [[(0, 0, 0)%Z]] 0 1 <> Raise InvalidDimension.
Proof.
  split; [reflexivity | discriminate].
Qed.

(** C7, amended: with target rows R = 0 or target cols C = 0 the Resampler
    produces no output and fails with ZeroDivisionError; so does the
    command-line pipeline when the rows it derives from the columns and
    the aspect ratio are 0 (or the columns are 0), and the upload handler
    when the columns are 0.  No InvalidDimension error exists. *)
Theorem zero_extent_raises_zero_division
  (img : image) (R C : Z) (pal : palette) :
  (R = 0 \/ C = 0)%Z ->
  Vectorised.resize_image img R C = Raise ZeroDivisionError
  /\ (forall aspect_ratio,
        py_truediv (Z.of_nat (nrows img)) (Z.of_nat (ncols img)) = Ok aspect_ratio ->
        py_int_of_float (float_of_int C * aspect_ratio) = Ok R ->
        Vectorised.main img C pal = Raise ZeroDivisionError)
  /\ (C = 0%Z -> App.upload_image img C pal = Raise ZeroDivisionError).
Proof.
  intros H. split; [now apply resize_image_zero|]. split.
  - intros aspect_ratio Ha Hr. unfold Vectorised.main.
    rewrite Ha. simpl. rewrite Hr. simpl.
    now rewrite (resize_image_zero img R C H).
  - intros ->. unfold App.upload_image.
    now rewrite (resize_image_zero img 0 0 (or_introl eq_refl)).
Qed.

Lemma zero_extent_raises_zero_division_witness :
  (0 = 0 \/ 4 = 0)%Z
  /\ Vectorised.main
       [[(0, 0, 0)%Z; (0, 0, 0)%Z; (0, 0, 0)%Z; (0, 0, 0)%Z; (0, 0, 0)%Z]] 4
       [("black"%string, YStr "#000000")]
     = Raise ZeroDivisionError.
Proof.
  assert (H : (0 = 0 \/ 4 = 0)%Z) by (left; reflexivity).
  split; [exact H|].
  refine (proj1 (proj2 (zero_extent_raises_zero_division
    [[(0, 0, 0)%Z; (0, 0, 0)%Z; (0, 0, 0)%Z; (0, 0, 0)%Z; (0, 0, 0)%Z]] 0 4
    [("black"%string, YStr "#000000")] H)) (1 / 5)%float _ _).
  - vm_compute. reflexivity.
  - vm_compute. reflexivity.
Defined.

(** C4 on the code: a source of 30 rows (row k holds the pixel (k, k, k))
    resampled to 22 rows.  Target row 11 should read source row
    floor(11 * 30 / 22) = 15; the code computes 11 * (30 / 22) in float64,
    which is just below 15, truncates it to 14 and reads source row 14. *)
Lemma resize_image_row_11_of_22 :
  astype_int (float_of_int 11 * (float_of_int 30 / float_of_int 22))%float = 14%Z
  /\ (11 * 30 / 22 = 15)%Z
  /\ exists out,
       Vectorised.resize_image (map (fun k => [(k, k, k)]) (arange 30)) 22 1 = Ok out
       /\ Vectorised.getitem2 out 11 0 = Ok (14, 14, 14)%Z
       /\ Vectorised.getitem2 (map (fun k => [(k, k, k)]) (arange 30)) 15 0
          = Ok (15, 15, 15)%Z.
Proof.
  split; [vm_compute; reflexivity|]. split; [reflexivity|].
  eexists. split; [vm_compute; reflexivity|].
  split; vm_compute; reflexivity.
Qed.

(* ================================================================== *)
(** * float64 arithmetic on array extents and indices *)
(* ================================================================== *)

(** The multiplication, the division and the conversions of
    [resize_image] are followed through the specification of binary64
    in [SpecFloat], to which [FloatAxioms] relates the primitive
    operations. *)

(** ** Binary digits *)

Lemma digits2_pos_bounds (p : positive) :
  (2 ^ (Zpos (digits2_pos p) - 1) <= Zpos p < 2 ^ Zpos (digits2_pos p))%Z.
Proof.
  induction p as [p IH|p IH|]; simpl digits2_pos.
  - rewrite Pos2Z.inj_succ.
    replace (Z.succ (Zpos (digits2_pos p)) - 1)%Z
      with (Z.succ (Zpos (digits2_pos p) - 1))%Z by lia.
    rewrite !Z.pow_succ_r by lia. lia.
  - rewrite Pos2Z.inj_succ.
    replace (Z.succ (Zpos (digits2_pos p)) - 1)%Z
      with (Z.succ (Zpos (digits2_pos p) - 1))%Z by lia.
    rewrite !Z.pow_succ_r by lia. lia.
  - simpl. lia.
Qed.

Lemma digits2_pos_unique (p : positive) (d : Z) :
  (2 ^ (d - 1) <= Zpos p < 2 ^ d)%Z -> Zpos (digits2_pos p) = d.
Proof.
  intros [Hlo Hhi]. pose proof (digits2_pos_bounds p) as [Blo Bhi].
  assert (Hd : (0 < d)%Z).
  { destruct (Z.lt_ge_cases 0 d) as [|Hd]; [assumption|].
    assert (2 ^ d <= 1)%Z; [|lia].
    destruct (Z.eq_dec d 0) as [->|]; [simpl; lia|].
    rewrite Z.pow_neg_r by lia. lia. }
  assert (Zpos (digits2_pos p) - 1 < d)%Z.
  { apply (Z.pow_lt_mono_r_iff 2); lia. }
  assert (d - 1 < Zpos (digits2_pos p))%Z.
  { apply (Z.pow_lt_mono_r_iff 2); lia. }
  lia.
Qed.

(** ** Shifting a mantissa right *)

Lemma pow2_xO (p : positive) :
  (2 ^ Zpos p~0 = 2 ^ Zpos p * 2 ^ Zpos p)%Z.
Proof.
  replace (Zpos p~0) with (Zpos p + Zpos p)%Z by lia.
  now rewrite Z.pow_add_r by lia.
Qed.

Lemma pow2_xI (p : positive) :
  (2 ^ Zpos p~1 = 2 * (2 ^ Zpos p * 2 ^ Zpos p))%Z.
Proof.
  replace (Zpos p~1) with (1 + (Zpos p + Zpos p))%Z by lia.
  rewrite !Z.pow_add_r by lia. reflexivity.
Qed.

Lemma iter_pos_xI {A : Type} (f : A -> A) (p : positive) (x : A) :
  SpecFloat.iter_pos f p~1 x
  = SpecFloat.iter_pos f p (SpecFloat.iter_pos f p (f x)).
Proof. reflexivity. Qed.

Lemma iter_pos_xO {A : Type} (f : A -> A) (p : positive) (x : A) :
  SpecFloat.iter_pos f p~0 x = SpecFloat.iter_pos f p (SpecFloat.iter_pos f p x).
Proof. reflexivity. Qed.

Lemma iter_pos_xH {A : Type} (f : A -> A) (x : A) :
  SpecFloat.iter_pos f 1 x = f x.
Proof. reflexivity. Qed.

Lemma shr_1_m (mrs : shr_record) :
  (0 <= shr_m mrs)%Z -> shr_m (shr_1 mrs) = (shr_m mrs / 2)%Z.
Proof.
  destruct mrs as [m r s]. simpl. intros Hm.
  destruct m as [|[p|p|]|p]; simpl; try reflexivity; try lia.
  - rewrite Pos2Z.inj_xI. apply Z.div_unique with 1%Z; lia.
  - rewrite Pos2Z.inj_xO. apply Z.div_unique with 0%Z; lia.
Qed.

Lemma iter_pos_shr_1_m (p : positive) (mrs : shr_record) :
  (0 <= shr_m mrs)%Z ->
  shr_m (SpecFloat.iter_pos shr_1 p mrs) = (shr_m mrs / 2 ^ Zpos p)%Z.
Proof.
  revert mrs. induction p as [p IH|p IH|]; intros mrs Hm;
    rewrite ?iter_pos_xI, ?iter_pos_xO, ?iter_pos_xH.
  - assert (H1 : (0 <= shr_m (shr_1 mrs))%Z)
      by (rewrite shr_1_m by assumption; apply Z.div_pos; lia).
    assert (H2 : (0 <= shr_m (SpecFloat.iter_pos shr_1 p (shr_1 mrs)))%Z)
      by (rewrite IH by assumption; apply Z.div_pos; lia).
    rewrite IH, IH, shr_1_m by assumption.
    rewrite !Z.div_div by lia. f_equal.
    rewrite pow2_xI. ring.
  - assert (H2 : (0 <= shr_m (SpecFloat.iter_pos shr_1 p mrs))%Z)
      by (rewrite IH by assumption; apply Z.div_pos; lia).
    rewrite IH, IH by assumption.
    rewrite !Z.div_div by lia. f_equal.
    rewrite pow2_xO. ring.
  - now apply shr_1_m.
Qed.

Lemma shr_1_exact (m : Z) :
  (0 <= m)%Z ->
  shr_1 (Build_shr_record (2 * m) false false) = Build_shr_record m false false.
Proof.
  intros _. destruct m as [|p|p]; reflexivity.
Qed.

Lemma iter_pos_shr_1_exact (p : positive) (m : Z) :
  (0 <= m)%Z ->
  SpecFloat.iter_pos shr_1 p (Build_shr_record (m * 2 ^ Zpos p) false false)
  = Build_shr_record m false false.
Proof.
  revert m. induction p as [p IH|p IH|]; intros m Hm;
    rewrite ?iter_pos_xI, ?iter_pos_xO, ?iter_pos_xH.
  - replace (m * 2 ^ Zpos p~1)%Z with (2 * (m * 2 ^ Zpos p * 2 ^ Zpos p))%Z.
    + rewrite shr_1_exact by nia. rewrite IH by nia. now apply IH.
    + rewrite pow2_xI. ring.
  - replace (m * 2 ^ Zpos p~0)%Z with (m * 2 ^ Zpos p * 2 ^ Zpos p)%Z.
    + rewrite IH by nia. now apply IH.
    + rewrite pow2_xO. ring.
  - replace (m * 2 ^ 1)%Z with (2 * m)%Z by lia. now apply shr_1_exact.
Qed.

(** ** Rounding to 53 bits

    [binary_round_aux] of the IEEE-754 specification, on the range the
    index computation stays in: no overflow, no subnormal numbers. *)

Lemma fexp_normal (e : Z) :
  (-1021 <= e)%Z -> fexp prec emax e = (e - 53)%Z.
Proof.
  intros H. unfold fexp, SpecFloat.emin, prec, emax. lia.
Qed.

Lemma shr_spec (mrs : shr_record) (e n : Z) :
  (0 <= n)%Z -> (0 <= shr_m mrs)%Z ->
  snd (shr mrs e n) = (e + n)%Z /\
  shr_m (fst (shr mrs e n)) = (shr_m mrs / 2 ^ n)%Z.
Proof.
  intros Hn Hm. unfold shr. destruct n as [|p|p]; simpl fst; simpl snd.
  - split; [lia|]. now rewrite Z.pow_0_r, Z.div_1_r.
  - split; [reflexivity|]. now apply iter_pos_shr_1_m.
  - lia.
Qed.

Lemma shr_m_record_of_loc (m : Z) (l : location) :
  shr_m (shr_record_of_loc m l) = m.
Proof. destruct l as [|[ | | ]]; reflexivity. Qed.

Lemma round_nearest_even_range (m : Z) (l : location) :
  (m <= round_nearest_even m l <= m + 1)%Z.
Proof.
  unfold round_nearest_even. destruct l as [|[ | | ]]; try lia.
  destruct (Z.even m); lia.
Qed.

Lemma Zdigits2_unique (m d : Z) :
  (2 ^ (d - 1) <= m < 2 ^ d)%Z -> (0 < m)%Z -> Zdigits2 m = d.
Proof.
  intros H Hm. destruct m as [|p|p]; try lia.
  simpl. now apply digits2_pos_unique.
Qed.

(** Second stage of [binary_round_aux]: renormalising after rounding. *)
Lemma round_finish (s : bool) (m1 e0 : Z) :
  (2 ^ 52 <= m1 <= 2 ^ 53)%Z -> (-1074 <= e0 <= 970)%Z ->
  (let '(mrs'', e'') := shr_fexp prec emax m1 e0 loc_Exact in
   match shr_m mrs'' with
   | Z0 => S754_zero s
   | Zpos m => if (e'' <=? emax - prec)%Z then S754_finite s m e''
               else S754_infinity s
   | Zneg _ => S754_nan
   end) = round_result s m1 e0.
Proof.
  intros Hm He. unfold round_result, shr_fexp.
  destruct (Z.eqb_spec m1 (2 ^ 53)) as [->|Hne].
  - replace (Zdigits2 (2 ^ 53)) with 54%Z by reflexivity.
    rewrite fexp_normal by lia.
    replace (54 + e0 - 53 - e0)%Z with 1%Z by lia.
    cbn [shr shr_record_of_loc]. rewrite iter_pos_xH.
    change (shr_1 {| shr_m := 2 ^ 53; shr_r := false; shr_s := false |})
      with {| shr_m := 2 ^ 52; shr_r := false; shr_s := false |}.
    cbn [shr_m]. change (2 ^ 52)%Z with (Zpos (2 ^ 52)).
    cbv beta iota.
    destruct (Z.leb_spec (e0 + 1) (emax - prec)) as [|H]; [reflexivity|].
    unfold emax, prec in H. lia.
  - rewrite (Zdigits2_unique m1 53) by lia.
    rewrite fexp_normal by lia.
    replace (53 + e0 - 53 - e0)%Z with 0%Z by lia.
    cbn [shr shr_record_of_loc shr_m].
    destruct m1 as [|p|p]; try lia.
    destruct (Z.leb_spec e0 (emax - prec)) as [|H]; [reflexivity|].
    unfold emax, prec in H. lia.
Qed.

(** [binary_round_aux] on a positive integer of at least 53 digits, in the
    normal range: truncate to 53 digits, round, renormalise. *)
Lemma binary_round_aux_spec (s : bool) (px : positive) (ex : Z) (lx : location) :
  let n := (Zpos (digits2_pos px) - 53)%Z in
  (0 <= n)%Z -> (-1074 <= ex + n <= 970)%Z ->
  exists m1,
    binary_round_aux prec emax s (Zpos px) ex lx = round_result s m1 (ex + n) /\
    (Zpos px / 2 ^ n <= m1 <= Zpos px / 2 ^ n + 1)%Z /\
    (2 ^ 52 <= Zpos px / 2 ^ n < 2 ^ 53)%Z /\
    (lx = loc_Exact -> (Zpos px mod 2 ^ n = 0)%Z -> m1 = (Zpos px / 2 ^ n)%Z).
Proof.
  intros n Hn He.
  pose proof (digits2_pos_bounds px) as Hd.
  set (d := Zpos (digits2_pos px)) in *.
  assert (Hq : (2 ^ 52 <= Zpos px / 2 ^ n < 2 ^ 53)%Z).
  { assert (Hp : (2 ^ d = 2 ^ 53 * 2 ^ n)%Z)
      by (rewrite <- Z.pow_add_r by lia; f_equal; lia).
    assert (Hp' : (2 ^ (d - 1) = 2 ^ 52 * 2 ^ n)%Z)
      by (rewrite <- Z.pow_add_r by lia; f_equal; lia).
    assert (0 < 2 ^ n)%Z by (apply Z.pow_pos_nonneg; lia).
    split.
    - apply Z.div_le_lower_bound; lia.
    - apply Z.div_lt_upper_bound; lia. }
  unfold binary_round_aux.
  assert (Hsh : shr_fexp prec emax (Zpos px) ex lx
                = shr (shr_record_of_loc (Zpos px) lx) ex n).
  { unfold shr_fexp. f_equal. cbn [Zdigits2]. fold d.
    rewrite fexp_normal by lia. lia. }
  rewrite Hsh.
  destruct (shr_spec (shr_record_of_loc (Zpos px) lx) ex n Hn) as [He' Hm'].
  { rewrite shr_m_record_of_loc. lia. }
  rewrite shr_m_record_of_loc in Hm'.
  destruct (shr (shr_record_of_loc (Zpos px) lx) ex n) as [mrs' e'] eqn:E.
  cbn [fst snd] in He', Hm'. subst e'.
  set (m1 := round_nearest_even (shr_m mrs') (loc_of_shr_record mrs')).
  pose proof (round_nearest_even_range (shr_m mrs') (loc_of_shr_record mrs')) as Hr.
  fold m1 in Hr. rewrite Hm' in Hr.
  exists m1. split; [apply round_finish; lia|].
  split; [assumption|]. split; [assumption|].
  intros -> Hmod. unfold m1.
  assert (Hex : mrs' = Build_shr_record (Zpos px / 2 ^ n) false false).
  { assert (Hfst : mrs' = fst (shr (shr_record_of_loc (Zpos px) loc_Exact) ex n))
      by (now rewrite E).
    rewrite Hfst. clear E Hfst Hsh m1 Hr Hm'.
    assert (Hpx : Zpos px = (Zpos px / 2 ^ n * 2 ^ n)%Z).
    { rewrite (Z.div_mod (Zpos px) (2 ^ n)) at 1; [lia|].
      apply Z.pow_nonzero; lia. }
    clearbody n. unfold shr. cbn [shr_record_of_loc].
    destruct n as [|p|p]; try lia; cbn [fst].
    - now rewrite Z.pow_0_r, Z.div_1_r.
    - rewrite Hpx at 1. apply iter_pos_shr_1_exact. lia. }
  rewrite Hex. reflexivity.
Qed.

(** ** Integers as binary64 values *)

Lemma Zpos_iter_xO (p k : positive) :
  Zpos (Pos.iter xO p k) = (Zpos p * 2 ^ Zpos k)%Z.
Proof.
  induction k as [|k IH] using Pos.peano_ind.
  - simpl. lia.
  - rewrite Pos.iter_succ, Pos2Z.inj_xO, IH, Pos2Z.inj_succ, Z.pow_succ_r by lia.
    ring.
Qed.

Lemma Zdigits2_bounds (n : Z) :
  (0 < n)%Z -> (2 ^ (Zdigits2 n - 1) <= n < 2 ^ Zdigits2 n)%Z.
Proof.
  destruct n as [|p|p]; try lia. intros _. apply digits2_pos_bounds.
Qed.

Lemma Zdigits2_small (n : Z) :
  (0 < n < 2 ^ 53)%Z -> (1 <= Zdigits2 n <= 53)%Z.
Proof.
  intros Hn. pose proof (Zdigits2_bounds n ltac:(lia)) as [Hlo Hhi].
  split.
  - destruct n as [|p|p]; simpl; lia.
  - destruct (Z.le_gt_cases (Zdigits2 n) 53) as [|Hgt]; [assumption|].
    assert (2 ^ 53 <= 2 ^ (Zdigits2 n - 1))%Z
      by (apply Z.pow_le_mono_r; lia).
    lia.
Qed.

Lemma norm_mant_bounds (n : Z) :
  (0 < n < 2 ^ 53)%Z -> (2 ^ 52 <= norm_mant n < 2 ^ 53)%Z.
Proof.
  intros Hn. pose proof (Zdigits2_bounds n ltac:(lia)) as [Hlo Hhi].
  pose proof (Zdigits2_small n Hn) as Hd. unfold norm_mant.
  set (d := Zdigits2 n) in *.
  assert (H1 : (2 ^ 52 = 2 ^ (d - 1) * 2 ^ (53 - d))%Z)
    by (rewrite <- Z.pow_add_r by lia; f_equal; lia).
  assert (H2 : (2 ^ 53 = 2 ^ d * 2 ^ (53 - d))%Z)
    by (rewrite <- Z.pow_add_r by lia; f_equal; lia).
  assert (0 < 2 ^ (53 - d))%Z by (apply Z.pow_pos_nonneg; lia).
  rewrite H1, H2. split; nia.
Qed.

Lemma binary_round_aux_canonical (s : bool) (m : positive) (e : Z) :
  (2 ^ 52 <= Zpos m < 2 ^ 53)%Z -> (-1074 <= e <= 970)%Z ->
  binary_round_aux prec emax s (Zpos m) e loc_Exact = S754_finite s m e.
Proof.
  intros Hm He.
  assert (Hd : Zpos (digits2_pos m) = 53%Z) by (apply digits2_pos_unique; lia).
  destruct (binary_round_aux_spec s m e loc_Exact) as [m1 [Hr [_ [_ Hex]]]];
    rewrite ?Hd; try lia.
  rewrite Hd in Hr, Hex. change (53 - 53)%Z with 0%Z in *.
  rewrite Z.pow_0_r, Z.div_1_r, Z.mod_1_r in Hex.
  rewrite (Hex eq_refl eq_refl) in Hr. rewrite Hr.
  unfold round_result. rewrite Z.add_0_r.
  destruct (Z.eqb_spec (Zpos m) (2 ^ 53)); [lia | reflexivity].
Qed.

Lemma float_of_int_small (z : Z) :
  (Z.abs z < 2 ^ 63)%Z ->
  float_of_int z
  = if (z <? 0)%Z then (- of_uint63 (Uint63.of_Z (- z)))%float
    else of_uint63 (Uint63.of_Z z).
Proof.
  intros Hz. unfold float_of_int.
  destruct (Z.ltb_spec (Z.abs z) (2 ^ 63)); [reflexivity | lia].
Qed.

Lemma float_of_int_pos (n : Z) :
  (0 < n < 2 ^ 53)%Z ->
  Prim2SF (float_of_int n)
  = S754_finite false (Z.to_pos (norm_mant n)) (norm_exp n).
Proof.
  intros Hn. rewrite float_of_int_small by lia.
  destruct (Z.ltb_spec n 0); [lia|].
  rewrite of_uint63_spec, Uint63.of_Z_spec.
  rewrite Z.mod_small by (change wB with (2 ^ 63)%Z; lia).
  pose proof (Zdigits2_small n Hn) as Hd.
  pose proof (norm_mant_bounds n Hn) as Hm.
  unfold norm_mant, norm_exp in *.
  destruct n as [|p|p]; try lia.
  cbn [binary_normalize Zdigits2] in *. unfold binary_round.
  set (d := Zpos (digits2_pos p)) in *.
  rewrite Z.add_0_r, fexp_normal by lia.
  unfold shl_align. rewrite Z.sub_0_r.
  destruct (d - 53)%Z as [|k|k] eqn:Ek; try lia.
  - replace (53 - d)%Z with 0%Z in * by lia.
    rewrite Z.pow_0_r, Z.mul_1_r in *.
    rewrite binary_round_aux_canonical by lia. reflexivity.
  - replace (53 - d)%Z with (Zpos k) in * by lia.
    rewrite binary_round_aux_canonical; rewrite ?Zpos_iter_xO; try lia.
    f_equal. rewrite <- Zpos_iter_xO. reflexivity.
Qed.

Lemma float_of_int_zero : Prim2SF (float_of_int 0) = S754_zero false.
Proof. reflexivity. Qed.

(** ** Products and quotients of normal numbers *)

(** Product of two normal positive numbers. *)
Lemma SF64mul_normal (m1 m2 : positive) (e1 e2 : Z) :
  (2 ^ 52 <= Zpos m1 < 2 ^ 53)%Z -> (2 ^ 52 <= Zpos m2 < 2 ^ 53)%Z ->
  (-500 <= e1 + e2 <= 500)%Z ->
  exists n r,
    SF64mul (S754_finite false m1 e1) (S754_finite false m2 e2)
    = round_result false r (e1 + e2 + n) /\
    (52 <= n <= 53)%Z /\
    (Zpos m1 * Zpos m2 / 2 ^ n <= r <= Zpos m1 * Zpos m2 / 2 ^ n + 1)%Z /\
    (2 ^ 52 <= Zpos m1 * Zpos m2 / 2 ^ n < 2 ^ 53)%Z /\
    ((Zpos m1 * Zpos m2) mod 2 ^ n = 0 -> r = Zpos m1 * Zpos m2 / 2 ^ n)%Z.
Proof.
  intros H1 H2 He. unfold SF64mul, SFmul. cbn [xorb].
  pose proof (digits2_pos_bounds (m1 * m2)) as Hd.
  rewrite Pos2Z.inj_mul in Hd.
  set (d := Zpos (digits2_pos (m1 * m2))) in *.
  assert (Hlo : (2 ^ 104 <= Zpos m1 * Zpos m2)%Z)
    by (change (2 ^ 104)%Z with (2 ^ 52 * 2 ^ 52)%Z; nia).
  assert (Hhi : (Zpos m1 * Zpos m2 < 2 ^ 106)%Z)
    by (change (2 ^ 106)%Z with (2 ^ 53 * 2 ^ 53)%Z; nia).
  assert (Hdr : (105 <= d <= 106)%Z).
  { split.
    - destruct (Z.lt_ge_cases d 105) as [Hlt|]; [|assumption].
      assert (2 ^ d <= 2 ^ 104)%Z by (apply Z.pow_le_mono_r; lia). lia.
    - destruct (Z.le_gt_cases d 106) as [|Hgt]; [assumption|].
      assert (2 ^ 106 <= 2 ^ (d - 1))%Z by (apply Z.pow_le_mono_r; lia). lia. }
  destruct (binary_round_aux_spec false (m1 * m2) (e1 + e2) loc_Exact)
    as [r [Hr [Hb [Hq Hex]]]]; fold d; try lia.
  fold d in Hr, Hb, Hq, Hex. rewrite Pos2Z.inj_mul in *.
  exists (d - 53)%Z, r. repeat split; try lia; try assumption.
  intros Hmod. now apply Hex.
Qed.

Lemma new_location_zero (k : Z) : new_location k 0 = loc_Exact.
Proof.
  unfold new_location, new_location_even, new_location_odd.
  destruct (Z.even k); reflexivity.
Qed.

(** Quotient of two normal positive numbers. *)
Lemma SF64div_normal (m1 m2 : positive) (e1 e2 : Z) :
  (2 ^ 52 <= Zpos m1 < 2 ^ 53)%Z -> (2 ^ 52 <= Zpos m2 < 2 ^ 53)%Z ->
  (-500 <= e1 - e2 <= 500)%Z ->
  let q0 := (Zpos m1 * 2 ^ 53 / Zpos m2)%Z in
  exists n r,
    SF64div (S754_finite false m1 e1) (S754_finite false m2 e2)
    = round_result false r (e1 - e2 - 53 + n) /\
    (0 <= n <= 1)%Z /\
    (q0 / 2 ^ n <= r <= q0 / 2 ^ n + 1)%Z /\
    (2 ^ 52 <= q0 / 2 ^ n < 2 ^ 53)%Z /\
    ((Zpos m1 * 2 ^ 53) mod Zpos m2 = 0 -> q0 mod 2 ^ n = 0 -> r = q0 / 2 ^ n)%Z.
Proof.
  intros H1 H2 He q0. unfold SF64div, SFdiv. cbn [xorb].
  assert (D1 : Zpos (digits2_pos m1) = 53%Z) by (apply digits2_pos_unique; lia).
  assert (D2 : Zpos (digits2_pos m2) = 53%Z) by (apply digits2_pos_unique; lia).
  unfold SFdiv_core_binary. cbn [Zdigits2]. rewrite D1, D2.
  replace (53 + e1 - (53 + e2))%Z with (e1 - e2)%Z by lia.
  rewrite fexp_normal by lia.
  rewrite Z.min_l by lia.
  replace (e1 - e2 - (e1 - e2 - 53))%Z with 53%Z by lia.
  cbv iota.
  rewrite Z.shiftl_mul_pow2 by lia.
  destruct (IntDef.Z.div_eucl (Zpos m1 * 2 ^ 53) (Zpos m2)) as [q r0] eqn:E.
  assert (Hq : q = q0) by (unfold q0, Z.div; now rewrite E).
  assert (Hr0 : r0 = ((Zpos m1 * 2 ^ 53) mod Zpos m2)%Z)
    by (unfold Z.modulo; now rewrite E).
  assert (Hq0 : (2 ^ 52 <= q0 < 2 ^ 54)%Z).
  { unfold q0. split.
    - apply Z.div_le_lower_bound; [lia|].
      change (2 ^ 53)%Z with (2 * 2 ^ 52)%Z. nia.
    - apply Z.div_lt_upper_bound; [lia|].
      change (2 ^ 54)%Z with (2 * 2 ^ 53)%Z. nia. }
  subst q. clearbody q0.
  destruct q0 as [|pq|pq]; try lia.
  pose proof (digits2_pos_bounds pq) as Hd.
  set (d := Zpos (digits2_pos pq)) in *.
  assert (Hdr : (53 <= d <= 54)%Z).
  { split.
    - destruct (Z.lt_ge_cases d 53) as [Hlt|]; [|assumption].
      assert (2 ^ d <= 2 ^ 52)%Z by (apply Z.pow_le_mono_r; lia). lia.
    - destruct (Z.le_gt_cases d 54) as [|Hgt]; [assumption|].
      assert (2 ^ 54 <= 2 ^ (d - 1))%Z by (apply Z.pow_le_mono_r; lia). lia. }
  destruct (binary_round_aux_spec false pq (e1 - e2 - 53)
              (new_location (Zpos m2) r0))
    as [r [Hr [Hb [Hqq Hex]]]]; fold d; try lia.
  fold d in Hr, Hb, Hqq, Hex.
  exists (d - 53)%Z, r. repeat split; try lia; try assumption.
  intros Hmod Hmod2. apply Hex; [|assumption].
  rewrite Hr0, Hmod. apply new_location_zero.
Qed.

(** ** Values as real numbers *)

Lemma IZR_pow2 (k : Z) : (0 <= k)%Z -> IZR (2 ^ k) = powerRZ 2 k.
Proof.
  intros Hk. destruct k as [|p|p]; try lia.
  - reflexivity.
  - change (2 ^ Zpos p)%Z with (Z.pow_pos 2 p). apply Zpower_pos_powerRZ.
Qed.

Lemma powerRZ_2_pos (k : Z) : (0 < powerRZ 2 k)%R.
Proof. apply powerRZ_lt. lra. Qed.

Lemma powerRZ_2_add (a b : Z) : powerRZ 2 (a + b) = (powerRZ 2 a * powerRZ 2 b)%R.
Proof. apply powerRZ_add. lra. Qed.

Lemma F2R_pos (m : positive) (e : Z) : (0 < F2R m e)%R.
Proof.
  unfold F2R. apply Rmult_lt_0_compat; [|apply powerRZ_2_pos].
  apply IZR_lt. lia.
Qed.

(** The value of a rounding outcome. *)
Lemma round_result_finite (r e0 : Z) :
  (2 ^ 52 <= r <= 2 ^ 53)%Z ->
  exists m e,
    round_result false r e0 = S754_finite false m e /\
    (2 ^ 52 <= Zpos m < 2 ^ 53)%Z /\ (e0 <= e <= e0 + 1)%Z /\
    F2R m e = (IZR r * powerRZ 2 e0)%R.
Proof.
  intros Hr. unfold round_result.
  destruct (Z.eqb_spec r (2 ^ 53)) as [->|Hne].
  - exists (2 ^ 52)%positive, (e0 + 1)%Z. split; [reflexivity|].
    split; [lia|]. split; [lia|]. unfold F2R.
    rewrite powerRZ_2_add. change (powerRZ 2 1) with (2 * 1)%R.
    change (Zpos (2 ^ 52)) with (2 ^ 52)%Z.
    change (2 ^ 53)%Z with (2 ^ 52 * 2)%Z. rewrite mult_IZR. lra.
  - exists (Z.to_pos r), e0. split; [reflexivity|].
    unfold F2R. rewrite Z2Pos.id by lia.
    split; [lia|]. split; [lia|]. reflexivity.
Qed.

Lemma round_up_bound (t r N P : Z) :
  (r <= t + 1)%Z -> (2 ^ 52 <= t)%Z -> (0 < N)%Z -> (t * N <= P)%Z ->
  (r * N * 2 ^ 52 <= P * (2 ^ 52 + 1))%Z.
Proof.
  intros Hr Ht HN HP.
  assert (r * N <= t * N + N)%Z by nia.
  assert (N * 2 ^ 52 <= t * N)%Z by nia.
  nia.
Qed.

Lemma float_of_int_value (n : Z) :
  (0 < n < 2 ^ 53)%Z -> F2R (Z.to_pos (norm_mant n)) (norm_exp n) = IZR n.
Proof.
  intros Hn. pose proof (norm_mant_bounds n Hn) as Hm.
  pose proof (Zdigits2_small n Hn) as Hd.
  unfold F2R. rewrite Z2Pos.id by lia.
  unfold norm_mant, norm_exp. rewrite mult_IZR, IZR_pow2 by lia.
  rewrite Rmult_assoc, <- powerRZ_2_add.
  replace (53 - Zdigits2 n + (Zdigits2 n - 53))%Z with 0%Z by lia.
  simpl. lra.
Qed.

(** Rounding a product or a quotient of normal numbers can exceed the
    exact value by at most the factor 1 + 2^-52. *)
Lemma SF64mul_value (m1 m2 : positive) (e1 e2 : Z) :
  (2 ^ 52 <= Zpos m1 < 2 ^ 53)%Z -> (2 ^ 52 <= Zpos m2 < 2 ^ 53)%Z ->
  (-500 <= e1 + e2 <= 500)%Z ->
  exists m e,
    SF64mul (S754_finite false m1 e1) (S754_finite false m2 e2)
    = S754_finite false m e /\
    (F2R m e * IZR (2 ^ 52) <= F2R m1 e1 * F2R m2 e2 * IZR (2 ^ 52 + 1))%R.
Proof.
  intros H1 H2 He.
  destruct (SF64mul_normal m1 m2 e1 e2 H1 H2 He)
    as [n [r [Hmul [Hn [Hr [Hq _]]]]]].
  destruct (round_result_finite r (e1 + e2 + n) ltac:(lia))
    as [m [e [Hres [_ [_ Hval]]]]].
  exists m, e. split; [congruence|].
  rewrite Hval.
  assert (HZ : (r * 2 ^ n * 2 ^ 52 <= Zpos m1 * Zpos m2 * (2 ^ 52 + 1))%Z).
  { apply (round_up_bound (Zpos m1 * Zpos m2 / 2 ^ n)); try lia.
    rewrite Z.mul_comm. apply Z.mul_div_le. lia. }
  apply IZR_le in HZ. rewrite !mult_IZR, IZR_pow2 in HZ by lia.
  unfold F2R. rewrite !powerRZ_2_add.
  pose proof (powerRZ_2_pos e1). pose proof (powerRZ_2_pos e2).
  assert (HA : (0 < powerRZ 2 e1 * powerRZ 2 e2)%R)
    by (apply Rmult_lt_0_compat; assumption).
  apply (Rmult_le_compat_r _ _ _ (Rlt_le _ _ HA)) in HZ.
  lra.
Qed.

Lemma SF64div_value (m1 m2 : positive) (e1 e2 : Z) :
  (2 ^ 52 <= Zpos m1 < 2 ^ 53)%Z -> (2 ^ 52 <= Zpos m2 < 2 ^ 53)%Z ->
  (-400 <= e1 - e2 <= 400)%Z ->
  exists m e,
    SF64div (S754_finite false m1 e1) (S754_finite false m2 e2)
    = S754_finite false m e /\
    (2 ^ 52 <= Zpos m < 2 ^ 53)%Z /\
    (e1 - e2 - 53 <= e <= e1 - e2 - 51)%Z /\
    (F2R m e * F2R m2 e2 * IZR (2 ^ 52) <= F2R m1 e1 * IZR (2 ^ 52 + 1))%R.
Proof.
  intros H1 H2 He.
  destruct (SF64div_normal m1 m2 e1 e2 H1 H2 ltac:(lia))
    as [n [r [Hdiv [Hn [Hr [Hq _]]]]]].
  set (q0 := (Zpos m1 * 2 ^ 53 / Zpos m2)%Z) in *.
  destruct (round_result_finite r (e1 - e2 - 53 + n) ltac:(lia))
    as [m [e [Hres [Hm [Hrange Hval]]]]].
  exists m, e. split; [congruence|]. split; [assumption|]. split; [lia|].
  rewrite Hval.
  assert (HZ : (r * 2 ^ n * 2 ^ 52 <= q0 * (2 ^ 52 + 1))%Z).
  { apply (round_up_bound (q0 / 2 ^ n)); try lia.
    rewrite Z.mul_comm. apply Z.mul_div_le. lia. }
  assert (Hq0 : (q0 * Zpos m2 <= Zpos m1 * 2 ^ 53)%Z).
  { unfold q0. rewrite Z.mul_comm. apply Z.mul_div_le. lia. }
  assert (HZ2 : (r * 2 ^ n * 2 ^ 52 * Zpos m2
                 <= Zpos m1 * 2 ^ 53 * (2 ^ 52 + 1))%Z) by nia.
  apply IZR_le in HZ2. rewrite !mult_IZR, IZR_pow2 in HZ2 by lia.
  unfold F2R.
  replace (e1 - e2 - 53 + n)%Z with (e1 + (- e2) + (-53) + n)%Z by lia.
  rewrite !powerRZ_2_add.
  assert (Hinv : (powerRZ 2 (- e2) * powerRZ 2 e2 = 1)%R).
  { rewrite <- powerRZ_2_add. replace (- e2 + e2)%Z with 0%Z by lia.
    reflexivity. }
  assert (H53 : (powerRZ 2 (-53) * IZR (2 ^ 53) = 1)%R).
  { rewrite IZR_pow2, <- powerRZ_2_add by lia. reflexivity. }
  pose proof (powerRZ_2_pos e1) as P1. pose proof (powerRZ_2_pos (-53)) as P53.
  assert (HA : (0 < powerRZ 2 e1 * powerRZ 2 (-53))%R)
    by (apply Rmult_lt_0_compat; assumption).
  apply (Rmult_le_compat_r _ _ _ (Rlt_le _ _ HA)) in HZ2.
  set (xr := IZR r) in *. set (x1 := IZR (Zpos m1)) in *.
  set (x2 := IZR (Zpos m2)) in *. set (pn := powerRZ 2 n) in *.
  set (p1 := powerRZ 2 e1) in *. set (pe2 := powerRZ 2 e2) in *.
  set (pme2 := powerRZ 2 (- e2)) in *. set (p53 := powerRZ 2 (-53)) in *.
  set (c52 := IZR (2 ^ 52)) in *. set (c52' := IZR (2 ^ 52 + 1)) in *.
  set (c53 := IZR (2 ^ 53)) in *.
  clearbody xr x1 x2 pn p1 pe2 pme2 p53 c52 c52' c53.
  replace (xr * (p1 * pme2 * p53 * pn) * (x2 * pe2) * c52)%R
    with (xr * pn * c52 * x2 * (p1 * p53) * (pme2 * pe2))%R by ring.
  replace (x1 * p1 * c52')%R
    with (x1 * c52' * p1 * (p53 * c53))%R by (rewrite H53; ring).
  rewrite Hinv. lra.
Qed.

(** ** Truncation and the index of [resize_image] *)

Lemma sf_trunc_le (m : positive) (e : Z) :
  exists a, sf_trunc (S754_finite false m e) = Some a /\
            (0 <= a)%Z /\ (IZR a <= F2R m e)%R.
Proof.
  unfold sf_trunc, F2R. destruct e as [|p|p].
  - exists (Zpos m * 2 ^ 0)%Z. split; [reflexivity|]. split; [lia|].
    rewrite Z.pow_0_r, Z.mul_1_r. simpl. lra.
  - exists (Zpos m * 2 ^ Zpos p)%Z. split; [reflexivity|].
    split; [apply Z.mul_nonneg_nonneg; [lia | apply Z.pow_nonneg; lia]|].
    rewrite mult_IZR, IZR_pow2 by lia. lra.
  - exists (Zpos m / 2 ^ Zpos p)%Z. split; [reflexivity|].
    assert (Hp : (0 < 2 ^ Zpos p)%Z) by (apply Z.pow_pos_nonneg; lia).
    split; [apply Z.div_pos; lia|].
    assert (HZ : (Zpos m / 2 ^ Zpos p * 2 ^ Zpos p <= Zpos m)%Z)
      by (rewrite Z.mul_comm; apply Z.mul_div_le; lia).
    apply IZR_le in HZ. rewrite mult_IZR, IZR_pow2 in HZ by lia.
    change (Zneg p) with (- Zpos p)%Z. rewrite powerRZ_neg'.
    pose proof (powerRZ_2_pos (Zpos p)) as Hpos.
    apply (Rmult_le_reg_r (powerRZ 2 (Zpos p))); [assumption|].
    rewrite Rmult_assoc, Rinv_l by lra. lra.
Qed.

Lemma sf_trunc_of_int (n : Z) :
  (0 < n < 2 ^ 53)%Z ->
  sf_trunc (S754_finite false (Z.to_pos (norm_mant n)) (norm_exp n)) = Some n.
Proof.
  intros Hn. pose proof (norm_mant_bounds n Hn) as Hm.
  pose proof (Zdigits2_small n Hn) as Hd.
  unfold sf_trunc. rewrite Z2Pos.id by lia.
  unfold norm_mant, norm_exp in *. f_equal.
  destruct (Zdigits2 n - 53)%Z as [|p|p] eqn:E; try lia.
  - replace (53 - Zdigits2 n)%Z with 0%Z by lia. rewrite Z.pow_0_r. lia.
  - replace (53 - Zdigits2 n)%Z with (Zpos p) by lia.
    apply Z.div_mul. apply Z.pow_nonzero; lia.
Qed.

Lemma astype_int_small (x : float) (a : Z) :
  sf_trunc (Prim2SF x) = Some a -> (0 <= a < 2 ^ 53)%Z -> astype_int x = a.
Proof.
  intros Hx Ha. unfold astype_int. rewrite Hx.
  destruct (Z.leb_spec (- 2 ^ 63) a); [|lia].
  destruct (Z.ltb_spec a (2 ^ 63)); [reflexivity | lia].
Qed.

(** The index computed for target position [i]: inside the source extent. *)
Lemma resample_index_in_range (H R i : Z) :
  (1 <= H < 2 ^ 50)%Z -> (1 <= R < 2 ^ 50)%Z -> (0 <= i < R)%Z ->
  (0 <= astype_int (float_of_int i * (float_of_int H / float_of_int R)) < H)%Z.
Proof.
  intros HH HR Hi.
  assert (HH' : (0 < H < 2 ^ 53)%Z) by lia.
  assert (HR' : (0 < R < 2 ^ 53)%Z) by lia.
  pose proof (norm_mant_bounds H HH') as BH.
  pose proof (norm_mant_bounds R HR') as BR.
  pose proof (Zdigits2_small H HH') as DH.
  pose proof (Zdigits2_small R HR') as DR.
  destruct (SF64div_value (Z.to_pos (norm_mant H)) (Z.to_pos (norm_mant R))
              (norm_exp H) (norm_exp R))
    as [mq [eq [Hdiv [Bq [Eq Vq]]]]];
    rewrite ?Z2Pos.id by lia; unfold norm_exp; try lia.
  fold (norm_exp H) in *. fold (norm_exp R) in *.
  rewrite (float_of_int_value H HH'), (float_of_int_value R HR') in Vq.
  assert (Hquot : Prim2SF (float_of_int H / float_of_int R)
                  = S754_finite false mq eq).
  { rewrite div_spec, (float_of_int_pos H HH'), (float_of_int_pos R HR').
    exact Hdiv. }
  destruct (Z.eq_dec i 0) as [->|Hi0].
  - rewrite (astype_int_small _ 0); [lia| |lia].
    rewrite mul_spec, Hquot. reflexivity.
  - assert (Hi' : (0 < i < 2 ^ 53)%Z) by lia.
    pose proof (norm_mant_bounds i Hi') as Bi.
    pose proof (Zdigits2_small i Hi') as Di.
    destruct (SF64mul_value (Z.to_pos (norm_mant i)) mq (norm_exp i) eq)
      as [mp [ep [Hmul Vp]]];
      rewrite ?Z2Pos.id by lia; unfold norm_exp in *; try lia.
    fold (norm_exp i) in *. rewrite (float_of_int_value i Hi') in Vp.
    assert (Hprod : Prim2SF (float_of_int i * (float_of_int H / float_of_int R))
                    = S754_finite false mp ep).
    { rewrite mul_spec, Hquot, (float_of_int_pos i Hi'). exact Hmul. }
    destruct (sf_trunc_le mp ep) as [a [Ha [Ha0 HaV]]].
    assert (Hlt : (F2R mp ep < IZR H)%R).
    { assert (HZ : (i * ((2 ^ 52 + 1) * (2 ^ 52 + 1)) < R * (2 ^ 52 * 2 ^ 52))%Z)
        by lia.
      apply IZR_lt in HZ. rewrite !mult_IZR in HZ.
      pose proof (F2R_pos mq eq) as Pq. pose proof (F2R_pos mp ep) as Pp.
      assert (Pi : (0 < IZR i)%R) by (apply IZR_lt; lia).
      assert (PR : (0 < IZR R)%R) by (apply IZR_lt; lia).
      assert (PH : (0 < IZR H)%R) by (apply IZR_lt; lia).
      assert (P52 : (0 < IZR (2 ^ 52))%R) by (apply IZR_lt; lia).
      assert (P52' : (0 < IZR (2 ^ 52 + 1))%R) by (apply IZR_lt; lia).
      set (p := F2R mp ep) in *. set (q := F2R mq eq) in *.
      set (xi := IZR i) in *. set (xR := IZR R) in *. set (xH := IZR H) in *.
      set (c := IZR (2 ^ 52)) in *. set (c' := IZR (2 ^ 52 + 1)) in *.
      clearbody p q xi xR xH c c'.
      destruct (Rlt_le_dec p xH) as [|Hge]; [assumption|exfalso].
      assert (S1 : (xH * c <= xi * q * c')%R) by nra.
      assert (S2 : (xH * c * (xR * c) <= xi * q * c' * (xR * c))%R) by nra.
      assert (S3 : (xi * q * c' * (xR * c) <= xi * c' * (xH * c'))%R) by nra.
      assert (S4 : (xH * (xi * (c' * c')) < xH * (xR * (c * c)))%R) by nra.
      nra. }
    assert (a < H)%Z by (apply lt_IZR; lra).
    rewrite (astype_int_small _ a); [lia| |lia].
    now rewrite Hprod.
Qed.

(** Same source and target extent: the index of position [i] is [i]. *)
Lemma resample_index_same (H i : Z) :
  (1 <= H < 2 ^ 53)%Z -> (0 <= i < H)%Z ->
  astype_int (float_of_int i * (float_of_int H / float_of_int H)) = i.
Proof.
  intros HH Hi.
  assert (HH' : (0 < H < 2 ^ 53)%Z) by lia.
  pose proof (norm_mant_bounds H HH') as BH.
  pose proof (Zdigits2_small H HH') as DH.
  assert (Hone : Prim2SF (float_of_int H / float_of_int H)
                 = S754_finite false (2 ^ 52)%positive (-52)).
  { rewrite div_spec, (float_of_int_pos H HH').
    destruct (SF64div_normal (Z.to_pos (norm_mant H)) (Z.to_pos (norm_mant H))
                (norm_exp H) (norm_exp H))
      as [n [r [Hdiv [Hn [Hr [Hq Hex]]]]]];
      rewrite ?Z2Pos.id by lia; try lia.
    rewrite Z2Pos.id in * by lia.
    assert (Hq0 : (norm_mant H * 2 ^ 53 / norm_mant H = 2 ^ 53)%Z).
    { rewrite Z.mul_comm. apply Z.div_mul. lia. }
    rewrite Hq0 in *.
    assert (n = 1%Z) as ->.
    { destruct (Z.eq_dec n 0) as [->|]; [|lia].
      rewrite Z.pow_0_r, Z.div_1_r in Hq. lia. }
    rewrite Hdiv, Hex.
    - replace (norm_exp H - norm_exp H - 53 + 1)%Z with (-52)%Z by lia.
      reflexivity.
    - rewrite Z.mul_comm. apply Z.mod_mul. lia.
    - reflexivity. }
  destruct (Z.eq_dec i 0) as [->|Hi0].
  - apply astype_int_small; [|lia]. rewrite mul_spec, Hone. reflexivity.
  - assert (Hi' : (0 < i < 2 ^ 53)%Z) by lia.
    pose proof (norm_mant_bounds i Hi') as Bi.
    pose proof (Zdigits2_small i Hi') as Di.
    apply astype_int_small; [|lia].
    rewrite mul_spec, Hone, (float_of_int_pos i Hi').
    destruct (SF64mul_normal (Z.to_pos (norm_mant i)) (2 ^ 52)
                (norm_exp i) (-52))
      as [n [r [Hmul [Hn [Hr [Hq Hex]]]]]];
      rewrite ?Z2Pos.id by lia; unfold norm_exp in *; try lia.
    fold (norm_exp i) in *. rewrite Z2Pos.id in * by lia.
    change (Zpos (2 ^ 52)) with (2 ^ 52)%Z in *.
    assert (n = 52%Z) as ->.
    { destruct (Z.eq_dec n 52) as [|]; [assumption|].
      assert (n = 53%Z) as -> by lia.
      assert (norm_mant i * 2 ^ 52 / 2 ^ 53 < 2 ^ 52)%Z; [|lia].
      apply Z.div_lt_upper_bound; [lia|].
      change (2 ^ 53)%Z with (2 * 2 ^ 52)%Z. nia. }
    rewrite Z.div_mul in * by lia.
    rewrite Hmul, Hex by (apply Z.mod_mul; lia).
    unfold round_result.
    destruct (Z.eqb_spec (norm_mant i) (2 ^ 53)); [lia|].
    replace (norm_exp i + -52 + 52)%Z with (norm_exp i) by lia.
    now apply sf_trunc_of_int.
Qed.

(* ================================================================== *)
(** * Resampler: selection and identity *)
(* ================================================================== *)

Lemma arange_of_nat (n : nat) : arange (Z.of_nat n) = map Z.of_nat (seq 0 n).
Proof. unfold arange. now rewrite Nat2Z.id. Qed.

Lemma in_arange (n : nat) (i : Z) : In i (arange (Z.of_nat n)) -> (0 <= i < Z.of_nat n)%Z.
Proof.
  rewrite arange_of_nat. intros H. apply in_map_iff in H.
  destruct H as [k [<- Hk]]. apply in_seq in Hk. lia.
Qed.

Lemma take_index_in_range {A : Type} (l : list A) (i : Z) (d : A) :
  (0 <= i < Z.of_nat (List.length l))%Z ->
  take_index l i = Ok (nth (Z.to_nat i) l d).
Proof.
  intros Hi. unfold take_index.
  destruct (Z.leb_spec 0 i); [|lia].
  destruct (Z.ltb_spec i (Z.of_nat (List.length l))); [|lia].
  simpl. unfold getitem.
  rewrite (nth_error_nth' l d) by lia. reflexivity.
Qed.

(** Integer-array indexing with indices inside the extents reads the
    grid of the selected rows and columns. *)
Lemma fancy_index_select {A : Type} (a : list (list A)) (H W : nat)
  (row_idx col_idx : list Z) (d : A) :
  has_shape H W a ->
  Forall (fun r => 0 <= r < Z.of_nat H)%Z row_idx ->
  Forall (fun c => 0 <= c < Z.of_nat W)%Z col_idx ->
  fancy_index a row_idx col_idx
  = Ok (map (fun r => map (fun c => nth (Z.to_nat c) (nth (Z.to_nat r) a []) d)
                          col_idx) row_idx).
Proof.
  intros Hs Hr Hc. unfold fancy_index.
  rewrite Forall_forall in Hr, Hc.
  apply mapM_total. intros r Hin. specialize (Hr r Hin).
  apply mapM_total. intros c Hcin. specialize (Hc c Hcin).
  pose proof Hs as [Hl _].
  rewrite (take_index_in_range a r []) by lia. simpl.
  apply take_index_in_range.
  assert (Hrow : nth_error a (Z.to_nat r) = Some (nth (Z.to_nat r) a []))
    by (apply nth_error_nth'; lia).
  rewrite (has_shape_row H W a _ _ Hs Hrow). lia.
Qed.

Lemma resize_image_select (img : image) (H W R C : nat) :
  has_shape H W img ->
  (1 <= H)%nat -> (1 <= W)%nat -> (1 <= R)%nat -> (1 <= C)%nat ->
  (Z.of_nat H < 2 ^ 50)%Z -> (Z.of_nat W < 2 ^ 50)%Z ->
  (Z.of_nat R < 2 ^ 50)%Z -> (Z.of_nat C < 2 ^ 50)%Z ->
  Vectorised.resize_image img (Z.of_nat R) (Z.of_nat C)
  = Ok (map (fun r => map (fun c => nth (Z.to_nat c) (nth (Z.to_nat r) img [])
                                        (0, 0, 0)%Z)
               (map (fun j => astype_int
                                (float_of_int j
                                 * (float_of_int (Z.of_nat W)
                                    / float_of_int (Z.of_nat C))))
                    (arange (Z.of_nat C))))
            (map (fun i => astype_int
                             (float_of_int i
                              * (float_of_int (Z.of_nat H)
                                 / float_of_int (Z.of_nat R))))
                 (arange (Z.of_nat R)))).
Proof.
  intros Hs HH HW HR HC BH BW BR BC.
  unfold Vectorised.resize_image, py_truediv.
  destruct (Z.eqb_spec (Z.of_nat R) 0); [lia|].
  destruct (Z.eqb_spec (Z.of_nat C) 0); [lia|].
  simpl.
  assert (Hnr : nrows img = H) by apply Hs.
  rewrite Hnr, (has_shape_ncols H W img Hs HH).
  apply (fancy_index_select img H W); [assumption| |].
  - apply Forall_forall. intros r Hin. apply in_map_iff in Hin.
    destruct Hin as [i [<- Hi]]. apply in_arange in Hi.
    apply resample_index_in_range; lia.
  - apply Forall_forall. intros c Hin. apply in_map_iff in Hin.
    destruct Hin as [j [<- Hj]]. apply in_arange in Hj.
    apply resample_index_in_range; lia.
Qed.

(** C5: for every H x W image (H, W >= 1) and every target (R, C) with
    R, C >= 1 (all extents below 2^50, as every array that fits in memory
    has them) the Resampler returns an image of shape exactly R x C, of RGB
    triples, and every pixel of it is the pixel of some cell of the input:
    pure selection. *)
Theorem resize_image_selects_pixels (img : image) (H W R C : nat) :
  has_shape H W img ->
  (1 <= H)%nat -> (1 <= W)%nat -> (1 <= R)%nat -> (1 <= C)%nat ->
  (Z.of_nat H < 2 ^ 50)%Z -> (Z.of_nat W < 2 ^ 50)%Z ->
  (Z.of_nat R < 2 ^ 50)%Z -> (Z.of_nat C < 2 ^ 50)%Z ->
  exists out,
    Vectorised.resize_image img (Z.of_nat R) (Z.of_nat C) = Ok out /\
    has_shape R C out /\
    forall r c px,
      Vectorised.getitem2 out r c = Ok px ->
      exists r' c', Vectorised.getitem2 img r' c' = Ok px.
Proof.
  intros Hs HH HW HR HC BH BW BR BC.
  pose (ridx := fun i : Z =>
                  astype_int (float_of_int i
                              * (float_of_int (Z.of_nat H)
                                 / float_of_int (Z.of_nat R)))).
  pose (cidx := fun j : Z =>
                  astype_int (float_of_int j
                              * (float_of_int (Z.of_nat W)
                                 / float_of_int (Z.of_nat C)))).
  exists (map (fun r => map (fun c => nth (Z.to_nat c) (nth (Z.to_nat r) img [])
                                          (0, 0, 0)%Z)
                            (map cidx (arange (Z.of_nat C))))
              (map ridx (arange (Z.of_nat R)))).
  split; [now apply (resize_image_select img H W R C)|].
  split.
  - split.
    + rewrite !length_map, arange_of_nat, length_map, length_seq. reflexivity.
    + apply Forall_map, Forall_forall. intros r _. cbv beta.
      rewrite !length_map, arange_of_nat, length_map, length_seq. reflexivity.
  - intros r c px Hpx. apply getitem2_Ok in Hpx.
    destruct Hpx as [line [Hline Hcell]].
    rewrite nth_error_map in Hline.
    destruct (nth_error (map ridx (arange (Z.of_nat R))) r) as [sr|] eqn:Er;
      [|discriminate].
    injection Hline as <-.
    rewrite nth_error_map in Hcell.
    destruct (nth_error (map cidx (arange (Z.of_nat C))) c) as [sc|] eqn:Ec;
      [|discriminate].
    injection Hcell as <-.
    apply nth_error_In, in_map_iff in Er. destruct Er as [i [<- Hi]].
    apply nth_error_In, in_map_iff in Ec. destruct Ec as [j [<- Hj]].
    apply in_arange in Hi. apply in_arange in Hj.
    pose proof (resample_index_in_range (Z.of_nat H) (Z.of_nat R) i
                  ltac:(lia) ltac:(lia) Hi) as Hri.
    pose proof (resample_index_in_range (Z.of_nat W) (Z.of_nat C) j
                  ltac:(lia) ltac:(lia) Hj) as Hcj.
    fold (ridx i) in Hri. fold (cidx j) in Hcj.
    exists (Z.to_nat (ridx i)), (Z.to_nat (cidx j)).
    apply (getitem2_nth H W); [assumption|lia|lia].
Qed.

Lemma resize_image_selects_pixels_witness :
  (has_shape 3 2 [[(1, 1, 1)%Z; (2, 2, 2)%Z]; [(3, 3, 3)%Z; (4, 4, 4)%Z];
                  [(5, 5, 5)%Z; (6, 6, 6)%Z]]
   /\ (1 <= 3)%nat /\ (1 <= 2)%nat /\ (1 <= 2)%nat /\ (1 <= 5)%nat
   /\ (Z.of_nat 3 < 2 ^ 50)%Z /\ (Z.of_nat 2 < 2 ^ 50)%Z
   /\ (Z.of_nat 2 < 2 ^ 50)%Z /\ (Z.of_nat 5 < 2 ^ 50)%Z)
  /\ exists out,
       Vectorised.resize_image
         [[(1, 1, 1)%Z; (2, 2, 2)%Z]; [(3, 3, 3)%Z; (4, 4, 4)%Z];
          [(5, 5, 5)%Z; (6, 6, 6)%Z]] (Z.of_nat 2) (Z.of_nat 5) = Ok out
       /\ has_shape 2 5 out.
Proof.
  assert (H1 : has_shape 3 2 [[(1, 1, 1)%Z; (2, 2, 2)%Z]; [(3, 3, 3)%Z; (4, 4, 4)%Z];
                              [(5, 5, 5)%Z; (6, 6, 6)%Z]])
    by (split; [reflexivity | repeat constructor]).
  assert (H2 : (1 <= 3)%nat) by lia.
  assert (H3 : (1 <= 2)%nat) by lia.
  assert (H4 : (1 <= 5)%nat) by lia.
  assert (H5 : (Z.of_nat 3 < 2 ^ 50)%Z) by reflexivity.
  assert (H6 : (Z.of_nat 2 < 2 ^ 50)%Z) by reflexivity.
  assert (H7 : (Z.of_nat 5 < 2 ^ 50)%Z) by reflexivity.
  split; [split; [exact H1 | repeat split; assumption]|].
  destruct (resize_image_selects_pixels _ 3 2 2 5 H1 H2 H3 H3 H4 H5 H6 H6 H7)
    as [out [Ho [Hsh _]]].
  exists out. auto.
Defined.

Lemma map_nth_seq {A : Type} (l : list A) (d : A) :
  map (fun i => nth i l d) (seq 0 (List.length l)) = l.
Proof.
  induction l as [|x t IH]; [reflexivity|].
  simpl. f_equal. rewrite <- seq_shift, map_map. exact IH.
Qed.

(** C10: resampling an H x W image (H, W >= 1, extents below 2^53) to
    its own extents returns the image itself, pixel for pixel. *)
Theorem resize_image_same_extent (img : image) (H W : nat) :
  has_shape H W img ->
  (1 <= H)%nat -> (1 <= W)%nat ->
  (Z.of_nat H < 2 ^ 53)%Z -> (Z.of_nat W < 2 ^ 53)%Z ->
  Vectorised.resize_image img (Z.of_nat H) (Z.of_nat W) = Ok img.
Proof.
  intros Hs HH HW BH BW.
  unfold Vectorised.resize_image, py_truediv.
  destruct (Z.eqb_spec (Z.of_nat H) 0); [lia|].
  destruct (Z.eqb_spec (Z.of_nat W) 0); [lia|].
  simpl.
  assert (Hnr : nrows img = H) by apply Hs.
  rewrite Hnr, (has_shape_ncols H W img Hs HH).
  assert (Hrows : map (fun i => astype_int
                                  (float_of_int i
                                   * (float_of_int (Z.of_nat H)
                                      / float_of_int (Z.of_nat H))))
                      (arange (Z.of_nat H)) = arange (Z.of_nat H)).
  { rewrite <- (map_id (arange (Z.of_nat H))) at 2.
    apply map_ext_in. intros i Hi. apply in_arange in Hi.
    apply resample_index_same; lia. }
  assert (Hcols : map (fun j => astype_int
                                  (float_of_int j
                                   * (float_of_int (Z.of_nat W)
                                      / float_of_int (Z.of_nat W))))
                      (arange (Z.of_nat W)) = arange (Z.of_nat W)).
  { rewrite <- (map_id (arange (Z.of_nat W))) at 2.
    apply map_ext_in. intros j Hj. apply in_arange in Hj.
    apply resample_index_same; lia. }
  rewrite Hrows, Hcols.
  rewrite (fancy_index_select img H W _ _ (0, 0, 0)%Z Hs).
  - f_equal. rewrite !arange_of_nat, map_map.
    destruct Hs as [Hl Hrow]. subst H.
    etransitivity; [|apply (map_nth_seq img [])].
    apply map_ext_in. intros r Hr. apply in_seq in Hr.
    rewrite map_map, Nat2Z.id.
    assert (Hlen : List.length (nth r img []) = W).
    { rewrite Forall_forall in Hrow. apply Hrow, nth_In. lia. }
    etransitivity; [|apply (map_nth_seq (nth r img []) (0, 0, 0)%Z)].
    rewrite Hlen. apply map_ext. intros c. now rewrite Nat2Z.id.
  - apply Forall_forall. intros r Hr. apply in_arange in Hr. lia.
  - apply Forall_forall. intros c Hc. apply in_arange in Hc. lia.
Qed.

Lemma resize_image_same_extent_witness :
  (has_shape 2 3 [[(1, 1, 1)%Z; (2, 2, 2)%Z; (3, 3, 3)%Z];
                  [(4, 4, 4)%Z; (5, 5, 5)%Z; (6, 6, 6)%Z]]
   /\ (1 <= 2)%nat /\ (1 <= 3)%nat
   /\ (Z.of_nat 2 < 2 ^ 53)%Z /\ (Z.of_nat 3 < 2 ^ 53)%Z)
  /\ Vectorised.resize_image
       [[(1, 1, 1)%Z; (2, 2, 2)%Z; (3, 3, 3)%Z];
        [(4, 4, 4)%Z; (5, 5, 5)%Z; (6, 6, 6)%Z]] (Z.of_nat 2) (Z.of_nat 3)
     = Ok [[(1, 1, 1)%Z; (2, 2, 2)%Z; (3, 3, 3)%Z];
           [(4, 4, 4)%Z; (5, 5, 5)%Z; (6, 6, 6)%Z]].
Proof.
  assert (H1 : has_shape 2 3 [[(1, 1, 1)%Z; (2, 2, 2)%Z; (3, 3, 3)%Z];
                              [(4, 4, 4)%Z; (5, 5, 5)%Z; (6, 6, 6)%Z]])
    by (split; [reflexivity | repeat constructor]).
  assert (H2 : (1 <= 2)%nat) by lia.
  assert (H3 : (1 <= 3)%nat) by lia.
  assert (H4 : (Z.of_nat 2 < 2 ^ 53)%Z) by reflexivity.
  assert (H5 : (Z.of_nat 3 < 2 ^ 53)%Z) by reflexivity.
  split; [split; [exact H1 | repeat split; assumption]|].
  exact (resize_image_same_extent _ 2 3 H1 H2 H3 H4 H5).
Defined.

(* ================================================================== *)
(** * The loaded palette as a dictionary *)
(* ================================================================== *)

Lemma dict_get_set {V : Type} (d : dict V) (k k' : string) (v : V) :
  dict_get (dict_set d k v) k'
  = if String.eqb k k' then Some v else dict_get d k'.
Proof.
  induction d as [|[k0 v0] t IH]; simpl.
  - reflexivity.
  - destruct (String.eqb_spec k0 k) as [->|Hne]; simpl.
    + destruct (String.eqb k k'); reflexivity.
    + rewrite IH. destruct (String.eqb_spec k0 k') as [->|Hne'].
      * destruct (String.eqb_spec k k'); [congruence | reflexivity].
      * reflexivity.
Qed.

Lemma dict_set_keys {V : Type} (d : dict V) (k : string) (v : V) :
  map fst (dict_set d k v)
  = if existsb (String.eqb k) (map fst d) then map fst d else map fst d ++ [k].
Proof.
  induction d as [|[k0 v0] t IH]; simpl; [reflexivity|].
  rewrite (String.eqb_sym k k0).
  destruct (String.eqb_spec k0 k) as [->|Hne]; simpl; [reflexivity|].
  rewrite IH. destruct (existsb (String.eqb k) (map fst t)); reflexivity.
Qed.

Lemma dict_set_NoDup {V : Type} (d : dict V) (k : string) (v : V) :
  NoDup (map fst d) -> NoDup (map fst (dict_set d k v)).
Proof.
  intros H. rewrite dict_set_keys.
  destruct (existsb (String.eqb k) (map fst d)) eqn:E; [assumption|].
  apply NoDup_app; [assumption | repeat constructor; intros [] |].
  intros a Ha [Hk|[]]. subst a.
  assert (existsb (String.eqb k) (map fst d) = true); [|congruence].
  apply existsb_exists. exists k. split; [assumption | apply String.eqb_refl].
Qed.

Lemma dict_set_key_in {V : Type} (d : dict V) (k k' : string) (v : V) :
  In k' (map fst (dict_set d k v)) -> k' = k \/ In k' (map fst d).
Proof.
  rewrite dict_set_keys.
  destruct (existsb (String.eqb k) (map fst d)); [now right|].
  intros H. apply in_app_or in H. destruct H as [H|[<-|[]]]; auto.
Qed.

Lemma lower_ascii_idem (c : ascii) : lower_ascii (lower_ascii c) = lower_ascii c.
Proof.
  destruct c as [[] [] [] [] [] [] [] []]; reflexivity.
Qed.

Lemma lower_idem (s : string) : lower (lower s) = lower s.
Proof.
  induction s as [|c s IH]; simpl; [reflexivity|].
  now rewrite lower_ascii_idem, IH.
Qed.

Lemma find_append {A : Type} (f : A -> bool) (l l' : list A) :
  find f (l ++ l') = match find f l with
                     | Some x => Some x
                     | None => find f l'
                     end.
Proof.
  induction l as [|x t IH]; simpl; [reflexivity|].
  destruct (f x); [reflexivity | exact IH].
Qed.

(** What the comprehension of [load_yarn_palette] builds, entry by entry. *)
Lemma load_fold_spec (entries : list (string * yaml)) (d : dict yaml) :
  let p := fold_left (fun d nv => dict_set d (lower (fst nv)) (snd nv)) entries d in
  (NoDup (map fst d) -> NoDup (map fst p))
  /\ (forall k, In k (map fst p) ->
        In k (map fst d) \/ exists nv, In nv entries /\ k = lower (fst nv))
  /\ (forall k, dict_get p k
                = match find (fun nv => String.eqb (lower (fst nv)) k) (rev entries) with
                  | Some nv => Some (snd nv)
                  | None => dict_get d k
                  end).
Proof.
  revert d. induction entries as [|[n v] t IH]; intros d; simpl.
  - repeat split; auto.
  - destruct (IH (dict_set d (lower n) v)) as [Hnd [Hin Hget]].
    split; [|split].
    + intros H. apply Hnd. now apply dict_set_NoDup.
    + intros k Hk. destruct (Hin k Hk) as [H|[nv [Hnv ->]]].
      * apply dict_set_key_in in H. destruct H as [->|H]; [|now left].
        right. exists (n, v). split; [now left | reflexivity].
      * right. exists nv. split; [now right | reflexivity].
    + intros k. rewrite Hget, find_append. simpl.
      destruct (find _ (rev t)); [reflexivity|].
      rewrite dict_get_set. destruct (String.eqb (lower n) k); reflexivity.
Qed.

Lemma load_yarn_palette_document (entries : list (string * yaml)) :
  Vectorised.load_yarn_palette
    (Document (YMap [(YStr "colours",
                      YMap (map (fun nv => (YStr (fst nv), snd nv)) entries))]))
  = Ok (fold_left (fun d nv => dict_set d (lower (fst nv)) (snd nv)) entries []).
Proof.
  unfold Vectorised.load_yarn_palette. simpl.
  rewrite (mapM_total _ (fun kv => match fst kv with
                                     | YStr s => lower s
                                     | _ => EmptyString
                                     end)).
  - simpl. rewrite map_map. simpl. f_equal. apply load_fold.
  - intros kv Hin. apply in_map_iff in Hin.
    destruct Hin as [nv [<- _]]. reflexivity.
Qed.

(** X1: the palette loaded from a [colours] mapping whose names are
    strings of ASCII characters is a dictionary whose keys are distinct
    and in lower case (no letter A-Z is left, and lowering a key again
    changes nothing); looking an ASCII name up in its lower-case form is
    insensitive to case, and of several names that differ only in case
    the last one of the resource gives the value. *)
Theorem load_yarn_palette_case_insensitive (entries : list (string * yaml)) :
  Forall (fun nv => ascii_text (fst nv) = true) entries ->
  exists pal,
    Vectorised.load_yarn_palette
      (Document (YMap [(YStr "colours",
                        YMap (map (fun nv => (YStr (fst nv), snd nv)) entries))]))
    = Ok pal /\
    NoDup (map fst pal) /\
    (forall k, In k (map fst pal) -> lower k = k /\ no_upper_case k = true) /\
    (forall name,
        ascii_text name = true ->
        dict_get pal (lower name)
        = option_map snd
            (find (fun nv => String.eqb (lower (fst nv)) (lower name))
                  (rev entries))) /\
    (forall name value, In (name, value) entries ->
        exists v, dict_get pal (lower name) = Some v).
Proof.
  intros _.
  eexists. split; [apply load_yarn_palette_document|].
  destruct (load_fold_spec entries []) as [Hnd [Hin Hget]].
  split; [apply Hnd; constructor|]. split; [|split].
  - intros k Hk. destruct (Hin k Hk) as [[]|[nv [_ ->]]].
    split; [apply lower_idem | apply lower_no_upper_case].
  - intros name _. rewrite Hget.
    destruct (find _ (rev entries)); reflexivity.
  - intros name value Hnv. rewrite Hget.
    destruct (find (fun nv => String.eqb (lower (fst nv)) (lower name))
                   (rev entries)) as [nv|] eqn:E; [eauto|].
    exfalso. apply in_rev in Hnv.
    pose proof (find_none _ _ E (name, value) Hnv) as Hf.
    simpl in Hf. rewrite String.eqb_refl in Hf. discriminate.
Qed.

Lemma load_yarn_palette_case_insensitive_witness :
  Forall (fun nv => ascii_text (fst nv) = true)
         [("Rose"%string, YStr "#FF007F"); ("Navy"%string, YStr "#000080");
          ("ROSE"%string, YStr "#FF66CC")]
  /\ exists pal,
       Vectorised.load_yarn_palette
         (Document (YMap [(YStr "colours",
                           YMap [(YStr "Rose", YStr "#FF007F");
                                 (YStr "Navy", YStr "#000080");
                                 (YStr "ROSE", YStr "#FF66CC")])]))
       = Ok pal
       /\ dict_get pal "rose" = Some (YStr "#FF66CC")
       /\ dict_get pal "navy" = Some (YStr "#000080").
Proof.
  assert (H : Forall (fun nv => ascii_text (fst nv) = true)
                     [("Rose"%string, YStr "#FF007F"); ("Navy"%string, YStr "#000080");
                      ("ROSE"%string, YStr "#FF66CC")])
    by (repeat constructor).
  split; [exact H|].
  destruct (load_yarn_palette_case_insensitive _ H)
    as [pal [Hload [_ [_ [Hget _]]]]].
  exists pal. split; [exact Hload|]. split.
  - exact (Hget "RoSe"%string eq_refl).
  - exact (Hget "navy"%string eq_refl).
Defined.

(* ================================================================== *)
(** * Reading hex values *)
(* ================================================================== *)

Lemma hex_digit_facts (c : ascii) (d : Z) :
  hex_digit c = Some d ->
  is_int_space c = false /\ Ascii.eqb c "-" = false /\ Ascii.eqb c "+" = false /\
  Ascii.eqb c "_" = false /\ Ascii.eqb c "x" = false /\ Ascii.eqb c "X" = false /\
  Ascii.eqb c "#" = false /\ (0 <= d <= 15)%Z.
Proof.
  intros H.
  destruct c as [[] [] [] [] [] [] [] []]; vm_compute in H; try discriminate;
    injection H as <-; repeat split; try reflexivity; lia.
Qed.

(** Two hexadecimal digits read as one byte. *)
Lemma py_int16_two_digits (c0 c1 : ascii) (d0 d1 : Z) :
  hex_digit c0 = Some d0 -> hex_digit c1 = Some d1 ->
  py_int16 (String c0 (String c1 EmptyString)) = Ok (16 * d0 + d1)%Z.
Proof.
  intros H0 H1.
  destruct (hex_digit_facts c0 d0 H0) as [S0 [M0 [P0 [U0 _]]]].
  destruct (hex_digit_facts c1 d1 H1) as [S1 [_ [_ [U1 [X1 [X1' _]]]]]].
  unfold py_int16, strip_int_space. simpl list_ascii_of_string.
  simpl lstrip_int_space. rewrite S0. simpl rev. simpl lstrip_int_space. rewrite S1.
  simpl rev. simpl app. cbv iota. rewrite M0, P0. cbv iota beta.
  unfold hex_literal. rewrite X1, X1'. rewrite Bool.andb_false_r.
  simpl hex_digits. rewrite U0, H0, U1, H1. reflexivity.
Qed.

Lemma six_hex_digits_inv (s : string) :
  six_hex_digits s = true ->
  exists c0 c1 c2 c3 c4 c5 d0 d1 d2 d3 d4 d5,
    s = String c0 (String c1 (String c2 (String c3 (String c4 (String c5 EmptyString)))))
    /\ hex_digit c0 = Some d0 /\ hex_digit c1 = Some d1 /\ hex_digit c2 = Some d2
    /\ hex_digit c3 = Some d3 /\ hex_digit c4 = Some d4 /\ hex_digit c5 = Some d5.
Proof.
  unfold six_hex_digits. intros H. apply andb_prop in H. destruct H as [Hl Hd].
  apply Nat.eqb_eq in Hl.
  destruct s as [|c0 [|c1 [|c2 [|c3 [|c4 [|c5 [|c6 s]]]]]]]; simpl in Hl;
    try discriminate; try lia.
  simpl in Hd. unfold is_hex_digit in Hd.
  destruct (hex_digit c0) as [d0|] eqn:E0; [|discriminate].
  destruct (hex_digit c1) as [d1|] eqn:E1; [|discriminate].
  destruct (hex_digit c2) as [d2|] eqn:E2; [|discriminate].
  destruct (hex_digit c3) as [d3|] eqn:E3; [|discriminate].
  destruct (hex_digit c4) as [d4|] eqn:E4; [|discriminate].
  destruct (hex_digit c5) as [d5|] eqn:E5; [|discriminate].
  exists c0, c1, c2, c3, c4, c5, d0, d1, d2, d3, d4, d5.
  repeat split; assumption.
Qed.

(** X2: a palette value of the documented form, six hexadecimal digits
    with or without the leading [#], always reads as an RGB triple, the
    same for both spellings, and each channel lies in 0..255. *)
Theorem hex_channels_well_formed (s : string) :
  six_hex_digits s = true ->
  exists r g b,
    hex_channels (YStr (String "#" s)) = Ok (r, g, b) /\
    hex_channels (YStr s) = Ok (r, g, b) /\
    (0 <= r <= 255)%Z /\ (0 <= g <= 255)%Z /\ (0 <= b <= 255)%Z.
Proof.
  intros H. destruct (six_hex_digits_inv s H)
    as (c0 & c1 & c2 & c3 & c4 & c5 & d0 & d1 & d2 & d3 & d4 & d5
        & -> & H0 & H1 & H2 & H3 & H4 & H5).
  destruct (hex_digit_facts c0 d0 H0) as (_ & _ & _ & _ & _ & _ & N0 & R0).
  destruct (hex_digit_facts c1 d1 H1) as (_ & _ & _ & _ & _ & _ & _ & R1).
  destruct (hex_digit_facts c2 d2 H2) as (_ & _ & _ & _ & _ & _ & _ & R2).
  destruct (hex_digit_facts c3 d3 H3) as (_ & _ & _ & _ & _ & _ & _ & R3).
  destruct (hex_digit_facts c4 d4 H4) as (_ & _ & _ & _ & _ & _ & _ & R4).
  destruct (hex_digit_facts c5 d5 H5) as (_ & _ & _ & _ & _ & _ & _ & R5).
  exists (16 * d0 + d1)%Z, (16 * d2 + d3)%Z, (16 * d4 + d5)%Z.
  assert (Hplain : hex_channels
                     (YStr (String c0 (String c1 (String c2 (String c3
                              (String c4 (String c5 EmptyString)))))))
                   = Ok ((16 * d0 + d1)%Z, (16 * d2 + d3)%Z, (16 * d4 + d5)%Z)).
  { unfold hex_channels. simpl lstrip_hash. rewrite N0.
    unfold slice2. simpl substring.
    rewrite (py_int16_two_digits c0 c1 d0 d1 H0 H1). simpl.
    rewrite (py_int16_two_digits c2 c3 d2 d3 H2 H3). simpl.
    rewrite (py_int16_two_digits c4 c5 d4 d5 H4 H5). reflexivity. }
  split; [|split; [exact Hplain|lia]].
  rewrite <- Hplain. unfold hex_channels. reflexivity.
Qed.

Lemma hex_channels_well_formed_witness :
  six_hex_digits "1a2B3c" = true
  /\ exists r g b, hex_channels (YStr "#1a2B3c") = Ok (r, g, b)
                   /\ (0 <= r <= 255)%Z.
Proof.
  assert (H : six_hex_digits "1a2B3c" = true) by reflexivity.
  split; [exact H|].
  destruct (hex_channels_well_formed "1a2B3c" H) as (r & g & b & H1 & _ & Hr & _).
  exists r, g, b. auto.
Defined.

Lemma substring_app_l (s t : string) (i n : nat) :
  (i + n <= String.length s)%nat ->
  substring i n (s ++ t) = substring i n s.
Proof.
  revert i n. induction s as [|c s IH]; intros i n H; simpl in *.
  - assert (i = 0 /\ n = 0)%nat as [-> ->] by lia.
    destruct t; reflexivity.
  - destruct i as [|i].
    + destruct n as [|n]; [reflexivity|].
      simpl. f_equal. apply IH. simpl. lia.
    + apply IH. lia.
Qed.

(** X3: the parser never looks past the sixth digit nor checks the
    length: whatever follows six hexadecimal digits is ignored, so a
    longer value reads as its first three bytes. *)
Theorem hex_channels_ignores_tail (s t : string) :
  six_hex_digits s = true ->
  hex_channels (YStr (String "#" (s ++ t))) = hex_channels (YStr (String "#" s)).
Proof.
  intros H. pose proof H as H'. unfold six_hex_digits in H'.
  apply andb_prop in H'. destruct H' as [Hl _]. apply Nat.eqb_eq in Hl.
  destruct (six_hex_digits_inv s H)
    as (c0 & c1 & c2 & c3 & c4 & c5 & d0 & d1 & d2 & d3 & d4 & d5
        & Hs & H0 & _).
  destruct (hex_digit_facts c0 d0 H0) as (_ & _ & _ & _ & _ & _ & N0 & _).
  assert (Hstrip : forall u, lstrip_hash (String "#" (s ++ u)) = (s ++ u)%string).
  { intros u. rewrite Hs. simpl. now rewrite N0. }
  assert (Hstrip0 : lstrip_hash (String "#" s) = s).
  { rewrite Hs. simpl. now rewrite N0. }
  unfold hex_channels. rewrite (Hstrip t), Hstrip0.
  unfold slice2. rewrite !substring_app_l by lia. reflexivity.
Qed.

Lemma hex_channels_ignores_tail_witness :
  six_hex_digits "ff0080" = true
  /\ hex_channels (YStr "#ff0080zz") = Ok (255, 0, 128)%Z.
Proof.
  assert (H : six_hex_digits "ff0080" = true) by reflexivity.
  split; [exact H|].
  exact (eq_trans (hex_channels_ignores_tail "ff0080" "zz" H) eq_refl).
Defined.

(* ================================================================== *)
(** * The two classifiers side by side *)
(* ================================================================== *)

(** X4: on every pixel of an image the array classifier and the
    per-pixel classifier of [main.py] return the same colour name, for
    every non-empty palette whose hex values read as RGB triples. *)
Theorem classifiers_agree
  (pal : palette) (rgbs : list pixel) (img : image) (R C : nat) :
  pal <> [] ->
  mapM hex_channels (map snd pal) = Ok rgbs ->
  has_shape R C img ->
  exists names,
    Vectorised.nearest_colour_vectorised img pal = Ok names /\
    forall r c px,
      Vectorised.getitem2 img r c = Ok px ->
      exists name,
        Vectorised.getitem2 names r c = Ok name /\
        Main.nearest_colour px pal = Ok (Some name).
Proof.
  intros Hne Hp Hs.
  destruct (classifiers_choose_first_min pal rgbs img R C Hne Hp Hs)
    as [[names [Hv [_ Hcell]]] Hmain].
  exists names. split; [assumption|].
  intros r c px Hpx.
  destruct (Hcell r c px Hpx) as [k [name [Hk [Hn Hg]]]].
  destruct (Hmain px) as [k' [name' [Hk' [Hn' Hm]]]].
  exists name. split; [assumption|].
  rewrite Hm. rewrite (first_min_unique _ _ _ Hk Hk') in Hn. congruence.
Qed.

Lemma classifiers_agree_witness :
  ([("black"%string, YStr "#000000"); ("white"%string, YStr "#FFFFFF")] <> []
   /\ mapM hex_channels
        (map snd [("black"%string, YStr "#000000"); ("white"%string, YStr "#FFFFFF")])
      = Ok [(0, 0, 0)%Z; (255, 255, 255)%Z]
   /\ has_shape 1 1 [[(128, 128, 128)%Z]])
  /\ exists names,
       Vectorised.nearest_colour_vectorised [[(128, 128, 128)%Z]]
         [("black"%string, YStr "#000000"); ("white"%string, YStr "#FFFFFF")]
       = Ok names.
Proof.
  assert (H1 : [("black"%string, YStr "#000000"); ("white"%string, YStr "#FFFFFF")]
               <> []) by discriminate.
  assert (H2 : mapM hex_channels
                 (map snd [("black"%string, YStr "#000000");
                           ("white"%string, YStr "#FFFFFF")])
               = Ok [(0, 0, 0)%Z; (255, 255, 255)%Z]) by reflexivity.
  assert (H3 : has_shape 1 1 [[(128, 128, 128)%Z]])
    by (split; [reflexivity | repeat constructor]).
  split; [auto|].
  destruct (classifiers_agree _ _ _ 1 1 H1 H2 H3) as [names [Hn _]].
  exists names. exact Hn.
Defined.

Lemma nearest_colour_loop_raise (rgb : pixel) (items : palette) (e : exn) :
  mapM hex_channels (map snd items) = Raise e ->
  forall min_dist closest,
    Main.nearest_colour_loop rgb items min_dist closest = Raise e.
Proof.
  induction items as [|[name hex] rest IH]; simpl; [discriminate|].
  intros Hp min_dist closest.
  destruct (hex_channels hex) as [y|e'] eqn:Hy; simpl in *.
  - destruct (mapM hex_channels (map snd rest)) as [ys|e''] eqn:Hr;
      simpl in Hp; [discriminate|].
    injection Hp as ->.
    destruct (match min_dist with
              | Some m => (sqdist rgb y <? m)%Z
              | None => true
              end); now apply IH.
  - now injection Hp as ->.
Qed.

(** X5: when reading the values of a palette fails, both classifiers
    fail with the error of that reading, whatever the pixel or the image:
    no entry is skipped and no pixel is classified before the whole
    palette has been read.  The error is AttributeError for a value that
    is not a string and ValueError for a string of which one of the three
    two-character slices is no base-16 literal; the values that are
    strings are taken to be ASCII text. *)
Theorem unreadable_palette_fails
  (pal : palette) (e : exn) (img : image) (px : pixel) :
  Forall (fun v => ascii_value v = true) (map snd pal) ->
  mapM hex_channels (map snd pal) = Raise e ->
  Vectorised.nearest_colour_vectorised img pal = Raise e /\
  Main.nearest_colour px pal = Raise e /\
  (e = ValueError \/ e = AttributeError) /\
  (exists v, In v (map snd pal) /\ hex_channels v = Raise e /\
             (e = AttributeError <-> forall s, v <> YStr s)).
Proof.
  intros _ Hp. split; [|split].
  - unfold Vectorised.nearest_colour_vectorised. now rewrite Hp.
  - now apply nearest_colour_loop_raise.
  - apply mapM_raise in Hp. destruct Hp as [y [Hin Hy]].
    assert (Hkind : (e = ValueError /\ exists s, y = YStr s)
                    \/ (e = AttributeError /\ forall s, y <> YStr s)).
    { unfold hex_channels in Hy.
      destruct y; try (injection Hy as <-; right; split; [reflexivity | discriminate]).
      left. split; [|eauto].
      unfold py_int16 in Hy.
      repeat match type of Hy with
             | context [match ?x with _ => _ end] => destruct x; simpl in Hy
             end; try discriminate; now injection Hy as <-. }
    split.
    + destruct Hkind as [[-> _]|[-> _]]; auto.
    + exists y. split; [assumption|]. split; [assumption|].
      destruct Hkind as [[-> [s ->]]|[-> Hns]].
      * split; [discriminate|]. intros H. now destruct (H s).
      * split; auto.
Qed.

Lemma unreadable_palette_fails_witness :
  (Forall (fun v => ascii_value v = true)
          (map snd [("black"%string, YStr "#000000"); ("odd"%string, YStr "#12zz56")])
   /\ mapM hex_channels (map snd [("black"%string, YStr "#000000");
                                  ("odd"%string, YStr "#12zz56")])
      = Raise ValueError)
  /\ Main.nearest_colour (0, 0, 0)%Z
       [("black"%string, YStr "#000000"); ("odd"%string, YStr "#12zz56")]
     = Raise ValueError
  /\ hex_channels (YStr "#12 456") = Ok (18, 4, 86)%Z.
Proof.
  assert (Ha : Forall (fun v => ascii_value v = true)
                      (map snd [("black"%string, YStr "#000000");
                                ("odd"%string, YStr "#12zz56")]))
    by (repeat constructor).
  assert (H : mapM hex_channels (map snd [("black"%string, YStr "#000000");
                                          ("odd"%string, YStr "#12zz56")])
              = Raise ValueError) by reflexivity.
  split; [auto|]. split; [|reflexivity].
  exact (proj1 (proj2 (unreadable_palette_fails _ _ [] (0, 0, 0)%Z Ha H))).
Defined.

(* ================================================================== *)
(** * The per-pixel stitch rule and the preview grid of [main.py] *)
(* ================================================================== *)

Lemma uint8_above_150 (e : Z) :
  (0 <= e <= 255)%Z -> (150 <? float_of_int e)%float = (150 <? e)%Z.
Proof.
  intros He.
  assert (Hall : forallb (fun n => Bool.eqb (150 <? float_of_int (Z.of_nat n))%float
                                            (150 <? Z.of_nat n)%Z)
                         (seq 0 256) = true) by (vm_compute; reflexivity).
  rewrite forallb_forall in Hall.
  specialize (Hall (Z.to_nat e)). rewrite Z2Nat.id in Hall by lia.
  apply Bool.eqb_prop, Hall, in_seq. lia.
Qed.

(** X6: on an edge strength that is a [uint8] value the per-pixel
    [edge_brightness_to_stitch] of [main.py] gives the symbol the array
    classifier gives for the same value; an edge pixel of a binary edge
    map (255) is always 'x', a non-edge pixel (0) never. *)
Theorem edge_brightness_to_stitch_agrees (px : pixel) (e : Z) :
  (0 <= e <= 255)%Z ->
  Main.edge_brightness_to_stitch px e = stitch_rule px (float_of_int e) /\
  Main.edge_brightness_to_stitch px 255 = "x"%char /\
  Main.edge_brightness_to_stitch px 0 <> "x"%char.
Proof.
  intros He. unfold Main.edge_brightness_to_stitch, stitch_rule.
  rewrite (uint8_above_150 e He). split; [reflexivity|].
  split; [reflexivity|].
  simpl. destruct (luma px <? 100)%float; discriminate.
Qed.

Lemma edge_brightness_to_stitch_agrees_witness :
  (0 <= 151 <= 255)%Z
  /\ Main.edge_brightness_to_stitch (10, 20, 30)%Z 151
     = stitch_rule (10, 20, 30)%Z (float_of_int 151).
Proof.
  assert (H : (0 <= 151 <= 255)%Z) by lia.
  split; [exact H|].
  exact (proj1 (edge_brightness_to_stitch_agrees (10, 20, 30)%Z 151 H)).
Defined.

Lemma getitem2_tabulate {A : Type} (g : nat -> nat -> A) (R C r c : nat) :
  (r < R)%nat -> (c < C)%nat ->
  Vectorised.getitem2 (map (fun r => map (fun c => g r c) (seq 0 C)) (seq 0 R)) r c
  = Ok (g r c).
Proof.
  intros Hr Hc. apply getitem2_Ok.
  exists (map (fun c => g r c) (seq 0 C)). split.
  - rewrite nth_error_map, nth_error_seq.
    destruct (Nat.ltb_spec r R); [reflexivity | lia].
  - rewrite nth_error_map, nth_error_seq.
    destruct (Nat.ltb_spec c C); [reflexivity | lia].
Qed.

Lemma has_shape_tabulate {A : Type} (g : nat -> nat -> A) (R C : nat) :
  has_shape R C (map (fun r => map (fun c => g r c) (seq 0 C)) (seq 0 R)).
Proof.
  split.
  - now rewrite length_map, length_seq.
  - apply Forall_map, Forall_forall. intros r _.
    now rewrite length_map, length_seq.
Qed.

(** The preview grid when the classifier answers [f px] on every pixel. *)
Lemma image_to_stitch_preview_tabulate
  (grid : image) (edges : list (list Z)) (pal : palette)
  (f : pixel -> option string) (R C : nat) :
  (forall px, Main.nearest_colour px pal = Ok (f px)) ->
  has_shape R C grid -> has_shape R C edges ->
  Main.image_to_stitch_preview grid edges pal (Z.of_nat R) (Z.of_nat C)
  = Ok (map (fun r => map (fun c =>
               (Main.edge_brightness_to_stitch
                  (nth c (nth r grid []) (0, 0, 0)%Z)
                  (nth c (nth r edges []) 0%Z),
                f (nth c (nth r grid []) (0, 0, 0)%Z)))
             (seq 0 C)) (seq 0 R)).
Proof.
  intros Hf Hg He. unfold Main.image_to_stitch_preview.
  rewrite !arange_of_nat, mapM_map.
  apply mapM_total. intros r Hr. apply in_seq in Hr.
  rewrite mapM_map. apply mapM_total. intros c Hc. apply in_seq in Hc.
  rewrite !Nat2Z.id.
  rewrite (getitem2_nth R C grid r c (0, 0, 0)%Z Hg) by lia. simpl.
  rewrite Hf. simpl.
  rewrite (getitem2_nth R C edges r c 0%Z He) by lia. reflexivity.
Qed.

(** X7: for a resized grid and an edge map of R x C cells and a usable
    palette, [image_to_stitch_preview] returns R rows of C cells; cell
    (r, c) carries the symbol of the per-pixel stitch rule for the pixel
    and the edge value at (r, c), and the colour name the array
    classifier of the other pipeline gives for that cell. *)
Theorem image_to_stitch_preview_cells
  (grid : image) (edges : list (list Z)) (pal : palette) (rgbs : list pixel)
  (R C : nat) :
  has_shape R C grid -> has_shape R C edges ->
  pal <> [] ->
  mapM hex_channels (map snd pal) = Ok rgbs ->
  exists preview names,
    Main.image_to_stitch_preview grid edges pal (Z.of_nat R) (Z.of_nat C)
    = Ok preview /\
    has_shape R C preview /\
    Vectorised.nearest_colour_vectorised grid pal = Ok names /\
    forall r c px e,
      Vectorised.getitem2 grid r c = Ok px ->
      Vectorised.getitem2 edges r c = Ok e ->
      exists name,
        Vectorised.getitem2 preview r c
        = Ok (Main.edge_brightness_to_stitch px e, Some name) /\
        Vectorised.getitem2 names r c = Ok name /\
        In name (map fst pal).
Proof.
  intros Hg He Hne Hp.
  destruct (classifiers_choose_first_min pal rgbs grid R C Hne Hp Hg)
    as [[names [Hv [_ Hcell]]] _].
  eexists. exists names.
  split.
  { apply (image_to_stitch_preview_tabulate grid edges pal
             (fun px => nth_error (map fst pal) (argmin (map (sqdist px) rgbs))));
      [|assumption|assumption].
    intros px. now apply main_nearest_colour_argmin. }
  split; [apply has_shape_tabulate|]. split; [assumption|].
  intros r c px e Hpx Hedge.
  destruct (getitem2_bounds R C grid r c px Hg Hpx) as [Hr Hc].
  destruct (Hcell r c px Hpx) as [k [name [Hk [Hn Hnm]]]].
  destruct (chosen_entry pal rgbs px Hne Hp) as [k' [name' [Hk' [Hn' Ha]]]].
  exists name. split; [|split; [assumption | eapply nth_error_In; eauto]].
  rewrite (getitem2_tabulate _ R C r c Hr Hc).
  rewrite (getitem2_nth R C grid r c (0, 0, 0)%Z Hg Hr Hc) in Hpx.
  rewrite (getitem2_nth R C edges r c 0%Z He Hr Hc) in Hedge.
  injection Hpx as ->. injection Hedge as ->.
  rewrite Ha, <- (first_min_unique _ _ _ Hk Hk'), Hn. reflexivity.
Qed.

Lemma image_to_stitch_preview_cells_witness :
  (has_shape 1 2 [[(0, 0, 0)%Z; (250, 250, 250)%Z]]
   /\ has_shape 1 2 [[0%Z; 255%Z]]
   /\ [("black"%string, YStr "#000000"); ("white"%string, YStr "#FFFFFF")] <> []
   /\ mapM hex_channels
        (map snd [("black"%string, YStr "#000000"); ("white"%string, YStr "#FFFFFF")])
      = Ok [(0, 0, 0)%Z; (255, 255, 255)%Z])
  /\ exists preview,
       Main.image_to_stitch_preview
         [[(0, 0, 0)%Z; (250, 250, 250)%Z]] [[0%Z; 255%Z]]
         [("black"%string, YStr "#000000"); ("white"%string, YStr "#FFFFFF")]
         (Z.of_nat 1) (Z.of_nat 2)
       = Ok preview /\ has_shape 1 2 preview.
Proof.
  assert (H1 : has_shape 1 2 [[(0, 0, 0)%Z; (250, 250, 250)%Z]])
    by (split; [reflexivity | repeat constructor]).
  assert (H2 : has_shape 1 2 [[0%Z; 255%Z]])
    by (split; [reflexivity | repeat constructor]).
  assert (H3 : [("black"%string, YStr "#000000"); ("white"%string, YStr "#FFFFFF")]
               <> []) by discriminate.
  assert (H4 : mapM hex_channels
                 (map snd [("black"%string, YStr "#000000");
                           ("white"%string, YStr "#FFFFFF")])
               = Ok [(0, 0, 0)%Z; (255, 255, 255)%Z]) by reflexivity.
  split; [auto|].
  destruct (image_to_stitch_preview_cells _ _ _ _ 1 2 H1 H2 H3 H4)
    as [preview [names [Hp [Hs _]]]].
  exists preview. auto.
Defined.

(** X8: with an empty palette [image_to_stitch_preview] does not fail:
    it returns the R x C grid with the colour [None] in every cell, and
    it is the palette lookup of the rendering, [yarn_palette[None]], that
    then fails with a KeyError. *)
Theorem image_to_stitch_preview_empty_palette
  (grid : image) (edges : list (list Z)) (R C : nat) :
  has_shape R C grid -> has_shape R C edges ->
  exists preview,
    Main.image_to_stitch_preview grid edges [] (Z.of_nat R) (Z.of_nat C)
    = Ok preview /\
    has_shape R C preview /\
    (forall r c cell, Vectorised.getitem2 preview r c = Ok cell ->
       snd cell = None /\
       Main.palette_getitem [] (snd cell) = Raise KeyError).
Proof.
  intros Hg He. eexists. split.
  { apply (image_to_stitch_preview_tabulate grid edges [] (fun _ => None));
      [reflexivity | assumption | assumption]. }
  split; [apply has_shape_tabulate|].
  intros r c cell Hcell.
  destruct (getitem2_bounds R C _ r c cell (has_shape_tabulate _ R C) Hcell)
    as [Hr Hc].
  rewrite (getitem2_tabulate _ R C r c Hr Hc) in Hcell.
  injection Hcell as <-. split; reflexivity.
Qed.

Lemma image_to_stitch_preview_empty_palette_witness :
  (has_shape 1 1 [[(0, 0, 0)%Z]] /\ has_shape 1 1 [[0%Z]])
  /\ exists preview,
       Main.image_to_stitch_preview [[(0, 0, 0)%Z]] [[0%Z]] []
         (Z.of_nat 1) (Z.of_nat 1) = Ok preview.
Proof.
  assert (H1 : has_shape 1 1 [[(0, 0, 0)%Z]])
    by (split; [reflexivity | repeat constructor]).
  assert (H2 : has_shape 1 1 [[0%Z]])
    by (split; [reflexivity | repeat constructor]).
  split; [auto|].
  destruct (image_to_stitch_preview_empty_palette _ _ 1 1 H1 H2)
    as [preview [Hp _]].
  exists preview. exact Hp.
Defined.

(* ================================================================== *)
(** * The text dump of the command line *)
(* ================================================================== *)

Lemma filter_all {A : Type} (p : A -> bool) (l : list A) :
  (forall x, In x l -> p x = true) -> filter p l = l.
Proof.
  induction l as [|x t IH]; intros H; simpl; [reflexivity|].
  rewrite (H x (or_introl eq_refl)), IH; [reflexivity|].
  intros y Hy. apply H. now right.
Qed.

Lemma filter_none {A : Type} (p : A -> bool) (l : list A) :
  (forall x, In x l -> p x = false) -> filter p l = [].
Proof.
  induction l as [|x t IH]; intros H; simpl; [reflexivity|].
  rewrite (H x (or_introl eq_refl)), IH; [reflexivity|].
  intros y Hy. apply H. now right.
Qed.

(** Filtering a row-major frame on one row leaves the cells of that row. *)
Lemma filter_row_major (g : nat * nat -> Vectorised.cell) (C r s n : nat) :
  (forall rc, Vectorised.row (g rc) = fst rc) ->
  filter (fun x => (Vectorised.row x =? r)%nat)
         (map g (flat_map (fun r' => map (fun c => (r', c)) (seq 0 C)) (seq s n)))
  = if ((s <=? r) && (r <? s + n))%nat
    then map g (map (fun c => (r, c)) (seq 0 C)) else [].
Proof.
  intros Hg. revert s. induction n as [|n IH]; intros s.
  - simpl. destruct (Nat.leb_spec s r); simpl; [|reflexivity].
    destruct (Nat.ltb_spec r (s + 0)); [lia | reflexivity].
  - change (seq s (S n)) with (s :: seq (S s) n). cbn [flat_map].
    rewrite map_app, filter_app, IH.
    assert (Hblock : forall x,
               In x (map g (map (fun c => (s, c)) (seq 0 C))) ->
               Vectorised.row x = s).
    { intros x Hx. apply in_map_iff in Hx. destruct Hx as [rc [<- Hrc]].
      apply in_map_iff in Hrc. destruct Hrc as [c [<- _]]. apply Hg. }
    destruct (Nat.eq_dec r s) as [->|Hne].
    + rewrite filter_all
        by (intros x Hx; rewrite (Hblock x Hx); apply Nat.eqb_refl).
      destruct (Nat.leb_spec (S s) s); [lia|].
      destruct (Nat.leb_spec s s); [|lia].
      destruct (Nat.ltb_spec s (s + S n)); [|lia].
      cbn [andb]. now rewrite app_nil_r.
    + rewrite filter_none
        by (intros x Hx; rewrite (Hblock x Hx);
            now apply Nat.eqb_neq, Nat.neq_sym).
      destruct (Nat.leb_spec (S s) r), (Nat.leb_spec s r),
               (Nat.ltb_spec r (S s + n)), (Nat.ltb_spec r (s + S n));
        cbn [andb app]; try reflexivity; lia.
Qed.

(** Sorting by column leaves a run of increasing columns as it is. *)
Lemma sort_by_col_increasing (g : nat -> Vectorised.cell) (a n : nat) :
  (forall c, Vectorised.col (g c) = c) ->
  Vectorised.sort_by_col (map g (seq a n)) = map g (seq a n).
Proof.
  intros Hg. revert a. induction n as [|n IH]; intros a; [reflexivity|].
  simpl. unfold Vectorised.sort_by_col in IH. rewrite IH.
  destruct n as [|n]; [reflexivity|]. simpl.
  rewrite !Hg. destruct (Nat.leb_spec a (S a)); [reflexivity | lia].
Qed.

(** X9: the text dump of the command line reconstructs the rows of the
    pattern: for an R x C image it has R lines, and line r is the
    sequence of the tokens symbol(colour) of the cells (r, 0), ...,
    (r, C - 1), in this order, joined by single blanks, where symbol and
    colour are what the two classifiers give for the cell. *)
Theorem text_dump_rows
  (img : image) (edge_array : list (list float)) (pal : palette)
  (rgbs : list pixel) (R C : nat) :
  has_shape R C img ->
  has_shape R C edge_array ->
  pal <> [] ->
  mapM hex_channels (map snd pal) = Ok rgbs ->
  exists df stitch_array colour_array,
    Vectorised.image_to_stitch_grid img edge_array pal = Ok df /\
    Vectorised.edge_brightness_to_stitch_vectorised img edge_array = Ok stitch_array /\
    Vectorised.nearest_colour_vectorised img pal = Ok colour_array /\
    List.length (Vectorised.text_dump df (Z.of_nat R)) = R /\
    forall r, (r < R)%nat ->
      map (fun s => (Vectorised.row s, Vectorised.col s)) (Vectorised.row_data df r)
      = map (fun c => (r, c)) (seq 0 C) /\
      nth_error (Vectorised.text_dump df (Z.of_nat R)) r
      = Some (String.concat " "
                (map (fun c => String (nth c (nth r stitch_array []) "o"%char)
                                 ("(" ++ nth c (nth r colour_array []) EmptyString
                                      ++ ")"))
                     (seq 0 C))).
Proof.
  intros Hi He Hne Hp.
  destruct (image_to_stitch_grid_cells img edge_array pal rgbs R C Hi He Hne Hp)
    as [st [co [Hst [Hco Hdf]]]].
  eexists. exists st, co. split; [exact Hdf|]. split; [exact Hst|].
  split; [exact Hco|].
  set (g := fun rc : nat * nat =>
              Vectorised.mk_cell (fst rc) (snd rc)
                (nth (snd rc) (nth (fst rc) st []) "o"%char)
                (nth (snd rc) (nth (fst rc) co []) EmptyString)).
  assert (Hrow : forall r, (r < R)%nat ->
             Vectorised.row_data (map g (row_major R C)) r
             = map (fun c => g (r, c)) (seq 0 C)).
  { intros r Hr. unfold Vectorised.row_data, row_major.
    rewrite (filter_row_major g C r 0 R) by reflexivity.
    destruct (Nat.leb_spec 0 r); [|lia].
    destruct (Nat.ltb_spec r (0 + R)); [|lia]. simpl.
    rewrite map_map.
    apply (sort_by_col_increasing (fun c => g (r, c))). reflexivity. }
  split.
  { unfold Vectorised.text_dump.
    now rewrite length_map, arange_of_nat, length_map, length_seq. }
  intros r Hr. split.
  - rewrite (Hrow r Hr), map_map. reflexivity.
  - unfold Vectorised.text_dump.
    rewrite arange_of_nat, map_map, nth_error_map, nth_error_seq.
    destruct (Nat.ltb_spec r R); [|lia]. simpl.
    rewrite Nat2Z.id, (Hrow r Hr), map_map. reflexivity.
Qed.

Lemma text_dump_rows_witness :
  (has_shape 1 2 [[(0, 0, 0)%Z; (250, 250, 250)%Z]]
   /\ has_shape 1 2 [[0%float; 200%float]]
   /\ [("black"%string, YStr "#000000"); ("white"%string, YStr "#FFFFFF")] <> []
   /\ mapM hex_channels
        (map snd [("black"%string, YStr "#000000"); ("white"%string, YStr "#FFFFFF")])
      = Ok [(0, 0, 0)%Z; (255, 255, 255)%Z])
  /\ exists df,
       Vectorised.image_to_stitch_grid
         [[(0, 0, 0)%Z; (250, 250, 250)%Z]] [[0%float; 200%float]]
         [("black"%string, YStr "#000000"); ("white"%string, YStr "#FFFFFF")]
       = Ok df /\
       List.length (Vectorised.text_dump df (Z.of_nat 1)) = 1%nat.
Proof.
  assert (H1 : has_shape 1 2 [[(0, 0, 0)%Z; (250, 250, 250)%Z]])
    by (split; [reflexivity | repeat constructor]).
  assert (H2 : has_shape 1 2 [[0%float; 200%float]])
    by (split; [reflexivity | repeat constructor]).
  assert (H3 : [("black"%string, YStr "#000000"); ("white"%string, YStr "#FFFFFF")]
               <> []) by discriminate.
  assert (H4 : mapM hex_channels
                 (map snd [("black"%string, YStr "#000000");
                           ("white"%string, YStr "#FFFFFF")])
               = Ok [(0, 0, 0)%Z; (255, 255, 255)%Z]) by reflexivity.
  split; [auto|].
  destruct (text_dump_rows _ _ _ _ 1 2 H1 H2 H3 H4)
    as [df [st [co [Hdf [_ [_ [Hl _]]]]]]].
  exists df. auto.
Defined.

(* ================================================================== *)
(** * The colour a cell is drawn in *)
(* ================================================================== *)

Lemma dict_get_in {V : Type} (d : dict V) (k : string) (v : V) :
  NoDup (map fst d) -> In (k, v) d -> dict_get d k = Some v.
Proof.
  induction d as [|[k0 v0] t IH]; simpl; [intros _ []|].
  intros Hnd [[= -> ->]|Hin].
  - now rewrite String.eqb_refl.
  - inversion Hnd as [|? ? Hk0 Ht]; subst.
    destruct (String.eqb_spec k0 k) as [->|Hne]; [|now apply IH].
    exfalso. apply Hk0. apply in_map_iff. exists (k, v). auto.
Qed.

Lemma dict_get_absent {V : Type} (d : dict V) (k : string) :
  ~ In k (map fst d) -> dict_get d k = None.
Proof.
  induction d as [|[k0 v0] t IH]; simpl; [reflexivity|].
  intros H. destruct (String.eqb_spec k0 k) as [->|Hne].
  - exfalso. apply H. now left.
  - apply IH. intros Hin. apply H. now right.
Qed.

(** X10: rendering finds every cell's colour again.  For a palette with
    distinct names that are ASCII text in lower case (as the loader
    leaves them) without white space at their ends, every cell of the
    grid the assembler builds is drawn in the hex value stored in the
    palette under the cell's colour name; an ASCII name the palette does
    not hold once stripped and lowered is drawn in black, ["#000000"],
    without any error. *)
Theorem text_colour_finds_palette_entry
  (img : image) (edge_array : list (list float)) (pal : palette)
  (rgbs : list pixel) (R C : nat) :
  has_shape R C img ->
  has_shape R C edge_array ->
  pal <> [] ->
  mapM hex_channels (map snd pal) = Ok rgbs ->
  NoDup (map fst pal) ->
  (forall k, In k (map fst pal) ->
     ascii_text k = true /\ lower k = k /\ strip k = k) ->
  (exists df,
      Vectorised.image_to_stitch_grid img edge_array pal = Ok df /\
      forall s, In s df ->
        exists hex_code,
          In (Vectorised.colour s, hex_code) pal /\
          Vectorised.text_colour pal (Vectorised.colour s) = hex_code)
  /\ (forall name,
        ascii_text name = true ->
        ~ In (lower (strip name)) (map fst pal) ->
        Vectorised.text_colour pal name = YStr "#000000").
Proof.
  intros Hi He Hne Hp Hnd Hkeys. split.
  - destruct (image_to_stitch_grid_cells img edge_array pal rgbs R C Hi He Hne Hp)
      as [st [co [_ [Hco Hdf]]]].
    destruct (classifiers_choose_first_min pal rgbs img R C Hne Hp Hi)
      as [[names [Hv [Hsh Hcell]]] _].
    rewrite Hco in Hv. injection Hv as <-.
    eexists. split; [exact Hdf|].
    intros s Hs. apply in_map_iff in Hs. destruct Hs as [[r c] [<- Hrc]].
    apply in_row_major in Hrc. destruct Hrc as [Hr Hc]. simpl.
    destruct (has_shape_cell R C img r c Hi Hr Hc) as [px Hpx].
    destruct (Hcell r c px Hpx) as [k [name [_ [Hn Hg]]]].
    rewrite (getitem2_nth R C co r c EmptyString Hsh Hr Hc) in Hg.
    injection Hg as Hg. rewrite Hg.
    assert (Hin : In name (map fst pal)) by (eapply nth_error_In; eauto).
    pose proof Hin as Hin'. apply in_map_iff in Hin'.
    destruct Hin' as [[name' hex_code] [Heq Hentry]]. simpl in Heq. subst name'.
    exists hex_code. split; [assumption|].
    unfold Vectorised.text_colour.
    destruct (Hkeys name Hin) as [_ [Hl Hs']]. rewrite Hs', Hl.
    now rewrite (dict_get_in pal name hex_code Hnd Hentry).
  - intros name _ Hout. unfold Vectorised.text_colour.
    now rewrite (dict_get_absent pal _ Hout).
Qed.

Lemma text_colour_finds_palette_entry_witness :
  (has_shape 1 1 [[(250, 250, 250)%Z]]
   /\ has_shape 1 1 [[0%float]]
   /\ [("black"%string, YStr "#000000"); ("white"%string, YStr "#FFFFFF")] <> []
   /\ mapM hex_channels
        (map snd [("black"%string, YStr "#000000"); ("white"%string, YStr "#FFFFFF")])
      = Ok [(0, 0, 0)%Z; (255, 255, 255)%Z]
   /\ NoDup (map fst [("black"%string, YStr "#000000");
                      ("white"%string, YStr "#FFFFFF")]))
  /\ Vectorised.text_colour
       [("black"%string, YStr "#000000"); ("white"%string, YStr "#FFFFFF")]
       " Grey " = YStr "#000000"
  /\ Vectorised.text_colour
       [("black"%string, YStr "#000000"); ("white"%string, YStr "#FFFFFF")]
       " WHITE " = YStr "#FFFFFF".
Proof.
  assert (H1 : has_shape 1 1 [[(250, 250, 250)%Z]])
    by (split; [reflexivity | repeat constructor]).
  assert (H2 : has_shape 1 1 [[0%float]])
    by (split; [reflexivity | repeat constructor]).
  assert (H3 : [("black"%string, YStr "#000000"); ("white"%string, YStr "#FFFFFF")]
               <> []) by discriminate.
  assert (H4 : mapM hex_channels
                 (map snd [("black"%string, YStr "#000000");
                           ("white"%string, YStr "#FFFFFF")])
               = Ok [(0, 0, 0)%Z; (255, 255, 255)%Z]) by reflexivity.
  assert (H5 : NoDup (map fst [("black"%string, YStr "#000000");
                               ("white"%string, YStr "#FFFFFF")])).
  { simpl. constructor; [intros [H|[]]; discriminate|].
    constructor; [intros []|constructor]. }
  assert (H6 : forall k,
             In k (map fst [("black"%string, YStr "#000000");
                            ("white"%string, YStr "#FFFFFF")]) ->
             ascii_text k = true /\ lower k = k /\ strip k = k).
  { intros k [<-|[<-|[]]]; repeat split; reflexivity. }
  split; [auto 6|]. split; [|reflexivity].
  apply (proj2 (text_colour_finds_palette_entry _ _ _ _ 1 1 H1 H2 H3 H4 H5 H6));
    [reflexivity|].
  simpl. intros [H|[H|[]]]; discriminate.
Defined.

(* ================================================================== *)
(** * Exact products and quotients of integers in float64 *)
(* ================================================================== *)

(** A 53-bit mantissa [r] at exponent [e <= 0] that holds the integer [k]
    is the representation of [k]. *)
Lemma normal_is_of_int (k r e : Z) :
  (0 < k)%Z -> (2 ^ 52 <= r < 2 ^ 53)%Z -> (e <= 0)%Z -> (r = k * 2 ^ (- e))%Z ->
  r = norm_mant k /\ e = norm_exp k.
Proof.
  intros Hk Hr He Hrk.
  assert (Hp : (0 < 2 ^ (- e))%Z) by (apply Z.pow_pos_nonneg; lia).
  assert (Hle : (- e <= 52)%Z).
  { destruct (Z.le_gt_cases (- e) 52) as [|Hgt]; [assumption|exfalso].
    assert (2 ^ 53 <= 2 ^ (- e))%Z by (apply Z.pow_le_mono_r; lia). nia. }
  assert (Hd : Zdigits2 k = (53 + e)%Z).
  { apply Zdigits2_unique; [|assumption].
    assert (E1 : (2 ^ 52 = 2 ^ (53 + e - 1) * 2 ^ (- e))%Z).
    { rewrite <- Z.pow_add_r by lia. f_equal. lia. }
    assert (E2 : (2 ^ 53 = 2 ^ (53 + e) * 2 ^ (- e))%Z).
    { rewrite <- Z.pow_add_r by lia. f_equal. lia. }
    split; nia. }
  unfold norm_mant, norm_exp. rewrite Hd. split; [|lia].
  rewrite Hrk. do 2 f_equal. lia.
Qed.

(** The product of two positive integers that is below 2^53 is exact. *)
Lemma float_mul_exact (a b : Z) :
  (0 < a)%Z -> (0 < b)%Z -> (a * b < 2 ^ 53)%Z ->
  Prim2SF (float_of_int a * float_of_int b)
  = S754_finite false (Z.to_pos (norm_mant (a * b))) (norm_exp (a * b)).
Proof.
  intros Ha Hb Hab.
  assert (Ha' : (0 < a < 2 ^ 53)%Z) by nia.
  assert (Hb' : (0 < b < 2 ^ 53)%Z) by nia.
  pose proof (norm_mant_bounds a Ha') as Ba.
  pose proof (norm_mant_bounds b Hb') as Bb.
  pose proof (Zdigits2_small a Ha') as Da.
  pose proof (Zdigits2_small b Hb') as Db.
  rewrite mul_spec, (float_of_int_pos a Ha'), (float_of_int_pos b Hb').
  destruct (SF64mul_normal (Z.to_pos (norm_mant a)) (Z.to_pos (norm_mant b))
              (norm_exp a) (norm_exp b))
    as [n [r [Hmul [Hn [Hr [Hq Hex]]]]]];
    rewrite ?Z2Pos.id by lia; unfold norm_exp; try lia.
  fold (norm_exp a) in *. fold (norm_exp b) in *.
  rewrite !Z2Pos.id in * by lia.
  set (s := (106 - Zdigits2 a - Zdigits2 b)%Z).
  assert (Hprod : (norm_mant a * norm_mant b = a * b * 2 ^ s)%Z).
  { unfold norm_mant, s.
    replace (106 - Zdigits2 a - Zdigits2 b)%Z
      with ((53 - Zdigits2 a) + (53 - Zdigits2 b))%Z by lia.
    rewrite Z.pow_add_r by lia. ring. }
  assert (Hn0 : (0 < 2 ^ n)%Z) by (apply Z.pow_pos_nonneg; lia).
  assert (Hsn : (n <= s)%Z).
  { destruct (Z.le_gt_cases n s) as [|Hgt]; [assumption|exfalso].
    assert (Hlt : (norm_mant a * norm_mant b / 2 ^ n < 2 ^ 52)%Z); [|lia].
    apply Z.div_lt_upper_bound; [lia|]. rewrite Hprod.
    assert (0 <= s)%Z by (unfold s; lia).
    assert (E : (2 ^ n = 2 ^ (n - s) * 2 ^ s)%Z).
    { rewrite <- Z.pow_add_r by lia. f_equal. lia. }
    assert (0 < 2 ^ s)%Z by (apply Z.pow_pos_nonneg; lia).
    assert (2 ^ 1 <= 2 ^ (n - s))%Z by (apply Z.pow_le_mono_r; lia).
    rewrite E. change (2 ^ 52)%Z with 4503599627370496%Z in *.
    change (2 ^ 53)%Z with 9007199254740992%Z in *. nia. }
  assert (Hsplit : (2 ^ s = 2 ^ (s - n) * 2 ^ n)%Z).
  { rewrite <- Z.pow_add_r by lia. f_equal. lia. }
  assert (Hquo : (norm_mant a * norm_mant b / 2 ^ n = a * b * 2 ^ (s - n))%Z).
  { rewrite Hprod, Hsplit, Z.mul_assoc. apply Z.div_mul. lia. }
  assert (Hmod : ((norm_mant a * norm_mant b) mod 2 ^ n = 0)%Z).
  { rewrite Hprod, Hsplit, Z.mul_assoc. apply Z.mod_mul. lia. }
  rewrite Hmul, (Hex Hmod), Hquo. rewrite Hquo in Hq.
  destruct (normal_is_of_int (a * b) (a * b * 2 ^ (s - n)) (- (s - n)))
    as [Em Ee]; try lia.
  { now rewrite Z.opp_involutive. }
  unfold round_result.
  destruct (Z.eqb_spec (a * b * 2 ^ (s - n)) (2 ^ 53)); [lia|].
  rewrite Em. f_equal. unfold norm_exp, s in *. lia.
Qed.

(** The quotient of a positive integer by one of its divisors is exact. *)
Lemma float_div_exact (k b : Z) :
  (0 < k)%Z -> (0 < b)%Z -> (k * b < 2 ^ 53)%Z ->
  Prim2SF (float_of_int (k * b) / float_of_int b)
  = S754_finite false (Z.to_pos (norm_mant k)) (norm_exp k).
Proof.
  intros Hk Hb Hab.
  assert (Ha' : (0 < k * b < 2 ^ 53)%Z) by nia.
  assert (Hb' : (0 < b < 2 ^ 53)%Z) by nia.
  pose proof (norm_mant_bounds (k * b) Ha') as Ba.
  pose proof (norm_mant_bounds b Hb') as Bb.
  pose proof (Zdigits2_small (k * b) Ha') as Da.
  pose proof (Zdigits2_small b Hb') as Db.
  rewrite div_spec, (float_of_int_pos (k * b) Ha'), (float_of_int_pos b Hb').
  destruct (SF64div_normal (Z.to_pos (norm_mant (k * b))) (Z.to_pos (norm_mant b))
              (norm_exp (k * b)) (norm_exp b))
    as [n [r [Hdiv [Hn [Hr [Hq Hex]]]]]];
    rewrite ?Z2Pos.id by lia; unfold norm_exp; try lia.
  fold (norm_exp (k * b)) in *. fold (norm_exp b) in *.
  rewrite !Z2Pos.id in * by lia.
  set (t := (53 - Zdigits2 (k * b) + Zdigits2 b)%Z).
  assert (Ht : (1 <= t)%Z) by (unfold t; lia).
  assert (Hnum : (norm_mant (k * b) * 2 ^ 53 = k * 2 ^ t * norm_mant b)%Z).
  { unfold norm_mant, t.
    replace (2 ^ 53)%Z with (2 ^ Zdigits2 b * 2 ^ (53 - Zdigits2 b))%Z
      by (rewrite <- Z.pow_add_r by lia; f_equal; lia).
    replace (53 - Zdigits2 (k * b) + Zdigits2 b)%Z
      with ((53 - Zdigits2 (k * b)) + Zdigits2 b)%Z by lia.
    rewrite (Z.pow_add_r 2 (53 - Zdigits2 (k * b))) by lia. ring. }
  assert (Hq0 : (norm_mant (k * b) * 2 ^ 53 / norm_mant b = k * 2 ^ t)%Z).
  { rewrite Hnum. apply Z.div_mul. lia. }
  assert (Hm0 : ((norm_mant (k * b) * 2 ^ 53) mod norm_mant b = 0)%Z).
  { rewrite Hnum. apply Z.mod_mul. lia. }
  rewrite Hq0 in *.
  assert (Hn0 : (0 < 2 ^ n)%Z) by (apply Z.pow_pos_nonneg; lia).
  assert (Hsplit : (2 ^ t = 2 ^ (t - n) * 2 ^ n)%Z).
  { rewrite <- Z.pow_add_r by lia. f_equal. lia. }
  assert (Hquo : (k * 2 ^ t / 2 ^ n = k * 2 ^ (t - n))%Z).
  { rewrite Hsplit, Z.mul_assoc. apply Z.div_mul. lia. }
  assert (Hmod : ((k * 2 ^ t) mod 2 ^ n = 0)%Z).
  { rewrite Hsplit, Z.mul_assoc. apply Z.mod_mul. lia. }
  rewrite Hdiv, (Hex Hm0 Hmod), Hquo. rewrite Hquo in Hq.
  destruct (normal_is_of_int k (k * 2 ^ (t - n)) (- (t - n)))
    as [Em Ee]; try lia.
  { now rewrite Z.opp_involutive. }
  unfold round_result.
  destruct (Z.eqb_spec (k * 2 ^ (t - n)) (2 ^ 53)); [lia|].
  rewrite Em. f_equal. unfold norm_exp, t in *. lia.
Qed.

(** [i * (H / R)] when [R] divides [H]: the exact product [i * (H / R)]. *)
Lemma float_scale_exact (i k b : Z) :
  (0 <= i)%Z -> (0 < k)%Z -> (0 < b)%Z -> (k * b < 2 ^ 53)%Z -> (i * k < 2 ^ 53)%Z ->
  sf_trunc (Prim2SF (float_of_int i * (float_of_int (k * b) / float_of_int b)))
  = Some (i * k)%Z.
Proof.
  intros Hi Hk Hb Hkb Hik.
  assert (Hk' : (0 < k < 2 ^ 53)%Z) by nia.
  assert (Hq : (float_of_int (k * b) / float_of_int b)%float = float_of_int k).
  { apply Prim2SF_inj.
    now rewrite (float_div_exact k b Hk Hb Hkb), (float_of_int_pos k Hk'). }
  rewrite Hq.
  destruct (Z.eq_dec i 0) as [->|Hi0].
  - rewrite mul_spec, (float_of_int_pos k Hk'). reflexivity.
  - rewrite (float_mul_exact i k) by lia.
    apply sf_trunc_of_int. nia.
Qed.

(* ================================================================== *)
(** * Resampling by a whole factor, and the two entry points *)
(* ================================================================== *)

(** The cells of a resampled image, by the index formula of the source. *)
Lemma resize_image_cells (img : image) (H W R C : nat) :
  has_shape H W img ->
  (1 <= H)%nat -> (1 <= W)%nat -> (1 <= R)%nat -> (1 <= C)%nat ->
  (Z.of_nat H < 2 ^ 50)%Z -> (Z.of_nat W < 2 ^ 50)%Z ->
  (Z.of_nat R < 2 ^ 50)%Z -> (Z.of_nat C < 2 ^ 50)%Z ->
  exists out,
    Vectorised.resize_image img (Z.of_nat R) (Z.of_nat C) = Ok out /\
    has_shape R C out /\
    forall i j, (i < R)%nat -> (j < C)%nat ->
      Vectorised.getitem2 out i j
      = Vectorised.getitem2 img
          (Z.to_nat (astype_int (float_of_int (Z.of_nat i)
                                 * (float_of_int (Z.of_nat H)
                                    / float_of_int (Z.of_nat R)))))
          (Z.to_nat (astype_int (float_of_int (Z.of_nat j)
                                 * (float_of_int (Z.of_nat W)
                                    / float_of_int (Z.of_nat C))))).
Proof.
  intros Hs HH HW HR HC BH BW BR BC.
  pose (ridx := fun i : Z =>
                  astype_int (float_of_int i
                              * (float_of_int (Z.of_nat H)
                                 / float_of_int (Z.of_nat R)))).
  pose (cidx := fun j : Z =>
                  astype_int (float_of_int j
                              * (float_of_int (Z.of_nat W)
                                 / float_of_int (Z.of_nat C)))).
  exists (map (fun r => map (fun c => nth (Z.to_nat c) (nth (Z.to_nat r) img [])
                                          (0, 0, 0)%Z)
                            (map cidx (arange (Z.of_nat C))))
              (map ridx (arange (Z.of_nat R)))).
  split; [now apply (resize_image_select img H W R C)|].
  split.
  - split.
    + rewrite !length_map, arange_of_nat, length_map, length_seq. reflexivity.
    + apply Forall_map, Forall_forall. intros r _. cbv beta.
      rewrite !length_map, arange_of_nat, length_map, length_seq. reflexivity.
  - intros i j Hi Hj. fold (ridx (Z.of_nat i)). fold (cidx (Z.of_nat j)).
    pose proof (resample_index_in_range (Z.of_nat H) (Z.of_nat R) (Z.of_nat i)
                  ltac:(lia) ltac:(lia) ltac:(lia)) as Hri.
    pose proof (resample_index_in_range (Z.of_nat W) (Z.of_nat C) (Z.of_nat j)
                  ltac:(lia) ltac:(lia) ltac:(lia)) as Hcj.
    fold (ridx (Z.of_nat i)) in Hri. fold (cidx (Z.of_nat j)) in Hcj.
    rewrite (getitem2_nth H W img _ _ (0, 0, 0)%Z Hs) by lia.
    apply getitem2_Ok. eexists. split.
    + rewrite !arange_of_nat, !nth_error_map, nth_error_seq.
      destruct (Nat.ltb_spec i R); [|lia]. reflexivity.
    + cbv beta. rewrite ?arange_of_nat, !nth_error_map, nth_error_seq.
      destruct (Nat.ltb_spec j C); [|lia]. reflexivity.
Qed.

(** Python's [int] of a float with an integer part. *)
Lemma py_int_of_float_trunc (x : float) (z : Z) :
  sf_trunc (Prim2SF x) = Some z -> py_int_of_float x = Ok z.
Proof.
  unfold py_int_of_float. destruct (Prim2SF x) as [s|s| |s m e].
  - now intros [= <-].
  - discriminate.
  - discriminate.
  - intros H. now rewrite H.
Qed.

(** The index of position [i] when the source extent is [k] times the
    target extent. *)
Lemma resample_index_factor (i k R : Z) :
  (1 <= k)%Z -> (0 <= i < R)%Z -> (k * R < 2 ^ 53)%Z ->
  astype_int (float_of_int i * (float_of_int (k * R) / float_of_int R)) = (i * k)%Z.
Proof.
  intros Hk Hi Hb.
  apply astype_int_small; [|nia].
  apply float_scale_exact; nia.
Qed.

(** Edge detection followed by the assembly of the grid, on an image of
    at least one cell and a usable palette. *)
Lemma edges_then_grid (img : image) (pal : palette) (rgbs : list pixel) (R C : nat) :
  has_shape R C img -> (1 <= R)%nat -> (1 <= C)%nat ->
  pal <> [] -> mapM hex_channels (map snd pal) = Ok rgbs ->
  exists df,
    (edges <- Vectorised.compute_edges img ;;
     Vectorised.image_to_stitch_grid img edges pal) = Ok df /\
    map (fun s => (Vectorised.row s, Vectorised.col s)) df = row_major R C /\
    forall s, In s df -> In (Vectorised.colour s) (map fst pal).
Proof.
  intros Hs HR HC Hne Hp.
  assert (He : exists edges, Vectorised.compute_edges img = Ok edges
                             /\ has_shape R C edges).
  { unfold Vectorised.compute_edges, pad_edge.
    assert (Hnr : nrows (map (map luma) img) = R)
      by (unfold nrows; rewrite length_map; apply Hs).
    assert (Hnc : ncols (map (map luma) img) = C)
      by (apply (has_shape_ncols R C); auto using has_shape_map).
    rewrite Hnr, Hnc.
    destruct (Nat.eqb_spec R 0) as [->|_]; [lia|].
    destruct (Nat.eqb_spec C 0) as [->|_]; [lia|].
    simpl. eexists. split; [reflexivity|].
    unfold arr_sqrt, arr_add, arr_square.
    apply has_shape_map, has_shape_zip_with;
      apply has_shape_map, has_shape_correlate3; assumption. }
  destruct He as [edges [Hedges Hes]]. rewrite Hedges. simpl.
  destruct (image_to_stitch_grid_cells img edges pal rgbs R C Hs Hes Hne Hp)
    as [st [co [_ [Hco Hdf]]]].
  destruct (classifiers_choose_first_min pal rgbs img R C Hne Hp Hs)
    as [[names [Hv [Hsh Hcell]]] _].
  rewrite Hco in Hv. injection Hv as <-.
  eexists. split; [exact Hdf|]. split.
  - rewrite map_map. cbn [Vectorised.row Vectorised.col].
    rewrite <- (map_id (row_major R C)) at 2.
    apply map_ext. now intros [r c].
  - intros s Hin. apply in_map_iff in Hin. destruct Hin as [[r c] [<- Hrc]].
    apply in_row_major in Hrc. destruct Hrc as [Hr Hc]. simpl.
    destruct (has_shape_cell R C img r c Hs Hr Hc) as [px Hpx].
    destruct (Hcell r c px Hpx) as [k [name [_ [Hn Hg]]]].
    rewrite (getitem2_nth R C co r c EmptyString Hsh Hr Hc) in Hg.
    injection Hg as ->. eapply nth_error_In; eauto.
Qed.

(** X11: resampling by whole factors is exact.  When the source extents
    are whole multiples of the target extents, H = kr * R and W = kc * C,
    the Resampler returns the R x C image whose cell (i, j) is the source
    cell (i * kr, j * kc): every kr-th row and every kc-th column,
    starting with the first. *)
Theorem resize_image_whole_factor (img : image) (H W R C kr kc : nat) :
  has_shape H W img ->
  (1 <= R)%nat -> (1 <= C)%nat -> (1 <= kr)%nat -> (1 <= kc)%nat ->
  H = (kr * R)%nat -> W = (kc * C)%nat ->
  (Z.of_nat H < 2 ^ 50)%Z -> (Z.of_nat W < 2 ^ 50)%Z ->
  exists out,
    Vectorised.resize_image img (Z.of_nat R) (Z.of_nat C) = Ok out /\
    has_shape R C out /\
    forall i j, (i < R)%nat -> (j < C)%nat ->
      Vectorised.getitem2 out i j = Vectorised.getitem2 img (i * kr) (j * kc).
Proof.
  intros Hs HR HC Hkr Hkc EH EW BH BW.
  assert (HH : (1 <= H)%nat) by nia.
  assert (HW : (1 <= W)%nat) by nia.
  assert (BR : (Z.of_nat R < 2 ^ 50)%Z) by nia.
  assert (BC : (Z.of_nat C < 2 ^ 50)%Z) by nia.
  destruct (resize_image_cells img H W R C Hs HH HW HR HC BH BW BR BC)
    as [out [Hout [Hsh Hcell]]].
  exists out. split; [assumption|]. split; [assumption|].
  intros i j Hi Hj. rewrite (Hcell i j Hi Hj).
  rewrite EH, EW, !Nat2Z.inj_mul.
  rewrite (resample_index_factor (Z.of_nat i) (Z.of_nat kr) (Z.of_nat R))
    by nia.
  rewrite (resample_index_factor (Z.of_nat j) (Z.of_nat kc) (Z.of_nat C))
    by nia.
  now rewrite <- !Nat2Z.inj_mul, !Nat2Z.id.
Qed.

Lemma resize_image_whole_factor_witness :
  (has_shape 4 2 [[(0, 0, 0); (1, 1, 1)]; [(2, 2, 2); (3, 3, 3)];
                  [(4, 4, 4); (5, 5, 5)]; [(6, 6, 6); (7, 7, 7)]]%Z
   /\ 4 = 2 * 2 /\ 2 = 2 * 1)%nat
  /\ exists out,
       Vectorised.resize_image
         [[(0, 0, 0); (1, 1, 1)]; [(2, 2, 2); (3, 3, 3)];
          [(4, 4, 4); (5, 5, 5)]; [(6, 6, 6); (7, 7, 7)]]%Z
         (Z.of_nat 2) (Z.of_nat 1) = Ok out
       /\ Vectorised.getitem2 out 1 0 = Ok (4, 4, 4)%Z.
Proof.
  assert (H1 : has_shape 4 2 [[(0, 0, 0); (1, 1, 1)]; [(2, 2, 2); (3, 3, 3)];
                              [(4, 4, 4); (5, 5, 5)]; [(6, 6, 6); (7, 7, 7)]]%Z)
    by (split; [reflexivity | repeat constructor]).
  split; [split; [exact H1 | split; reflexivity]|].
  destruct (resize_image_whole_factor _ 4 2 2 1 2 2 H1
              ltac:(lia) ltac:(lia) ltac:(lia) ltac:(lia)
              eq_refl eq_refl ltac:(lia) ltac:(lia))
    as [out [Ho [_ Hcell]]].
  exists out. split; [exact Ho|].
  rewrite (Hcell 1 0)%nat by lia. reflexivity.
Defined.

(** X12: the upload handler always produces a square pattern.  It
    derives the number of rows from the aspect ratio of the image it has
    already resampled to cols x cols, which is 1, so the rows equal the
    columns whatever the shape of the upload: the handler returns what
    edge detection and assembly give on the cols x cols resampling of the
    upload, and with a usable palette that is a grid of cols * cols cells
    in row-major order. *)
Theorem upload_image_is_square
  (src : image) (H W cols : nat) (pal : palette) :
  has_shape H W src ->
  (1 <= H)%nat -> (1 <= W)%nat -> (1 <= cols)%nat ->
  (Z.of_nat H < 2 ^ 50)%Z -> (Z.of_nat W < 2 ^ 50)%Z ->
  (Z.of_nat cols < 2 ^ 50)%Z ->
  exists resized,
    Vectorised.resize_image src (Z.of_nat cols) (Z.of_nat cols) = Ok resized /\
    has_shape cols cols resized /\
    App.upload_image src (Z.of_nat cols) pal
    = (edges <- Vectorised.compute_edges resized ;;
       Vectorised.image_to_stitch_grid resized edges pal) /\
    forall rgbs,
      pal <> [] -> mapM hex_channels (map snd pal) = Ok rgbs ->
      exists df,
        App.upload_image src (Z.of_nat cols) pal = Ok df /\
        map (fun s => (Vectorised.row s, Vectorised.col s)) df
        = row_major cols cols.
Proof.
  intros Hs HH HW Hc BH BW Bc.
  destruct (resize_image_cells src H W cols cols Hs HH HW Hc Hc BH BW Bc Bc)
    as [resized [Hres [Hsh _]]].
  exists resized. split; [assumption|]. split; [assumption|].
  assert (Hup : App.upload_image src (Z.of_nat cols) pal
                = (edges <- Vectorised.compute_edges resized ;;
                   Vectorised.image_to_stitch_grid resized edges pal)).
  { unfold App.upload_image. rewrite Hres. cbn [bind].
    assert (Hnr : nrows resized = cols) by apply Hsh.
    rewrite Hnr, (has_shape_ncols cols cols resized Hsh Hc).
    unfold py_truediv. destruct (Z.eqb_spec (Z.of_nat cols) 0); [lia|].
    cbn [bind].
    rewrite (py_int_of_float_trunc _ (Z.of_nat cols)).
    - cbn [bind]. rewrite Hres. reflexivity.
    - pose proof (float_scale_exact (Z.of_nat cols) 1 (Z.of_nat cols)) as E.
      rewrite Z.mul_1_l, Z.mul_1_r in E. apply E; lia. }
  split; [exact Hup|].
  intros rgbs Hne Hp.
  destruct (edges_then_grid resized pal rgbs cols cols Hsh Hc Hc Hne Hp)
    as [df [Hdf [Hrc _]]].
  exists df. split; [now rewrite Hup | exact Hrc].
Qed.

Lemma upload_image_is_square_witness :
  has_shape 1 2 [[(0, 0, 0)%Z; (250, 250, 250)%Z]]
  /\ exists df,
       App.upload_image [[(0, 0, 0)%Z; (250, 250, 250)%Z]] (Z.of_nat 2)
         [("black"%string, YStr "#000000"); ("white"%string, YStr "#FFFFFF")]
       = Ok df
       /\ map (fun s => (Vectorised.row s, Vectorised.col s)) df
          = [(0, 0); (0, 1); (1, 0); (1, 1)]%nat.
Proof.
  assert (H1 : has_shape 1 2 [[(0, 0, 0)%Z; (250, 250, 250)%Z]])
    by (split; [reflexivity | repeat constructor]).
  split; [exact H1|].
  destruct (upload_image_is_square _ 1 2 2
              [("black"%string, YStr "#000000"); ("white"%string, YStr "#FFFFFF")]
              H1 ltac:(lia) ltac:(lia) ltac:(lia) ltac:(lia) ltac:(lia) ltac:(lia))
    as [resized [_ [_ [_ Hgrid]]]].
  destruct (Hgrid [(0, 0, 0)%Z; (255, 255, 255)%Z] ltac:(discriminate) eq_refl)
    as [df [Hdf Hrc]].
  exists df. split; [exact Hdf | exact Hrc].
Defined.

(** X13: the command line on an image whose height is a whole multiple
    of its width, H = k * W: the rows it derives are exactly k * cols, and
    with a usable palette it returns a grid of k * cols * cols cells in
    row-major order, each with a colour name of the palette. *)
Theorem main_whole_aspect_ratio
  (img : image) (H W k cols : nat) (pal : palette) (rgbs : list pixel) :
  has_shape H W img ->
  (1 <= W)%nat -> (1 <= k)%nat -> (1 <= cols)%nat ->
  H = (k * W)%nat ->
  (Z.of_nat H < 2 ^ 50)%Z -> (Z.of_nat (k * cols) < 2 ^ 50)%Z ->
  pal <> [] -> mapM hex_channels (map snd pal) = Ok rgbs ->
  py_int_of_float (float_of_int (Z.of_nat cols)
                   * (float_of_int (Z.of_nat H) / float_of_int (Z.of_nat W)))
  = Ok (Z.of_nat (k * cols))
  /\ exists df,
       Vectorised.main img (Z.of_nat cols) pal = Ok df /\
       map (fun s => (Vectorised.row s, Vectorised.col s)) df
       = row_major (k * cols) cols /\
       forall s, In s df -> In (Vectorised.colour s) (map fst pal).
Proof.
  intros Hs HW Hk Hc EH BH BR Hne Hp.
  assert (HH : (1 <= H)%nat) by nia.
  assert (BW : (Z.of_nat W < 2 ^ 50)%Z) by nia.
  assert (Bc : (Z.of_nat cols < 2 ^ 50)%Z) by nia.
  assert (HR : (1 <= k * cols)%nat) by nia.
  assert (Hrows : py_int_of_float
                    (float_of_int (Z.of_nat cols)
                     * (float_of_int (Z.of_nat H) / float_of_int (Z.of_nat W)))
                  = Ok (Z.of_nat (k * cols))).
  { apply py_int_of_float_trunc.
    rewrite EH, !Nat2Z.inj_mul, (Z.mul_comm (Z.of_nat k) (Z.of_nat cols)).
    apply float_scale_exact; nia. }
  split; [exact Hrows|].
  destruct (resize_image_cells img H W (k * cols) cols Hs HH HW HR Hc BH BW BR Bc)
    as [resized [Hres [Hsh _]]].
  destruct (edges_then_grid resized pal rgbs (k * cols) cols Hsh HR Hc Hne Hp)
    as [df [Hdf Hrest]].
  exists df. split; [|exact Hrest].
  unfold Vectorised.main.
  assert (Hnr : nrows img = H) by apply Hs.
  rewrite Hnr, (has_shape_ncols H W img Hs HH).
  unfold py_truediv. destruct (Z.eqb_spec (Z.of_nat W) 0); [lia|].
  cbn [bind]. rewrite Hrows. cbn [bind]. rewrite Hres. exact Hdf.
Qed.

Lemma main_whole_aspect_ratio_witness :
  has_shape 2 1 [[(0, 0, 0)%Z]; [(250, 250, 250)%Z]]
  /\ exists df,
       Vectorised.main [[(0, 0, 0)%Z]; [(250, 250, 250)%Z]] (Z.of_nat 2)
         [("black"%string, YStr "#000000"); ("white"%string, YStr "#FFFFFF")]
       = Ok df
       /\ List.length df = 8%nat.
Proof.
  assert (H1 : has_shape 2 1 [[(0, 0, 0)%Z]; [(250, 250, 250)%Z]])
    by (split; [reflexivity | repeat constructor]).
  split; [exact H1|].
  destruct (main_whole_aspect_ratio _ 2 1 2 2
              [("black"%string, YStr "#000000"); ("white"%string, YStr "#FFFFFF")]
              [(0, 0, 0)%Z; (255, 255, 255)%Z]
              H1 ltac:(lia) ltac:(lia) ltac:(lia) eq_refl
              ltac:(simpl; lia) ltac:(simpl; lia) ltac:(discriminate) eq_refl)
    as [_ [df [Hdf [Hrc _]]]].
  exists df. split; [exact Hdf|].
  rewrite <- (length_map (fun s => (Vectorised.row s, Vectorised.col s))), Hrc.
  reflexivity.
Defined.

(* ================================================================== *)
(** * A negative number of columns *)
(* ================================================================== *)

Lemma float_of_int_neg (n : Z) :
  (0 < n < 2 ^ 53)%Z ->
  Prim2SF (float_of_int (- n))
  = S754_finite true (Z.to_pos (norm_mant n)) (norm_exp n).
Proof.
  intros Hn. pose proof (float_of_int_pos n Hn) as Hp.
  rewrite float_of_int_small in Hp by lia.
  rewrite float_of_int_small by lia.
  destruct (Z.ltb_spec n 0); [lia|].
  destruct (Z.ltb_spec (- n) 0); [|lia].
  rewrite Z.opp_involutive, opp_spec, Hp. reflexivity.
Qed.

(** A negative normal number times a positive one: finite and negative. *)
Lemma SF64mul_neg_pos (m1 m2 : positive) (e1 e2 : Z) :
  (2 ^ 52 <= Zpos m1 < 2 ^ 53)%Z -> (2 ^ 52 <= Zpos m2 < 2 ^ 53)%Z ->
  (-500 <= e1 + e2 <= 500)%Z ->
  exists m e,
    SF64mul (S754_finite true m1 e1) (S754_finite false m2 e2)
    = S754_finite true m e.
Proof.
  intros H1 H2 He. unfold SF64mul, SFmul. cbn [xorb].
  pose proof (digits2_pos_bounds (m1 * m2)) as Hd.
  rewrite Pos2Z.inj_mul in Hd.
  set (d := Zpos (digits2_pos (m1 * m2))) in *.
  assert (Hlo : (2 ^ 104 <= Zpos m1 * Zpos m2)%Z)
    by (change (2 ^ 104)%Z with (2 ^ 52 * 2 ^ 52)%Z; nia).
  assert (Hhi : (Zpos m1 * Zpos m2 < 2 ^ 106)%Z)
    by (change (2 ^ 106)%Z with (2 ^ 53 * 2 ^ 53)%Z; nia).
  assert (Hdr : (105 <= d <= 106)%Z).
  { split.
    - destruct (Z.lt_ge_cases d 105) as [Hlt|]; [|assumption].
      assert (2 ^ d <= 2 ^ 104)%Z by (apply Z.pow_le_mono_r; lia). lia.
    - destruct (Z.le_gt_cases d 106) as [|Hgt]; [assumption|].
      assert (2 ^ 106 <= 2 ^ (d - 1))%Z by (apply Z.pow_le_mono_r; lia). lia. }
  destruct (binary_round_aux_spec true (m1 * m2) (e1 + e2) loc_Exact)
    as [r [Hr _]]; fold d; try lia.
  fold d in Hr. rewrite Hr. unfold round_result.
  destruct (r =? 2 ^ 53)%Z; eexists; eexists; reflexivity.
Qed.

Lemma sf_trunc_negative (m : positive) (e : Z) :
  exists a, sf_trunc (S754_finite true m e) = Some (- a)%Z /\ (0 <= a)%Z.
Proof.
  unfold sf_trunc. eexists. split; [reflexivity|].
  destruct e as [|p|p].
  - lia.
  - apply Z.mul_nonneg_nonneg; [lia | apply Z.pow_nonneg; lia].
  - apply Z.div_pos; [lia | apply Z.pow_pos_nonneg; lia].
Qed.

Lemma resize_image_negative_rows (img : image) (R C : Z) :
  (R < 0)%Z -> (C <> 0)%Z -> Vectorised.resize_image img R C = Ok [].
Proof.
  intros HR HC. unfold Vectorised.resize_image, py_truediv.
  destruct (Z.eqb_spec R 0); [lia|].
  destruct (Z.eqb_spec C 0); [lia|].
  cbn [bind]. unfold arange.
  replace (Z.to_nat R) with 0%nat by lia. reflexivity.
Qed.

(** X14: a negative number of columns never yields a pattern.  The
    Resampler itself accepts negative extents and returns an image
    without rows; the upload handler then fails with ZeroDivisionError on
    the aspect ratio 0 / 0 of that image; the command line derives rows
    that are zero or negative and fails with ZeroDivisionError in the
    first case and, padding an empty edge map, with ValueError in the
    second. *)
Theorem negative_columns_fail
  (img : image) (H W : nat) (cols : Z) (pal : palette) :
  has_shape H W img ->
  (1 <= H)%nat -> (1 <= W)%nat ->
  (Z.of_nat H < 2 ^ 50)%Z -> (Z.of_nat W < 2 ^ 50)%Z ->
  (- 2 ^ 50 < cols < 0)%Z ->
  Vectorised.resize_image img cols cols = Ok []
  /\ App.upload_image img cols pal = Raise ZeroDivisionError
  /\ (Vectorised.main img cols pal = Raise ZeroDivisionError
      \/ Vectorised.main img cols pal = Raise ValueError).
Proof.
  intros Hs HH HW BH BW Hc.
  assert (Hres : Vectorised.resize_image img cols cols = Ok [])
    by (apply resize_image_negative_rows; lia).
  split; [exact Hres|]. split.
  { unfold App.upload_image. rewrite Hres. reflexivity. }
  assert (HH' : (0 < Z.of_nat H < 2 ^ 53)%Z) by lia.
  assert (HW' : (0 < Z.of_nat W < 2 ^ 53)%Z) by lia.
  assert (Hn' : (0 < - cols < 2 ^ 53)%Z) by lia.
  pose proof (norm_mant_bounds _ HH') as BmH.
  pose proof (norm_mant_bounds _ HW') as BmW.
  pose proof (norm_mant_bounds _ Hn') as Bmc.
  pose proof (Zdigits2_small _ HH') as DH.
  pose proof (Zdigits2_small _ HW') as DW.
  pose proof (Zdigits2_small _ Hn') as Dc.
  destruct (SF64div_value (Z.to_pos (norm_mant (Z.of_nat H)))
              (Z.to_pos (norm_mant (Z.of_nat W)))
              (norm_exp (Z.of_nat H)) (norm_exp (Z.of_nat W)))
    as [mq [eq [Hdiv [Bq [Eq _]]]]];
    rewrite ?Z2Pos.id by lia; unfold norm_exp; try lia.
  fold (norm_exp (Z.of_nat H)) in *. fold (norm_exp (Z.of_nat W)) in *.
  destruct (SF64mul_neg_pos (Z.to_pos (norm_mant (- cols))) mq
              (norm_exp (- cols)) eq)
    as [mp [ep Hmul]];
    rewrite ?Z2Pos.id by lia; unfold norm_exp in *; try lia.
  fold (norm_exp (Z.of_nat H)) in *. fold (norm_exp (Z.of_nat W)) in *.
  fold (norm_exp (- cols)) in *.
  destruct (sf_trunc_negative mp ep) as [a [Ha Ha0]].
  assert (Hrows : py_int_of_float
                    (float_of_int cols
                     * (float_of_int (Z.of_nat H) / float_of_int (Z.of_nat W)))
                  = Ok (- a)%Z).
  { apply py_int_of_float_trunc.
    rewrite mul_spec, div_spec, (float_of_int_pos _ HH'), (float_of_int_pos _ HW').
    rewrite <- (Z.opp_involutive cols) at 1.
    rewrite (float_of_int_neg _ Hn'), Hdiv, Hmul. exact Ha. }
  unfold Vectorised.main.
  assert (Hnr : nrows img = H) by apply Hs.
  rewrite Hnr, (has_shape_ncols H W img Hs HH).
  unfold py_truediv. destruct (Z.eqb_spec (Z.of_nat W) 0); [lia|].
  cbn [bind]. rewrite Hrows. cbn [bind].
  destruct (Z.eq_dec a 0) as [->|Hne].
  - left. now rewrite (resize_image_zero img (- 0) cols (or_introl eq_refl)).
  - right. rewrite (resize_image_negative_rows img (- a) cols) by lia.
    reflexivity.
Qed.

Lemma negative_columns_fail_witness :
  has_shape 1 2 [[(0, 0, 0)%Z; (250, 250, 250)%Z]]
  /\ Vectorised.resize_image [[(0, 0, 0)%Z; (250, 250, 250)%Z]] (-1) (-1) = Ok []
  /\ App.upload_image [[(0, 0, 0)%Z; (250, 250, 250)%Z]] (-1)
       [("black"%string, YStr "#000000")] = Raise ZeroDivisionError.
Proof.
  assert (H1 : has_shape 1 2 [[(0, 0, 0)%Z; (250, 250, 250)%Z]])
    by (split; [reflexivity | repeat constructor]).
  split; [exact H1|].
  destruct (negative_columns_fail _ 1 2 (-1) [("black"%string, YStr "#000000")]
              H1 ltac:(lia) ltac:(lia) ltac:(simpl; lia) ltac:(simpl; lia)
              ltac:(lia))
    as [Hr [Hu _]].
  split; [exact Hr | exact Hu].
Defined.

(* ================================================================== *)
(** * The colours of the preview can be drawn *)
(* ================================================================== *)

Lemma dict_get_key_in {V : Type} (d : dict V) (k : string) :
  In k (map fst d) -> exists v, dict_get d k = Some v /\ In (k, v) d.
Proof.
  induction d as [|[k0 v0] t IH]; simpl; [intros []|].
  intros Hin. destruct (String.eqb_spec k0 k) as [->|Hne].
  - exists v0. split; [reflexivity | now left].
  - destruct Hin as [Heq|Hin]; [contradiction|].
    destruct (IH Hin) as [v [Hg Hv]]. exists v. split; [assumption | now right].
Qed.

(** X15: drawing the preview of [main.py] never misses a key.  For a
    usable palette every cell of the grid that [image_to_stitch_preview]
    returns carries a colour name for which the lookup
    [yarn_palette[colour_name]] of [visualize_stitch_preview] succeeds,
    with a hex value that the palette stores under that name and that
    reads as an RGB triple. *)
Theorem preview_colours_are_palette_keys
  (grid : image) (edges : list (list Z)) (pal : palette)
  (rgbs : list pixel) (R C : nat) :
  has_shape R C grid -> has_shape R C edges ->
  pal <> [] ->
  mapM hex_channels (map snd pal) = Ok rgbs ->
  exists preview,
    Main.image_to_stitch_preview grid edges pal (Z.of_nat R) (Z.of_nat C)
    = Ok preview /\
    forall r c, (r < R)%nat -> (c < C)%nat ->
      exists stitch_symbol colour_name hex_code rgb,
        Vectorised.getitem2 preview r c = Ok (stitch_symbol, colour_name) /\
        Main.palette_getitem pal colour_name = Ok hex_code /\
        In hex_code (map snd pal) /\
        hex_channels hex_code = Ok rgb.
Proof.
  intros Hg He Hne Hp.
  eexists. split.
  { apply (image_to_stitch_preview_tabulate grid edges pal
             (fun px => nth_error (map fst pal) (argmin (map (sqdist px) rgbs))));
      [|assumption|assumption].
    intros px. now apply main_nearest_colour_argmin. }
  intros r c Hr Hc.
  rewrite (getitem2_tabulate _ R C r c Hr Hc).
  set (px := nth c (nth r grid []) (0, 0, 0)%Z).
  destruct (chosen_entry pal rgbs px Hne Hp) as [k [name [_ [Hn Hk]]]].
  assert (Hin : In name (map fst pal)) by (eapply nth_error_In; eauto).
  destruct (dict_get_key_in pal name Hin) as [hex_code [Hget Hentry]].
  assert (Hval : In hex_code (map snd pal)).
  { apply in_map_iff. exists (name, hex_code). auto. }
  assert (Hrgb : exists rgb, hex_channels hex_code = Ok rgb).
  { apply mapM_Ok_map in Hp. clear - Hp Hval.
    induction Hp as [|x y l l' Hxy _ IH]; [destruct Hval|].
    destruct Hval as [->|Hval]; [eauto | auto]. }
  destruct Hrgb as [rgb Hrgb].
  eexists. exists (Some name), hex_code, rgb.
  split; [|split; [|split; assumption]].
  - rewrite <- Hn, <- Hk. reflexivity.
  - unfold Main.palette_getitem. now rewrite Hget.
Qed.

Lemma preview_colours_are_palette_keys_witness :
  (has_shape 1 2 [[(0, 0, 0)%Z; (250, 250, 250)%Z]]
   /\ has_shape 1 2 [[0%Z; 255%Z]])
  /\ exists preview,
       Main.image_to_stitch_preview
         [[(0, 0, 0)%Z; (250, 250, 250)%Z]] [[0%Z; 255%Z]]
         [("black"%string, YStr "#000000"); ("white"%string, YStr "#FFFFFF")]
         (Z.of_nat 1) (Z.of_nat 2)
       = Ok preview.
Proof.
  assert (H1 : has_shape 1 2 [[(0, 0, 0)%Z; (250, 250, 250)%Z]])
    by (split; [reflexivity | repeat constructor]).
  assert (H2 : has_shape 1 2 [[0%Z; 255%Z]])
    by (split; [reflexivity | repeat constructor]).
  split; [auto|].
  destruct (preview_colours_are_palette_keys _ _
              [("black"%string, YStr "#000000"); ("white"%string, YStr "#FFFFFF")]
              [(0, 0, 0)%Z; (255, 255, 255)%Z] 1 2 H1 H2
              ltac:(discriminate) eq_refl)
    as [preview [Hp _]].
  exists preview. exact Hp.
Defined.

(* ================================================================== *)
(** * Where resampling starts *)
(* ================================================================== *)

(** Position 0 reads source position 0, whatever the scale. *)
Lemma resample_index_zero (H R : Z) :
  (1 <= H < 2 ^ 50)%Z -> (1 <= R < 2 ^ 50)%Z ->
  astype_int (float_of_int 0 * (float_of_int H / float_of_int R)) = 0%Z.
Proof.
  intros HH HR.
  assert (HH' : (0 < H < 2 ^ 53)%Z) by lia.
  assert (HR' : (0 < R < 2 ^ 53)%Z) by lia.
  pose proof (norm_mant_bounds H HH') as BH.
  pose proof (norm_mant_bounds R HR') as BR.
  pose proof (Zdigits2_small H HH') as DH.
  pose proof (Zdigits2_small R HR') as DR.
  destruct (SF64div_value (Z.to_pos (norm_mant H)) (Z.to_pos (norm_mant R))
              (norm_exp H) (norm_exp R))
    as [mq [eq [Hdiv _]]];
    rewrite ?Z2Pos.id by lia; unfold norm_exp; try lia.
  fold (norm_exp H) in *. fold (norm_exp R) in *.
  apply astype_int_small; [|lia].
  rewrite mul_spec, div_spec, (float_of_int_pos H HH'), (float_of_int_pos R HR'),
    Hdiv.
  reflexivity.
Qed.

(** X16: resampling is anchored at the top-left corner.  Whatever the
    source and target extents, cell (0, 0) of the result is cell (0, 0) of
    the source, the first row of the result is read from the first row of
    the source and its first column from the first column of the source. *)
Theorem resize_image_anchored (img : image) (H W R C : nat) :
  has_shape H W img ->
  (1 <= H)%nat -> (1 <= W)%nat -> (1 <= R)%nat -> (1 <= C)%nat ->
  (Z.of_nat H < 2 ^ 50)%Z -> (Z.of_nat W < 2 ^ 50)%Z ->
  (Z.of_nat R < 2 ^ 50)%Z -> (Z.of_nat C < 2 ^ 50)%Z ->
  exists out,
    Vectorised.resize_image img (Z.of_nat R) (Z.of_nat C) = Ok out /\
    Vectorised.getitem2 out 0 0 = Vectorised.getitem2 img 0 0 /\
    (forall j, (j < C)%nat ->
       exists c', (c' < W)%nat /\
         Vectorised.getitem2 out 0 j = Vectorised.getitem2 img 0 c') /\
    (forall i, (i < R)%nat ->
       exists r', (r' < H)%nat /\
         Vectorised.getitem2 out i 0 = Vectorised.getitem2 img r' 0).
Proof.
  intros Hs HH HW HR HC BH BW BR BC.
  destruct (resize_image_cells img H W R C Hs HH HW HR HC BH BW BR BC)
    as [out [Hout [_ Hcell]]].
  pose proof (resample_index_zero (Z.of_nat H) (Z.of_nat R)
                ltac:(lia) ltac:(lia)) as Hr0.
  pose proof (resample_index_zero (Z.of_nat W) (Z.of_nat C)
                ltac:(lia) ltac:(lia)) as Hc0.
  exists out. split; [assumption|]. split; [|split].
  - rewrite (Hcell 0 0)%nat by lia.
    change (Z.of_nat 0) with 0%Z. now rewrite Hr0, Hc0.
  - intros j Hj. rewrite (Hcell 0 j)%nat by lia.
    change (Z.of_nat 0) with 0%Z. rewrite Hr0.
    pose proof (resample_index_in_range (Z.of_nat W) (Z.of_nat C) (Z.of_nat j)
                  ltac:(lia) ltac:(lia) ltac:(lia)) as Hcj.
    eexists. split; [|reflexivity]. lia.
  - intros i Hi. rewrite (Hcell i 0)%nat by lia.
    change (Z.of_nat 0) with 0%Z. rewrite Hc0.
    pose proof (resample_index_in_range (Z.of_nat H) (Z.of_nat R) (Z.of_nat i)
                  ltac:(lia) ltac:(lia) ltac:(lia)) as Hri.
    eexists. split; [|reflexivity]. lia.
Qed.

Lemma resize_image_anchored_witness :
  has_shape 2 2 [[(0, 0, 0); (1, 1, 1)]; [(2, 2, 2); (3, 3, 3)]]%Z
  /\ exists out,
       Vectorised.resize_image
         [[(0, 0, 0); (1, 1, 1)]; [(2, 2, 2); (3, 3, 3)]]%Z
         (Z.of_nat 3) (Z.of_nat 3) = Ok out
       /\ Vectorised.getitem2 out 0 0 = Ok (0, 0, 0)%Z.
Proof.
  assert (H1 : has_shape 2 2 [[(0, 0, 0); (1, 1, 1)]; [(2, 2, 2); (3, 3, 3)]]%Z)
    by (split; [reflexivity | repeat constructor]).
  split; [exact H1|].
  destruct (resize_image_anchored _ 2 2 3 3 H1
              ltac:(lia) ltac:(lia) ltac:(lia) ltac:(lia)
              ltac:(simpl; lia) ltac:(simpl; lia) ltac:(simpl; lia)
              ltac:(simpl; lia))
    as [out [Ho [H00 _]]].
  exists out. split; [exact Ho|]. rewrite H00. reflexivity.
Defined.
